(** * GTRadio extractor: a shallow embedding of [extractor/gta5_extractor.py]

    The script locates a game installation through the package manager's
    records, extracts the radio archives with an external tool, converts
    every container file of every station folder with a second external
    tool and lays the results out under [<output>/Grand Theft Auto V].

    Conventions of the model.
    - Text (file names, manifest contents) is a [string] of 8-bit
      characters read as ASCII; case conversion and the whitespace class
      of the regular expressions are the ASCII ones.
    - A [Path] is the list of its components, root first.  The current
      directory is the root of the modelled tree, so the relative path
      [temp_gta5_extraction] is the one-component path.  Paths are equal
      when their components are.
    - The file system is a tree of [File] and [Dir] nodes; a directory
      lists its entries in the order the operating system reports them.
    - The two external executables are oracles: given the paths they are
      called with, they say whether the process could be launched, its
      exit status and what it left at its output path. *)

From Stdlib Require Import ZArith NArith Ascii.
From stdpp Require Import base option list strings gmap.

Local Open Scope char_scope.
Local Open Scope stdpp_scope.

(** ** Python string operations *)

Module PyStr.

Definition dquote : ascii := "034"%char.
Definition newline : ascii := "010"%char.
Definition tab : ascii := "009"%char.

Definition upper_char (c : ascii) : ascii :=
  let n := N_of_ascii c in
  if ((97 <=? n) && (n <=? 122))%N then ascii_of_N (n - 32) else c.

Definition lower_char (c : ascii) : ascii :=
  let n := N_of_ascii c in
  if ((65 <=? n) && (n <=? 90))%N then ascii_of_N (n + 32) else c.

Fixpoint map_chars (f : ascii → ascii) (s : string) : string :=
  match s with
  | EmptyString => EmptyString
  | String c s' => String (f c) (map_chars f s')
  end.

(** [s.upper()], [s.lower()] *)
Definition upper : string → string := map_chars upper_char.
Definition lower : string → string := map_chars lower_char.

(** [s.startswith(p)] *)
Definition startswith (s p : string) : bool := String.prefix p s.

(** [s.endswith(p)] *)
Definition endswith (s p : string) : bool :=
  String.prefix (String.rev p) (String.rev s).

(** [s[:-n]] for a positive [n] *)
Definition drop_last (n : nat) (s : string) : string :=
  String.substring 0 (String.length s - n) s.

(** [s.replace(old, new)] for a non-empty [old]: every occurrence of
    [old], found left to right without overlap, becomes [new].  [skip]
    counts the characters of an occurrence still to be passed over. *)
Fixpoint replace_go (old new : string) (skip : nat) (s : string) : string :=
  match s with
  | EmptyString => EmptyString
  | String c s' =>
      match skip with
      | S k => replace_go old new k s'
      | O =>
          if String.prefix old s
          then new +:+ replace_go old new (String.length old - 1) s'
          else String c (replace_go old new 0 s')
      end
  end.

Definition replace (old new s : string) : string := replace_go old new 0 s.

(** Text made of ASCII characters only: text that every encoding the
    interpreter may use for a file decodes to itself, and on which the
    interpreter's case conversions and whitespace class are the ASCII
    ones of this model. *)
Fixpoint ascii_text (s : string) : bool :=
  match s with
  | EmptyString => true
  | String c s' => (N_of_ascii c <? 128)%N && ascii_text s'
  end.

(** Python truthiness of a string *)
Definition truthy (s : string) : bool :=
  match s with EmptyString => false | _ => true end.

(** [s] between double quotes *)
Definition quoted (s : string) : string :=
  String dquote (s +:+ String dquote EmptyString).

End PyStr.

(** ** The one regular expression shape the script uses

    Both manifests are scraped with ["KEY"\s+"(.+?)"] (the key and the
    value between double quotes).  The matcher below is that expression
    specialised: the literal quoted key, one or more whitespace
    characters taken greedily, a quote, then the group: one character
    that is not a newline followed by as few such characters as
    possible up to the next quote.  No other split of the whitespace
    run can match, as a whitespace character is never a quote. *)

Module Re.
Import PyStr.

(** [\s] on ASCII text *)
Definition is_space (c : ascii) : bool :=
  let n := N_of_ascii c in
  (((9 <=? n) && (n <=? 13)) || ((28 <=? n) && (n <=? 32)))%N.

Fixpoint strip_prefix (p s : string) : option string :=
  match p with
  | EmptyString => Some s
  | String a p' =>
      match s with
      | EmptyString => None
      | String b s' => if Ascii.eqb a b then strip_prefix p' s' else None
      end
  end.

(** The greedy whitespace run: how many characters, and what follows. *)
Fixpoint skip_spaces (s : string) : nat * string :=
  match s with
  | String c s' =>
      if is_space c then let '(k, r) := skip_spaces s' in (S k, r)
      else (0, s)
  | EmptyString => (0, s)
  end.

(** The lazy tail of the group and the closing quote: the characters
    before the first quote, none of them a newline, and the number of
    characters consumed, the quote included. *)
Fixpoint lazy_to_quote (s : string) : option (string * nat) :=
  match s with
  | EmptyString => None
  | String c s' =>
      if Ascii.eqb c dquote then Some (EmptyString, 1)
      else if Ascii.eqb c newline then None
      else match lazy_to_quote s' with
           | Some (v, n) => Some (String c v, S n)
           | None => None
           end
  end.

(** A match anchored at the start of [s]: the group and the length of
    the whole match. *)
Definition match_here (key s : string) : option (string * nat) :=
  r1 ← strip_prefix (quoted key) s;
  let '(k, r2) := skip_spaces r1 in
  match k with
  | O => None
  | S _ =>
      r3 ← strip_prefix (String dquote EmptyString) r2;
      match r3 with
      | EmptyString => None
      | String c0 r4 =>
          if Ascii.eqb c0 newline then None
          else
            '(v, n) ← lazy_to_quote r4;
            Some (String c0 v, String.length key + 2 + k + 1 + 1 + n)
      end
  end.

(** [re.findall]: the groups of the successive non-overlapping matches,
    scanning left to right; [skip] counts the characters of the last
    match still to be passed over. *)
Fixpoint findall_go (key : string) (skip : nat) (s : string) : list string :=
  match s with
  | EmptyString => []
  | String _ s' =>
      match skip with
      | S k => findall_go key k s'
      | O =>
          match match_here key s with
          | Some (v, n) => v :: findall_go key (n - 1) s'
          | None => findall_go key 0 s'
          end
      end
  end.

Definition findall (key s : string) : list string := findall_go key 0 s.

(** [re.search(...)] followed by [.group(1)]: the leftmost match. *)
Fixpoint search (key s : string) : option string :=
  match s with
  | EmptyString => None
  | String _ s' =>
      match match_here key s with
      | Some (v, _) => Some v
      | None => search key s'
      end
  end.

End Re.

Import PyStr.

(** ** The fixed tables *)

(** [STATION_MAP]: archive identifier to display name, in the order the
    dictionary is written (the order its items are iterated in). *)
Definition STATION_MAP : list (string * string) :=
  [ ("RADIO_01_CLASS_ROCK", "Los Santos Rock Radio");
    ("RADIO_02_POP", "Non-Stop-Pop FM");
    ("RADIO_03_HIPHOP_NEW", "Radio Los Santos");
    ("RADIO_04_PUNK", "Channel X");
    ("RADIO_05_TALK_01", "West Coast Talk Radio");
    ("RADIO_06_COUNTRY", "Rebel Radio");
    ("RADIO_07_DANCE_01", "Soulwax FM");
    ("RADIO_08_MEXICAN", "East Los FM");
    ("RADIO_09_HIPHOP_OLD", "West Coast Classics");
    ("RADIO_11_TALK_02", "Blaine County Radio");
    ("RADIO_12_REGGAE", "The Blue Ark");
    ("RADIO_13_JAZZ", "Worldwide FM");
    ("RADIO_14_DANCE_02", "FlyLo FM");
    ("RADIO_15_MOTOWN", "The Lowdown 91.1");
    ("RADIO_16_SILVERLAKE", "Radio Mirror Park");
    ("RADIO_17_FUNK", "Space 103.2");
    ("RADIO_18_90S_ROCK", "Vinewood Boulevard Radio");
    ("RADIO_19_USER", "Self Radio");
    ("RADIO_20_THELAB", "The Lab");
    ("RADIO_21_DLC_XM17", "Blonded Los Santos 97.8 FM");
    ("RADIO_22_DLC_BATTLE_MIX1", "Los Santos Underground Radio");
    ("RADIO_23_DLC_XM19_RADIO", "iFruit Radio");
    ("RADIO_27_DLC_PRP2022_RADIO", "Motomami Los Santos") ].

Definition GTA5_APP_ID : string := "271590".

(** [STATION_MAP.keys()] *)
Definition station_keys : list string := STATION_MAP.*1.

(** [name in STATION_MAP] *)
Definition in_station_map (name : string) : bool :=
  bool_decide (name ∈ station_keys).

(** ** Paths and the file-system tree *)

Definition Path : Type := list string.

Definition is_sep (c : ascii) : bool := Ascii.eqb c "/" || Ascii.eqb c "\".

(** The pieces of a path string between separators, empty ones kept. *)
Fixpoint split_path (s : string) : list string :=
  match s with
  | EmptyString => [EmptyString]
  | String c s' =>
      if is_sep c then EmptyString :: split_path s'
      else match split_path s' with
           | x :: r => String c x :: r
           | [] => [String c EmptyString]
           end
  end.

(** [part.replace("/", "\")] *)
Definition to_backslashes : string → string :=
  map_chars (λ c, if Ascii.eqb c "/" then "\"%char else c).

Definition is_letter (c : ascii) : bool :=
  let n := N_of_ascii c in
  (((65 <=? n) && (n <=? 90)) || ((97 <=? n) && (n <=? 122)))%N.

(** What precedes the first backslash and, when there is one, what
    follows it. *)
Fixpoint break_sep (s : string) : string * option string :=
  match s with
  | EmptyString => (EmptyString, None)
  | String c s' =>
      if Ascii.eqb c "\" then (EmptyString, Some s')
      else let '(a, r) := break_sep s' in (String c a, r)
  end.

(** [s.lstrip("\")] *)
Fixpoint lstrip_sep (s : string) : string :=
  match s with
  | String c s' => if Ascii.eqb c "\" then lstrip_sep s' else s
  | EmptyString => EmptyString
  end.

(** The share of a path that begins with two backslashes and a server
    name: [\\server\share] and what follows it.  Without a share (no
    backslash after the server, or two in a row) there is none. *)
Definition unc_drive (part : string) : option (string * string) :=
  match part with
  | String c1 (String c2 r2) =>
      if Ascii.eqb c1 "\" && Ascii.eqb c2 "\" then
        match r2 with
        | String c3 _ =>
            if Ascii.eqb c3 "\" then None
            else
              match break_sep r2 with
              | (server, Some after) =>
                  match after with
                  | String c4 _ =>
                      if Ascii.eqb c4 "\" then None
                      else
                        let '(share, rest) := break_sep after in
                        Some ("\\" +:+ server +:+ "\" +:+ share,
                              default EmptyString rest)
                  | EmptyString => Some ("\\" +:+ server +:+ "\", EmptyString)
                  end
              | (_, None) => None
              end
        | EmptyString => None
        end
      else None
  | _ => None
  end.

(** [_WindowsFlavour.splitroot] (Python 3.11) on a string whose
    separators are backslashes: the drive, whether there is a root, and
    the rest.  The extended-length prefix is outside the model. *)
Definition splitroot (part : string) : string * bool * string :=
  match unc_drive part with
  | Some (drv, rest) => (drv, true, rest)
  | None =>
      let '(drv, part') :=
        match part with
        | String c1 (String c2 r) =>
            if is_letter c1 && Ascii.eqb c2 ":"
            then (String c1 (String c2 EmptyString), r)
            else (EmptyString, part)
        | _ => (EmptyString, part)
        end in
      match part' with
      | String c _ =>
          if Ascii.eqb c "\" then (drv, true, lstrip_sep part')
          else (drv, false, part')
      | EmptyString => (drv, false, part')
      end
  end.

(** The first component of an anchored path: the drive when there is a
    root ([C:] for [C:\], the share for a network path, the empty
    string for a root without a drive), the drive followed by a dot
    when there is none ([C:.] for the drive-relative [C:]). *)
Definition anchor_part (drv : string) (rooted : bool) : list string :=
  if rooted then [drv]
  else match drv with
       | EmptyString => []
       | _ => [drv +:+ "."]
       end.

(** [Path(s)]: the anchor if there is one, then the names; repeated
    separators and [.] components collapse. *)
Definition path_of_string (s : string) : Path :=
  let '(drv, rooted, rel) := splitroot (to_backslashes s) in
  anchor_part drv rooted
  ++ filter (λ x, x ≠ EmptyString ∧ x ≠ ".") (split_path rel).

(** [p / s] for a right operand without a drive or a root: the names a
    file system hands out and the fixed names of the script. *)
Definition joinpath (p : Path) (s : string) : Path := p ++ path_of_string s.

Infix "//" := joinpath (at level 40, left associativity).

Definition is_drive (a : string) : bool :=
  match a with
  | String c (String ":" EmptyString) => is_letter c
  | _ => false
  end.

Definition is_drive_only (a : string) : bool :=
  match a with
  | String c (String ":" (String "." EmptyString)) => is_letter c
  | _ => false
  end.

(** The drive and the root a path carries, if any, and its names. *)
Definition anchor_of (p : Path) : option (string * bool) * list string :=
  match p with
  | a :: names =>
      if String.eqb a EmptyString then (Some (EmptyString, true), names)
      else if is_drive a then (Some (a, true), names)
      else if is_drive_only a then (Some (String.substring 0 2 a, false), names)
      else if String.prefix "\\" a then (Some (a, true), names)
      else (None, p)
  | [] => (None, [])
  end.

(** [p / s] for any right operand ([join_parsed_parts], Python 3.11):
    a root without a drive keeps the drive of [p] and drops its names;
    a drive other than that of [p], or a drive with a root, replaces
    [p]; the same drive without a root, or no anchor at all, appends
    the names. *)
Definition joinpath_any (p : Path) (s : string) : Path :=
  let q := path_of_string s in
  match anchor_of q with
  | (None, names2) => p ++ names2
  | (Some (drv2, true), names2) =>
      match drv2, anchor_of p with
      | EmptyString, (Some (String c d, _), _) => String c d :: names2
      | _, _ => q
      end
  | (Some (drv2, false), names2) =>
      match anchor_of p with
      | (Some (drv1, _), _) =>
          if String.eqb (lower drv2) (lower drv1) then p ++ names2 else q
      | (None, _) => q
      end
  end.

(** [str(p)] *)
Definition str_path (p : Path) : string := String.concat "\" p.

#[local] Set Warnings "-register-all".

Inductive node : Type :=
  | File (content : string)
  | Dir (entries : list (string * node)).

(** The first entry called [name]. *)
Fixpoint assoc (name : string) (es : list (string * node)) : option node :=
  match es with
  | [] => None
  | (k, v) :: es' => if String.eqb k name then Some v else assoc name es'
  end.

(** Replace the first entry called [name], or add one at the end. *)
Fixpoint set_entry (name : string) (v : node) (es : list (string * node))
  : list (string * node) :=
  match es with
  | [] => [(name, v)]
  | (k, w) :: es' =>
      if String.eqb k name then (k, v) :: es' else (k, w) :: set_entry name v es'
  end.

(** Remove every entry called [name]. *)
Fixpoint del_entry (name : string) (es : list (string * node))
  : list (string * node) :=
  match es with
  | [] => []
  | (k, w) :: es' =>
      if String.eqb k name then del_entry name es' else (k, w) :: del_entry name es'
  end.

Fixpoint lookup_path (p : Path) (n : node) : option node :=
  match p with
  | [] => Some n
  | c :: p' =>
      match n with
      | Dir es => match assoc c es with Some ch => lookup_path p' ch | None => None end
      | File _ => None
      end
  end.

(** [p.exists()], [p.is_dir()] *)
Definition path_exists (p : Path) (t : node) : bool :=
  match lookup_path p t with Some _ => true | None => false end.

Definition path_is_dir (p : Path) (t : node) : bool :=
  match lookup_path p t with Some (Dir _) => true | _ => false end.

(** *** A path as the operating system resolves it

    The tree above is looked up name by name, exactly as spelled: this
    is what the script gets for the paths it builds from the names the
    file system gave it.  A path that comes from outside (the registry,
    a manifest) is resolved by Windows: names are compared without
    regard to the case of ASCII letters, and [..] components are taken
    off lexically before the disk is consulted, stopping at a root.  A
    relative path that climbs above the current directory, which is the
    root of the modelled tree, finds nothing. *)

Fixpoint assoc_nocase (name : string) (es : list (string * node)) : option node :=
  match es with
  | [] => None
  | (k, v) :: es' =>
      if String.eqb (lower k) (lower name) then Some v else assoc_nocase name es'
  end.

Fixpoint lookup_nocase (p : Path) (n : node) : option node :=
  match p with
  | [] => Some n
  | c :: p' =>
      match n with
      | Dir es =>
          match assoc_nocase c es with
          | Some ch => lookup_nocase p' ch
          | None => None
          end
      | File _ => None
      end
  end.

(** [seen] holds the names passed so far, last first; at the [floor] of
    a rooted path a [..] stays where it is. *)
Fixpoint resolve_dots (floor : bool) (seen : list string) (p : Path)
  : option Path :=
  match p with
  | [] => Some (rev seen)
  | c :: p' =>
      if String.eqb c ".." then
        match seen with
        | _ :: seen' => resolve_dots floor seen' p'
        | [] => if floor then resolve_dots floor [] p' else None
        end
      else resolve_dots floor (c :: seen) p'
  end.

Definition lookup_win (p : Path) (t : node) : option node :=
  match anchor_of p, p with
  | (Some (_, rooted), names), a :: _ =>
      names' ← resolve_dots rooted [] names; lookup_nocase (a :: names') t
  | _, _ => p' ← resolve_dots false [] p; lookup_nocase p' t
  end.

(** Rewrite the slot a path names.  [f] receives what is there ([None]
    when nothing is) and answers [None] to refuse, [Some None] to leave
    the slot empty, [Some (Some v)] to fill it.  Every directory on the
    way must exist. *)
Fixpoint update_slot (p : Path) (f : option node → option (option node))
    (o : option node) : option (option node) :=
  match p with
  | [] => f o
  | c :: p' =>
      match o with
      | Some (Dir es) =>
          match update_slot p' f (assoc c es) with
          | Some (Some v) => Some (Some (Dir (set_entry c v es)))
          | Some None => Some (Some (Dir (del_entry c es)))
          | None => None
          end
      | _ => None
      end
  end.

Definition update_path (p : Path) (f : option node → option (option node))
    (t : node) : option node :=
  match update_slot p f (Some t) with
  | Some (Some t') => Some t'
  | _ => None
  end.

(** Writing a file as [open(p, "w")] or a tool does: the parent must be a
    directory and [p] itself must not be one. *)
Definition write_file (p : Path) (c : string) (t : node) : option node :=
  update_path p (λ o, match o with
                      | Some (Dir _) => None
                      | _ => Some (Some (File c))
                      end) t.

(** Whatever a tool leaves at its output path replaces what was there. *)
Definition put_node (p : Path) (v : node) (t : node) : option node :=
  update_path p (λ _, Some (Some v)) t.

(** [shutil.rmtree(p)]: [p] must be a directory. *)
Definition rmtree (p : Path) (t : node) : option node :=
  update_path p (λ o, match o with
                      | Some (Dir _) => Some None
                      | _ => None
                      end) t.

(** The slot after [mkdir -p]: missing directories are created on the
    way, a file on the way or at the end refuses. *)
Fixpoint mkdir_slot (p : Path) (o : option node) : option node :=
  match p with
  | [] =>
      match o with
      | Some (File _) => None
      | Some (Dir es) => Some (Dir es)
      | None => Some (Dir [])
      end
  | c :: p' =>
      match o with
      | Some (File _) => None
      | Some (Dir es) =>
          match mkdir_slot p' (assoc c es) with
          | Some ch => Some (Dir (set_entry c ch es))
          | None => None
          end
      | None =>
          match mkdir_slot p' None with
          | Some ch => Some (Dir [(c, ch)])
          | None => None
          end
      end
  end.

(** [p.mkdir(parents=..., exist_ok=...)]; [None] is the [OSError]. *)
Definition mkdir_fs (parents exist_ok : bool) (p : Path) (t : node) : option node :=
  match lookup_path p t with
  | Some (Dir _) => if exist_ok then Some t else None
  | Some (File _) => None
  | None =>
      if parents then mkdir_slot p (Some t)
      else update_path p (λ _, Some (Some (Dir []))) t
  end.

Definition is_dir_node (n : node) : bool :=
  match n with Dir _ => true | File _ => false end.

(** [os.walk(top)] top-down: each directory with the names of its
    sub-directories and of its other entries, then its sub-directories
    in turn.  A [top] that is not a directory yields nothing. *)
Fixpoint walk_node (root : Path) (n : node)
  : list (Path * list string * list string) :=
  match n with
  | File _ => []
  | Dir es =>
      (root, (filter (λ e, is_dir_node e.2) es).*1,
             (filter (λ e, ¬ is_dir_node e.2) es).*1)
      :: flat_map (λ e, walk_node (root ++ [e.1]) e.2) es
  end.

Definition os_walk (top : Path) (t : node)
  : list (Path * list string * list string) :=
  match lookup_path top t with
  | Some n => walk_node top n
  | None => []
  end.

(** [p.iterdir()]: the children of a directory; [None] is the [OSError]
    raised for anything else. *)
Definition iterdir_fs (p : Path) (t : node) : option (list Path) :=
  match lookup_path p t with
  | Some (Dir es) => Some (map (λ e, p ++ [e.1]) es)
  | _ => None
  end.

(** [p.name] *)
Definition path_name (p : Path) : string := default EmptyString (last p).

(** ** Effects: a world, exceptions, a trace *)

(** The two exception classes the handlers tell apart: the [OSError]
    family (a path operation or a process launch that fails) and
    [subprocess.CalledProcessError] (a process that exits non-zero under
    [check=True]).  Both are caught by [except Exception]. *)
Inductive exn : Type := OSError | CalledProcessError.

Inductive outcome (A : Type) : Type :=
  | Ret (a : A)
  | Raise (e : exn).
Arguments Ret {A} a.
Arguments Raise {A} e.

(** What a run does to the outside, in order: console lines, the
    directories and files the script itself makes or removes, and the
    command lines [exe -o out inp] it starts. *)
Inductive event : Type :=
  | EvPrint (text : string)
  | EvMkdir (p : Path)
  | EvWrite (p : Path) (content : string)
  | EvRmtree (p : Path)
  | EvRun (exe : string) (out inp : Path).

Record World : Type := mkWorld { fs : node; trace : list event }.

Definition M (A : Type) : Type := World → outcome A * World.

Definition ret {A} (a : A) : M A := λ w, (Ret a, w).

Definition raise {A} (e : exn) : M A := λ w, (Raise e, w).

Definition bind {A B} (c : M A) (k : A → M B) : M B :=
  λ w, match c w with
       | (Ret a, w') => k a w'
       | (Raise e, w') => (Raise e, w')
       end.

Notation "'let*' x ':=' c 'in' k" := (bind c (λ x, k))
  (at level 10, x pattern, c at level 100, k at level 200).
Notation "c ';;' k" := (bind c (λ _, k))
  (at level 100, k at level 200, right associativity).

(** [try: body except ...: handler] *)
Definition try_except {A} (body : M A) (handler : exn → M A) : M A :=
  λ w, match body w with
       | (Ret a, w') => (Ret a, w')
       | (Raise e, w') => handler e w'
       end.

Definition emit (e : event) : M unit :=
  λ w, (Ret tt, mkWorld (fs w) (trace w ++ [e])).

Definition print (text : string) : M unit := emit (EvPrint text).

Definition get_fs : M node := λ w, (Ret (fs w), w).

Definition set_fs (t : node) : M unit := λ w, (Ret tt, mkWorld t (trace w)).

(** A path operation that either changes the tree or raises [OSError]. *)
Definition fs_op (f : node → option node) (e : event) : M unit :=
  let* t := get_fs in
  match f t with
  | Some t' => set_fs t';; emit e
  | None => raise OSError
  end.

Definition exists_ (p : Path) : M bool :=
  let* t := get_fs in ret (path_exists p t).

Definition is_dir (p : Path) : M bool :=
  let* t := get_fs in ret (path_is_dir p t).

Definition mkdir (parents exist_ok : bool) (p : Path) : M unit :=
  let* t := get_fs in
  match mkdir_fs parents exist_ok p t with
  | Some t' => set_fs t';; (if path_exists p t then ret tt else emit (EvMkdir p))
  | None => raise OSError
  end.

Definition shutil_rmtree (p : Path) : M unit := fs_op (rmtree p) (EvRmtree p).

(** [open(p, "w")] and one write *)
Definition write_text (p : Path) (c : string) : M unit :=
  fs_op (write_file p c) (EvWrite p c).

(** [open(p, "r").read()] *)
Definition read_text (p : Path) : M string :=
  let* t := get_fs in
  match lookup_path p t with
  | Some (File c) => ret c
  | _ => raise OSError
  end.

(** [p.exists()] and [open(p, "r").read()] for a path that comes from
    outside. *)
Definition exists_win (p : Path) : M bool :=
  let* t := get_fs in
  ret (match lookup_win p t with Some _ => true | None => false end).

Definition read_text_win (p : Path) : M string :=
  let* t := get_fs in
  match lookup_win p t with
  | Some (File c) => ret c
  | _ => raise OSError
  end.

(** [p.exists()] when examining the path can fail: [Path.exists]
    (Python 3.11) answers [False] for a path that is not there and
    lets every other [OSError] of the underlying [stat] through, access
    denied for one.  [denied p] says that examining [p] fails so. *)
Definition exists_stat (denied : Path → bool) (p : Path) : M bool :=
  if denied p then raise OSError else exists_win p.

Definition iterdir (p : Path) : M (list Path) :=
  let* t := get_fs in
  match iterdir_fs p t with
  | Some l => ret l
  | None => raise OSError
  end.

(** [for x in xs: body] without [break] *)
Fixpoint for_each {A} (xs : list A) (body : A → M unit) : M unit :=
  match xs with
  | [] => ret tt
  | x :: xs' => body x;; for_each xs' body
  end.

(** [for x in xs: ...] whose body answers whether it executed [break];
    the result says whether the loop was left that way. *)
Fixpoint for_break {A} (xs : list A) (body : A → M bool) : M bool :=
  match xs with
  | [] => ret false
  | x :: xs' =>
      let* stop := body x in
      if stop then ret true else for_break xs' body
  end.

(** ** External processes *)

Inductive proc_result : Type :=
  | LaunchFailed
  | Exited (code : Z) (produced : option node).

(** What a finished process left at its output path takes the place of
    what was there, except that a file cannot take the place of a
    directory; without a parent directory nothing is left. *)
Definition tool_leaves (out : Path) (v : node) (t : node) : node :=
  default t
    (update_path out
       (λ o, match o, v with
             | Some (Dir _), File _ => None
             | _, _ => Some (Some v)
             end) t).

(** ** The script *)

(** The parsed command line ([parse_args]): [--input], [--output],
    [--vgmstream], [--rpf-cli], [--auto-detect]. *)
Record Args : Type := mkArgs {
  input : option string;
  output : string;
  vgmstream : string;
  rpf_cli : option string;
  auto_detect : bool
}.

(** Python truthiness of an optional string: [None] and the empty string
    are false. *)
Definition truthy_opt (o : option string) : option string :=
  match o with
  | Some s => if truthy s then Some s else None
  | None => None
  end.

(** The text [json.dump(info, f, indent=4)] writes. *)
Definition station_info_json : string :=
  "{" +:+ String newline ("    " +:+ quoted "generation" +:+ ": 5,"
  +:+ String newline ("    " +:+ quoted "name" +:+ ": " +:+ quoted "Grand Theft Auto V"
  +:+ String newline "}")).

(** What [WindowsPath] equality and hashing look at: the components
    in lower case. *)
Definition path_key (p : Path) : Path := map lower p.

(** [list(set(l))]: one path for each class of equal paths, the first
    of [l] in its class (a set keeps the element it has when an equal
    one is added), in the order the set hands them out. *)
Definition list_of_set (l : list Path) : list Path :=
  omap (λ k, List.find (λ p, bool_decide (path_key p = k)) l)
    (elements (list_to_set (map path_key l) : gset Path)).

Section Script.

(** The [SteamPath] value under the package manager's registry key,
    [None] when the key or the value cannot be read. *)
Variable registry_SteamPath : option string.

(** The command [exe -o out inp] run to completion. *)
Variable run_tool : string → Path → Path → proc_result.

(** [subprocess.run([exe, "-o", out, inp], check=True, ...)] *)
Definition subprocess_run (exe : string) (out inp : Path) : M unit :=
  emit (EvRun exe out inp);;
  match run_tool exe out inp with
  | LaunchFailed => raise OSError
  | Exited code produced =>
      (match produced with
       | Some v => let* t := get_fs in set_fs (tool_leaves out v t)
       | None => ret tt
       end);;
      if (code =? 0)%Z then ret tt else raise CalledProcessError
  end.

Definition get_steam_path : M (option Path) :=
  try_except
    (match registry_SteamPath with
     | Some steam_path => ret (Some (path_of_string steam_path))
     | None => raise OSError
     end)
    (λ _, print "Could not find Steam path in registry";; ret None).

(** [examine] is the existence test of the run. *)
Definition parse_library_folders_with (examine : Path → M bool)
    (steam_path : Path) : M (list Path) :=
  let library_folders := [steam_path] in
  let vdf_path := steam_path // "steamapps" // "libraryfolders.vdf" in
  let* e := examine vdf_path in
  if negb e then ret library_folders
  else
    let* library_folders :=
      try_except
        (let* content := read_text_win vdf_path in
         let matches := Re.findall "path" content in
         ret (library_folders
              ++ map (λ m, path_of_string (replace "\\" "\" m)) matches))
        (λ _, print "Error parsing libraryfolders.vdf";; ret library_folders) in
    ret (list_of_set library_folders).

(** The same on a disk every path of which can be examined. *)
Definition parse_library_folders : Path → M (list Path) :=
  parse_library_folders_with exists_win.

(** One turn of the loop of [find_gta5_install]: the installation this
    library folder holds, if any.  [examine] is the existence test of
    the run. *)
Definition gta5_in_library_with (examine : Path → M bool) (lib : Path)
  : M (option Path) :=
  let app_manifest :=
    lib // "steamapps" // ("appmanifest_" +:+ GTA5_APP_ID +:+ ".acf") in
  let* e := examine app_manifest in
  if e then
    try_except
      (let* content := read_text_win app_manifest in
       match Re.search "installdir" content with
       | Some install_dir_name =>
           let game_path :=
             joinpath_any (lib // "steamapps" // "common") install_dir_name in
           let* e := examine game_path in
           if e then ret (Some game_path) else ret None
       | None => ret None
       end)
      (λ _, print ("Error reading manifest " +:+ str_path app_manifest);;
            ret None)
  else ret None.

Fixpoint find_gta5_install_with (examine : Path → M bool)
    (library_folders : list Path) : M (option Path) :=
  match library_folders with
  | [] => ret None
  | lib :: rest =>
      let* r := gta5_in_library_with examine lib in
      match r with
      | Some game_path => ret (Some game_path)
      | None => find_gta5_install_with examine rest
      end
  end.

(** The two on a disk every path of which can be examined. *)
Definition gta5_in_library : Path → M (option Path) :=
  gta5_in_library_with exists_win.

Definition find_gta5_install : list Path → M (option Path) :=
  find_gta5_install_with exists_win.

Definition extract_rpf (rpf_cli_path : string) (rpf_file output_dir : Path)
  : M bool :=
  try_except
    (print ("Extracting " +:+ path_name rpf_file +:+ "...");;
     subprocess_run rpf_cli_path output_dir rpf_file;;
     ret true)
    (λ e, match e with
          | CalledProcessError =>
              print ("Failed to extract: " +:+ str_path rpf_file);; ret false
          | _ => print "Error running rpf-cli";; ret false
          end).

Definition convert_awc (vgmstream_path : string) (input_path output_path : Path)
  : M bool :=
  try_except
    (subprocess_run vgmstream_path output_path input_path;;
     ret true)
    (λ e, match e with
          | CalledProcessError =>
              print ("Failed to convert: " +:+ str_path input_path);; ret false
          | _ => raise e
          end).

Definition create_station_info (output_dir : Path) (station_name : string)
  : M unit :=
  let info := station_info_json in
  let group_dir := output_dir in
  let info_path := group_dir // "stationGroupInfo.json" in
  let* e := exists_ info_path in
  if negb e then write_text info_path info else ret tt.

(** The name the converted file gets. *)
Definition output_filename (file : string) : string :=
  replace ".AWC" ".wav" (replace ".awc" ".wav" file).

(** The test that selects the files to convert. *)
Definition is_awc (file : string) : bool := endswith (lower file) ".awc".

(** The body of the inner loop of [process_station_folder]. *)
Definition process_file (vgmstream_path : string) (songs_output_dir root : Path)
    (file : string) : M unit :=
  if is_awc file then
    let awc_path := root // file in
    let output_wav_path := songs_output_dir // output_filename file in
    convert_awc vgmstream_path awc_path output_wav_path;; ret tt
  else ret tt.

(** [os.walk] lists a directory when it reaches it; the model takes
    the whole listing when the walk starts.  The two agree as long as
    the output tree does not lie inside the folder being walked. *)
Definition process_station_folder (vgmstream_path : string)
    (station_folder_path output_dir : Path) (station_name : string) : M unit :=
  print ("Processing " +:+ station_name +:+ " from "
         +:+ str_path station_folder_path +:+ "...");;
  let station_output_dir := output_dir // station_name in
  let songs_output_dir := station_output_dir // "Songs" in
  mkdir true true station_output_dir;;
  mkdir true true songs_output_dir;;
  let* t := get_fs in
  for_each (os_walk station_folder_path t)
    (λ '(root, dirs, files),
       for_each files (process_file vgmstream_path songs_output_dir root)).

(** *** [main], in the order of its text *)

Definition temp_gta5_extraction : Path := path_of_string "temp_gta5_extraction".

(** The set-up every run starts with: the group directory and its
    metadata file. *)
Definition setup_output (output_dir : Path) : M unit :=
  let* e := exists_ output_dir in
  (if negb e then mkdir true false output_dir else ret tt);;
  create_station_info output_dir "Grand Theft Auto V".

(** The loop over the base-game archives. *)
Definition extract_base (rpf_cli_path : string) (gta5_path temp_extract_dir : Path)
  : M unit :=
  let base_sfx_path := gta5_path // "x64" // "audio" // "sfx" in
  let* e := exists_ base_sfx_path in
  if e then
    for_each station_keys
      (λ rpf_name,
         let rpf_file := base_sfx_path // (rpf_name +:+ ".rpf") in
         let* e := exists_ rpf_file in
         if e then
           let extract_to := temp_extract_dir // rpf_name in
           extract_rpf rpf_cli_path rpf_file extract_to;; ret tt
         else ret tt)
  else ret tt.

(** The body of the inner loop of the expansion-pack scan. *)
Definition extract_dlc_file (rpf_cli_path : string) (temp_extract_dir root : Path)
    (file : string) : M unit :=
  if startswith (upper file) "RADIO_" && endswith (lower file) ".rpf" then
    let rpf_name_no_ext := upper (drop_last 4 file) in
    if in_station_map rpf_name_no_ext then
      let rpf_file := root // file in
      let extract_to := temp_extract_dir // rpf_name_no_ext in
      let* e := exists_ extract_to in
      if negb e then extract_rpf rpf_cli_path rpf_file extract_to;; ret tt
      else ret tt
    else ret tt
  else ret tt.

(** The expansion-pack scan over a directory listing. *)
Definition extract_dlc_walk (rpf_cli_path : string) (temp_extract_dir : Path)
    (walk : list (Path * list string * list string)) : M unit :=
  for_each walk
    (λ '(root, dirs, files),
       for_each files (extract_dlc_file rpf_cli_path temp_extract_dir root)).

(** The listing is taken when the walk starts: the loop body changes
    the tree only under the temporary directory, which is not below
    the expansion-pack root. *)
Definition extract_dlc (rpf_cli_path : string) (gta5_path temp_extract_dir : Path)
  : M unit :=
  let dlc_root := gta5_path // "update" // "x64" // "dlcpacks" in
  let* e := exists_ dlc_root in
  if e then
    let* t := get_fs in
    extract_dlc_walk rpf_cli_path temp_extract_dir (os_walk dlc_root t)
  else ret tt.

(** Where the station folders come from: the input directory and the
    temporary directory if one was made, or [None] where [main]
    returns early. *)
Definition resolve_input (args : Args) : M (option (Path * option Path)) :=
  let rpf_cli_path := rpf_cli args in
  match truthy_opt (input args) with
  | Some i => ret (Some (path_of_string i, None))
  | None =>
      if auto_detect args then
        print "Attempting to auto-detect GTA V installation...";;
        let* steam_path := get_steam_path in
        match steam_path with
        | Some steam_path =>
            print ("Steam found at: " +:+ str_path steam_path);;
            let* libs := parse_library_folders steam_path in
            let* gta5_path := find_gta5_install libs in
            match gta5_path with
            | Some gta5_path =>
                print ("GTA V found at: " +:+ str_path gta5_path);;
                match truthy_opt rpf_cli_path with
                | None =>
                    print "Error: --rpf-cli is required for automatic extraction.";;
                    ret None
                | Some rpf_cli_path =>
                    let temp_extract_dir := temp_gta5_extraction in
                    let* e := exists_ temp_extract_dir in
                    (if e then shutil_rmtree temp_extract_dir else ret tt);;
                    mkdir false false temp_extract_dir;;
                    print "Scanning for radio RPFs...";;
                    extract_base rpf_cli_path gta5_path temp_extract_dir;;
                    extract_dlc rpf_cli_path gta5_path temp_extract_dir;;
                    ret (Some (temp_extract_dir, Some temp_extract_dir))
                end
            | None =>
                print "GTA V installation not found in Steam libraries.";;
                ret None
            end
        | None => print "Steam installation not found.";; ret None
        end
      else
        print "Error: Please provide --input or use --auto-detect.";;
        ret None
  end.

(** One of the two loops over [input_dir.iterdir()]: the first
    directory whose name, in upper case, is [pattern] is processed and
    ends the loop. *)
Definition match_station (vgmstream_path : string) (input_dir output_dir : Path)
    (station_name pattern : string) : M bool :=
  let* items := iterdir input_dir in
  for_break items
    (λ item,
       let* d := is_dir item in
       if d && String.eqb (upper (path_name item)) pattern then
         process_station_folder vgmstream_path item output_dir station_name;;
         ret true
       else ret false).

(** The body of the loop over [STATION_MAP.items()]. *)
Definition organize_station (vgmstream_path : string) (input_dir output_dir : Path)
    (entry : string * string) : M unit :=
  let '(rpf_name, station_name) := entry in
  let* found :=
    match_station vgmstream_path input_dir output_dir station_name
      (upper rpf_name) in
  if negb found then
    match_station vgmstream_path input_dir output_dir station_name
      (upper (rpf_name +:+ ".RPF"));;
    ret tt
  else ret tt.

Definition organize (vgmstream_path : string) (input_dir output_dir : Path)
  : M unit :=
  for_each STATION_MAP (organize_station vgmstream_path input_dir output_dir).

Definition cleanup (temp_extract_dir : option Path) : M unit :=
  match temp_extract_dir with
  | Some temp_extract_dir =>
      let* e := exists_ temp_extract_dir in
      if e then
        print "Cleaning up temporary files...";;
        shutil_rmtree temp_extract_dir
      else ret tt
  | None => ret tt
  end.

(** What [main] does once the source of the station folders is
    settled: nothing after an early return, otherwise the check of the
    input directory, the organizing loop, the clean-up and the closing
    messages. *)
Definition organize_and_finish (vgmstream_path : string) (output_dir : Path)
    (src : option (Path * option Path)) : M unit :=
  match src with
  | None => ret tt
  | Some (input_dir, temp_extract_dir) =>
      let* e := exists_ input_dir in
      if negb e then
        print "Input directory not found or extraction failed.";; ret tt
      else
        organize vgmstream_path input_dir output_dir;;
        cleanup temp_extract_dir;;
        print ("Done! Files organized in " +:+ str_path output_dir);;
        print "Note: You may need to manually sort DJ chatter, News, and Adverts into their respective folders if you want full Gen5 functionality.";;
        print "Currently, all converted audio is placed in the 'Songs' folder."
  end.

Definition main (args : Args) : M unit :=
  let output_dir := path_of_string (output args) // "Grand Theft Auto V" in
  let vgmstream_path := vgmstream args in
  setup_output output_dir;;
  let* src := resolve_input args in
  organize_and_finish vgmstream_path output_dir src.

End Script.

(** ** Concrete worlds used by the examples and the witnesses *)

Module Sample.

(** The manifest line of the library-folders example: the key, two
    tabs, the value with its backslashes doubled. *)
Definition vdf_text : string :=
  quoted "path" +:+ String tab (String tab (quoted "C:\\Games\\SteamLib")).

Definition acf_text : string :=
  quoted "installdir" +:+ String tab (String tab (quoted "MyGame")).

Definition steam_root : Path := ["C:"; "Steam"].

(** A manifest that lists the package manager's own root first, as
    the package manager writes it, then one more library. *)
Definition vdf_usual : string :=
  quoted "path" +:+ String tab (String tab (quoted "C:\\Steam"))
  +:+ String newline
      (quoted "path" +:+ String tab (String tab (quoted "C:\\Games\\SteamLib"))).

(** A manifest whose value is a network share. *)
Definition vdf_share : string :=
  quoted "path" +:+ String tab (String tab (quoted "\\\\nas\\games")).

(** A station folder with the same track name in two places. *)
Definition station_folder : node :=
  Dir [ ("track1.AWC", File "a1"); ("track2.awc", File "a2");
        ("notes.txt", File "n");
        ("disc2", Dir [("track2.awc", File "b2")]) ].

(** The folder of the organizer's example. *)
Definition three_files : node :=
  Dir [ ("track1.AWC", File "a1"); ("track2.awc", File "a2");
        ("notes.txt", File "n") ].

Definition game_dir : node :=
  Dir [ ("x64", Dir [("audio", Dir [("sfx",
           Dir [("RADIO_01_CLASS_ROCK.rpf", File "r1")])])]);
        ("update", Dir [("x64", Dir [("dlcpacks",
           Dir [ ("packA", Dir [("radio_21_dlc_xm17.rpf", File "r21a")]);
                 ("packB", Dir [("RADIO_21_DLC_XM17.RPF", File "r21b");
                                ("RADIO_99_NONE.rpf", File "r99")]) ])])]) ].

(** The drive: the package manager at [C:\Steam], one more library at
    [C:\Games\SteamLib] holding the game. *)
Definition c_drive : node :=
  Dir [ ("Steam", Dir [("steamapps", Dir [("libraryfolders.vdf", File vdf_text)])]);
        ("Games", Dir [("SteamLib", Dir [("steamapps", Dir [
           ("appmanifest_271590.acf", File acf_text);
           ("common", Dir [("MyGame", game_dir)]) ])])]) ].

Definition disk : node := Dir [("C:", c_drive)].

(** The same drive with the manifest [vdf_usual]. *)
Definition disk_usual : node :=
  Dir [("C:",
    Dir [ ("Steam", Dir [("steamapps", Dir [("libraryfolders.vdf", File vdf_usual)])]);
          ("Games", Dir [("SteamLib", Dir [("steamapps", Dir [
             ("appmanifest_271590.acf", File acf_text);
             ("common", Dir [("MyGame", game_dir)]) ])])]) ])].

(** The same disk with a regular file where the first station's output
    directory would go. *)
Definition disk_blocked : node :=
  Dir [ ("C:", c_drive);
        ("out", Dir [("Grand Theft Auto V",
           Dir [("Los Santos Rock Radio", File "in the way")])]) ].

(** The same disk once the empty temporary directory is made. *)
Definition disk_temp : node :=
  Dir [ ("C:", c_drive); ("temp_gta5_extraction", Dir []) ].

Definition dlc_root : Path :=
  ["C:"; "Games"; "SteamLib"; "steamapps"; "common"; "MyGame";
   "update"; "x64"; "dlcpacks"].

(** A disk holding already extracted station folders. *)
Definition disk_input : node :=
  Dir [ ("in", Dir [ ("radio_01_class_rock", station_folder);
                     ("RADIO_02_POP.rpf", Dir [("pop.Awc", File "p")]);
                     ("RADIO_04_PUNK", File "not a folder") ]) ].

(** The same disk once the directories of the first station are
    made. *)
Definition disk_input_made : node :=
  Dir [ ("in", Dir [ ("radio_01_class_rock", station_folder);
                     ("RADIO_02_POP.rpf", Dir [("pop.Awc", File "p")]);
                     ("RADIO_04_PUNK", File "not a folder") ]);
        ("out", Dir [("Grand Theft Auto V",
           Dir [("Los Santos Rock Radio", Dir [("Songs", Dir [])])])]) ].

(** An extractor [rpf] that fails on the lower-case archive and leaves
    nothing, and unpacks any other archive into [station_folder]; a
    transcoder [vgm] that writes a file naming its input; nothing else
    can be launched. *)
Definition tools (exe : string) (out inp : Path) : proc_result :=
  if String.eqb exe "rpf" then
    if String.eqb (path_name inp) "radio_21_dlc_xm17.rpf" then Exited 1 None
    else Exited 0 (Some station_folder)
  else if String.eqb exe "vgm" then
    Exited 0 (Some (File ("wav of " +:+ str_path inp)))
  else LaunchFailed.

Definition auto_args : Args :=
  mkArgs None "out" "vgm" (Some "rpf") true.

Definition input_args : Args :=
  mkArgs (Some "in") "out" "vgm" None false.

Definition disk_three : node := Dir [("in", Dir [("RADIO_02_POP", three_files)])].

(** An output tree of an earlier run next to the input. *)
Definition disk_rerun : node :=
  Dir [ ("in", Dir [("RADIO_02_POP", three_files)]);
        ("out", Dir [("Grand Theft Auto V",
           Dir [("stationGroupInfo.json", File "kept as it is")])]) ].

(** The drive with an output tree of an earlier run inside the
    temporary directory. *)
Definition disk_inside_temp : node :=
  Dir [ ("C:", c_drive);
        ("temp_gta5_extraction", Dir [("Grand Theft Auto V",
           Dir [("stationGroupInfo.json", File "kept as it is")])]) ].

(** The drive next to a directory of the user's. *)
Definition disk_kept : node :=
  Dir [ ("C:", c_drive); ("kept", Dir [("notes.txt", File "mine")]) ].

Definition no_source_args : Args :=
  mkArgs None "out" "vgm" None false.

End Sample.

(** * The vocabulary of the statements *)

(** What a path names below a slot that may be empty. *)
Definition slot_at (p : Path) (o : option node) : option node :=
  o ≫= lookup_path p.

(** Paths that part ways below a common prefix. *)
Definition diverge (p q : Path) : Prop :=
  ∃ pre a p' b q', p = pre ++ a :: p' ∧ q = pre ++ b :: q' ∧ a ≠ b.

(** The paths the manifest text [content] adds to the root: one for
    each value found after a quoted [path] key, with every doubled
    backslash of the value made single. *)
Definition listed_folders (content : string) : list Path :=
  map (λ m, path_of_string (replace "\\" "\" m)) (Re.findall "path" content).

(** [l] is [found] without its duplicates, two paths being the same
    when they are equal as [WindowsPath]s: every member of [l] is one of
    [found], every one of [found] is equal to a member of [l], and no
    two members of [l] are equal. *)
Definition deduplicated (found l : list Path) : Prop :=
  (∀ p, p ∈ l → p ∈ found)
  ∧ (∀ p, p ∈ found → ∃ q, q ∈ l ∧ path_key q = path_key p)
  ∧ NoDup (map path_key l).

(** The application manifest of a library folder and the candidate
    installation path for an [installdir] value. *)
Definition app_manifest_of (lib : Path) : Path :=
  lib // "steamapps" // ("appmanifest_" +:+ GTA5_APP_ID +:+ ".acf").

Definition candidate (lib : Path) (install_dir_name : string) : Path :=
  joinpath_any (lib // "steamapps" // "common") install_dir_name.

(** The [installdir] value the manifest of [lib] gives: none when the
    manifest is missing, cannot be read or holds no such value. *)
Definition installdir_of (t : node) (lib : Path) : option string :=
  match lookup_win (app_manifest_of lib) t with
  | Some (File content) => Re.search "installdir" content
  | _ => None
  end.

(** The installation a library folder yields: the candidate its
    manifest names, when it can be examined and exists. *)
Definition found_in (denied : Path → bool) (t : node) (lib : Path) : option Path :=
  match installdir_of t lib with
  | Some v =>
      if denied (candidate lib v) then None
      else match lookup_win (candidate lib v) t with
           | Some _ => Some (candidate lib v)
           | None => None
           end
  | None => None
  end.

(** Every character of [s] is whitespace. *)
Fixpoint all_space (s : string) : bool :=
  match s with
  | EmptyString => true
  | String c s' => Re.is_space c && all_space s'
  end.

(** The first item that is a directory and whose name in upper case is
    [pattern]. *)
Definition dir_named (t : node) (items : list Path) (pattern : string)
  : option Path :=
  List.find (λ item, path_is_dir item t && String.eqb (upper (path_name item)) pattern)
    items.

(** [keeps R c]: whatever [c] does and however it ends, the world it
    leaves is related by [R] to the one it started in. *)
Definition keeps (R : relation World) {A} (c : M A) : Prop :=
  ∀ w r w', c w = (r, w') → R w w'.

(** [w'] continues the trace of [w] with events that all satisfy [P]. *)
Definition emits (P : event → Prop) : relation World :=
  λ w w', ∃ new, trace w' = trace w ++ new ∧ Forall P new.

(** [w'] agrees with [w] at every path of [S]. *)
Definition frame (S : Path → Prop) : relation World :=
  λ w w', ∀ p, S p → lookup_path p (fs w') = lookup_path p (fs w).

(** If [p] is the file with content [c] in [w], it still is in [w']. *)
Definition file_stays (p : Path) (c : string) : relation World :=
  λ w w', lookup_path p (fs w) = Some (File c) →
          lookup_path p (fs w') = Some (File c).

(** An event that is not the writing of a file by the script. *)
Definition not_write (e : event) : Prop := ∀ p c, e ≠ EvWrite p c.

(** A character of a name that the system reads as it is written: a
    printable ASCII character other than a separator, a colon, a
    wildcard, a quote, an angle bracket, a bar and a tilde. *)
Definition plain_char (c : ascii) : bool :=
  let n := N_of_ascii c in
  (32 <=? n)%N && (n <? 127)%N
  && negb (existsb (Ascii.eqb c)
             [ "\"; "/"; ":"; "*"; "?"; "<"; ">"; "|"; "~"; dquote ]%char).

Fixpoint plain_chars (s : string) : bool :=
  match s with
  | EmptyString => true
  | String c s' => plain_char c && plain_chars s'
  end.

(** A name that the system reads as it is written: plain characters,
    not empty, no final dot or space (so neither [.] nor [..]). *)
Definition plain_name (s : string) : bool :=
  plain_chars s && negb (String.eqb s EmptyString)
  && negb (endswith s ".") && negb (endswith s " ").

(** A path of plain names, after a drive letter or from the current
    directory. *)
Definition sound_path (p : Path) : bool :=
  match p with
  | [] => true
  | a :: names => (is_drive a || plain_name a) && forallb plain_name names
  end.

Definition on_a_drive (p : Path) : bool :=
  match p with
  | a :: _ => is_drive a
  | [] => false
  end.

(** Two paths that can be compared by their text: both sound, both
    from a drive letter or both from the current directory. *)
Definition comparable (p q : Path) : bool :=
  sound_path p && sound_path q && Bool.eqb (on_a_drive p) (on_a_drive q).

(** The paths part ways at some component, letter case set aside. *)
Fixpoint part_ways (p q : Path) : bool :=
  match p, q with
  | a :: p', b :: q' =>
      if String.eqb (lower a) (lower b) then part_ways p' q' else true
  | _, _ => false
  end.

(** [p] is [q] or lies above it, letter case set aside. *)
Fixpoint above (p q : Path) : bool :=
  match p, q with
  | [], _ => true
  | a :: p', b :: q' => String.eqb (lower a) (lower b) && above p' q'
  | _ :: _, [] => false
  end.

(** Two paths that name different places, neither inside the other,
    however the system reads them. *)
Definition apart (p q : Path) : bool := comparable p q && part_ways p q.

(** An event other than the creation of the temporary directory. *)
Definition not_mkdir_temp (e : event) : Prop := e ≠ EvMkdir temp_gta5_extraction.

(** The command line [e] writes to [out]. *)
Definition runs_to (out : Path) (e : event) : bool :=
  match e with
  | EvRun _ o _ => bool_decide (o = out)
  | _ => false
  end.

(** The command line [e] ran and left something at its output path. *)
Definition leaves (run_tool : string → Path → Path → proc_result) (e : event)
  : bool :=
  match e with
  | EvRun exe o i =>
      match run_tool exe o i with
      | Exited _ (Some _) => true
      | _ => false
      end
  | _ => false
  end.

Definition is_print (e : event) : bool :=
  match e with EvPrint _ => true | _ => false end.

(** The tree after the command [exe -o out inp]. *)
Definition fs_after_run (run_tool : string → Path → Path → proc_result)
    (exe : string) (out inp : Path) (t : node) : node :=
  match run_tool exe out inp with
  | Exited _ (Some v) => tool_leaves out v t
  | _ => t
  end.

(** Once a command has left something at [temp/k], no later command
    of the list writes there. *)
Definition settled (run_tool : string → Path → Path → proc_result)
    (temp : Path) (k : string) (new : list event) : Prop :=
  ∀ l1 e l2, new = l1 ++ e :: l2 →
    runs_to (temp ++ [k]) e = true → leaves run_tool e = true →
    Forall (λ e', runs_to (temp ++ [k]) e' = false) l2.

(** What the scan keeps, as long as [temp] is a directory: [temp]
    stays one; the new events are [settled]; if [temp/k] existed no
    new command writes there; and if it existed, or a new command left
    something there, it exists afterwards. *)
Definition scan_ok (run_tool : string → Path → Path → proc_result)
    (temp : Path) (k : string) : relation World := λ w w',
  path_is_dir temp (fs w) = true →
  path_is_dir temp (fs w') = true ∧
  ∃ new, trace w' = trace w ++ new ∧ settled run_tool temp k new ∧
    (path_exists (temp ++ [k]) (fs w) = true →
     Forall (λ e, runs_to (temp ++ [k]) e = false) new) ∧
    (path_exists (temp ++ [k]) (fs w) = true ∨
     Exists (λ e, runs_to (temp ++ [k]) e = true ∧ leaves run_tool e = true) new →
     path_exists (temp ++ [k]) (fs w') = true).

(** What the scan may emit: messages, and command lines of the given
    extractor on a file whose upper-case name starts with [RADIO_],
    whose lower-case name ends with [.rpf] and whose name without its
    last four characters, in upper case, is a key of the station
    mapping, writing to the directory of that key under [temp]. *)
Definition dlc_event (exe : string) (temp : Path) (e : event) : Prop :=
  match e with
  | EvPrint _ => True
  | EvRun exe' out inp =>
      exe' = exe ∧
      ∃ root file,
        inp = root // file ∧
        startswith (upper file) "RADIO_" = true ∧
        endswith (lower file) ".rpf" = true ∧
        upper (drop_last 4 file) ∈ station_keys ∧
        out = temp ++ [upper (drop_last 4 file)]
  | _ => False
  end.

Definition is_run (e : event) : bool :=
  match e with EvRun _ _ _ => true | _ => false end.

(** No character of [s] is a dot. *)
Fixpoint dot_free (s : string) : bool :=
  match s with
  | EmptyString => true
  | String c s' => negb (Ascii.eqb c ".") && dot_free s'
  end.

(** [w'] has the tree of [w] and continues its trace with messages
    only. *)
Definition only_prints : relation World :=
  λ w w', fs w' = fs w ∧
          ∃ new, trace w' = trace w ++ new ∧ Forall (λ e, is_print e = true) new.

(** What a run with an input directory may emit: anything but the
    removal of a tree, and command lines of the transcoder only. *)
Definition input_run_event (vgmstream_path : string) (e : event) : Prop :=
  match e with
  | EvRmtree _ => False
  | EvRun exe _ _ => exe = vgmstream_path
  | _ => True
  end.

(** Every path that exists in [w] exists in [w']. *)
Definition nothing_vanishes : relation World :=
  λ w w', ∀ p, path_exists p (fs w) = true → path_exists p (fs w') = true.

(** The events of a run with output directory [output_dir]: a call of
    [mkdir] that makes a directory is for the group directory, for a
    directory under it, or for [temp_gta5_extraction] (a call with
    [parents=True] makes the missing directories above its own as
    well); the file written is the metadata file, with the fixed text;
    the tree removed is [temp_gta5_extraction]; a command writes under
    [temp_gta5_extraction] or under the group directory. *)
Definition run_event (output_dir : Path) (e : event) : Prop :=
  match e with
  | EvPrint _ => True
  | EvMkdir p => output_dir `prefix_of` p ∨ p = temp_gta5_extraction
  | EvWrite p c =>
      p = output_dir // "stationGroupInfo.json" ∧ c = station_info_json
  | EvRmtree p => p = temp_gta5_extraction
  | EvRun exe out inp =>
      temp_gta5_extraction `prefix_of` out ∨ output_dir `prefix_of` out
  end.

(** [p] is a directory in [w'] if it is one in [w]. *)
Definition dir_stays (p : Path) : relation World :=
  λ w w', path_is_dir p (fs w) = true → path_is_dir p (fs w') = true.

(** The identifier under which the expansion-pack scan extracts
    [file], if it does. *)
Definition dlc_identifier (file : string) : option string :=
  if startswith (upper file) "RADIO_" && endswith (lower file) ".rpf" then
    let rpf_name_no_ext := upper (drop_last 4 file) in
    if in_station_map rpf_name_no_ext then Some rpf_name_no_ext else None
  else None.

(** [x] does not occur in [s]. *)
Fixpoint no_char (x : ascii) (s : string) : bool :=
  match s with
  | EmptyString => true
  | String c s' => negb (Ascii.eqb c x) && no_char x s'
  end.

(** What the group [(.+?)] before a closing quote can hold: at least
    one character, no newline, and no quote after the first
    character. *)
Definition group_ok (v : string) : Prop :=
  match v with
  | EmptyString => False
  | String c v' =>
      c ≠ newline ∧ no_char newline v' = true ∧ no_char dquote v' = true
  end.

(** [temp] is a directory whose entries all bear identifiers of
    [STATION_MAP]. *)
Definition only_station_folders (temp : Path) (w : World) : Prop :=
  ∃ es, lookup_path temp (fs w) = Some (Dir es) ∧
        ∀ name, name ∈ es.*1 → name ∈ station_keys.

(** What [only_station_folders temp] says of [w] it says of [w']. *)
Definition stays_clean (temp : Path) : relation World :=
  λ w w', only_station_folders temp w → only_station_folders temp w'.

(** [c] is an upper-case letter and [d] is the same letter in lower
    case. *)
Definition case_pair (c d : ascii) : bool :=
  let n := N_of_ascii c in
  ((65 <=? n) && (n <=? 90) && (N_of_ascii d =? n + 32))%N.

(** The same character, letter case set aside. *)
Definition same_letter (c d : ascii) : bool :=
  Ascii.eqb c d || case_pair c d || case_pair d c.

(** Case-insensitive equality of two names, as the specification
    words it: the same length and, position by position, the same
    character or the two cases of one letter. *)
Fixpoint same_ignoring_case (a b : string) : bool :=
  match a, b with
  | EmptyString, EmptyString => true
  | String c a', String d b' => same_letter c d && same_ignoring_case a' b'
  | _, _ => false
  end.

(** The input subdirectory the specification selects for an archive
    identifier: the first directory of the listing whose name is the
    identifier, letter case set aside; only when there is none, the
    first one whose name is the identifier followed by [.rpf]. *)
Definition spec_select (t : node) (items : list Path) (identifier : string)
  : option Path :=
  match List.find (λ item, path_is_dir item t
                           && same_ignoring_case (path_name item) identifier) items with
  | Some folder => Some folder
  | None =>
      List.find (λ item, path_is_dir item t
                         && same_ignoring_case (path_name item) (identifier +:+ ".rpf"))
        items
  end.

(** The organizer as the specification words it, over the listing
    [items] of the input directory taken on the disk [t]: for every
    entry in turn the selected directory is processed, and an entry
    without one is passed over. *)
Fixpoint spec_organize (run_tool : string → Path → Path → proc_result)
    (vgmstream_path : string) (output_dir : Path) (t : node) (items : list Path)
    (entries : list (string * string)) : M unit :=
  match entries with
  | [] => ret tt
  | (identifier, station_name) :: rest =>
      match spec_select t items identifier with
      | Some folder =>
          process_station_folder run_tool vgmstream_path folder output_dir station_name
      | None => ret tt
      end;;
      spec_organize run_tool vgmstream_path output_dir t items rest
  end.

(** The 256 characters. *)
Definition all_ascii : list ascii := map ascii_of_nat (seq 0 256).

(** A name without a separator and without a colon: one component of a
    path, as every name a directory listing hands out is. *)
Fixpoint component_name (s : string) : bool :=
  match s with
  | EmptyString => true
  | String c s' => negb (is_sep c) && negb (Ascii.eqb c ":") && component_name s'
  end.

(** The container files of a walk, each with the directory it is in, in
    the order the walk reaches them. *)
Definition conversions (walk : list (Path * list string * list string))
  : list (Path * string) :=
  flat_map (λ '(root, _, files), map (λ file, (root, file)) (List.filter is_awc files))
    walk.

(** The command line of the conversion of [file] found in [root]. *)
Definition conversion_event (vg : string) (songs : Path) (conv : Path * string)
  : event :=
  EvRun vg (songs // output_filename conv.2) (conv.1 // conv.2).

(** The tree after one conversion, and after the conversions of a
    list, one after the other. *)
Definition conversion_step (run_tool : string → Path → Path → proc_result)
    (vg : string) (songs : Path) (t : node) (conv : Path * string) : node :=
  fs_after_run run_tool vg (songs // output_filename conv.2) (conv.1 // conv.2) t.

Definition fs_after_conversions (run_tool : string → Path → Path → proc_result)
    (vg : string) (songs : Path) (convs : list (Path * string)) (t : node) : node :=
  fold_left (conversion_step run_tool vg songs) convs t.

(** A container file with a name of one component. *)
Definition ok_name (conv : Path * string) : Prop :=
  component_name conv.2 = true ∧ is_awc conv.2 = true.

(** The conversion leaves a regular file if it leaves anything. *)
Definition leaves_a_file (run_tool : string → Path → Path → proc_result)
    (vg : string) (songs : Path) (conv : Path * string) : Prop :=
  ∀ code v,
    run_tool vg (songs // output_filename conv.2) (conv.1 // conv.2)
    = Exited code (Some v) → ∃ c, v = File c.

(** The tree once the directory of the station and its [Songs]
    directory are made; [None] when one of them cannot be. *)
Definition station_dirs_made (output_dir : Path) (station : string) (t : node)
  : option node :=
  match mkdir_fs true true (output_dir // station) t with
  | Some t1 => mkdir_fs true true (output_dir // station // "Songs") t1
  | None => None
  end.

(** * Properties *)

(** ** Entries of a directory *)

Lemma assoc_set_entry_eq name v es : assoc name (set_entry name v es) = Some v.
Proof.
  induction es as [|[k w] es IH]; simpl.
  - by rewrite String.eqb_refl.
  - destruct (String.eqb k name) eqn:E; simpl; rewrite E; auto.
Qed.

Lemma assoc_set_entry_ne name name' v es :
  name ≠ name' → assoc name' (set_entry name v es) = assoc name' es.
Proof.
  intros Hne. induction es as [|[k w] es IH]; simpl.
  - destruct (String.eqb_spec name name'); congruence.
  - destruct (String.eqb_spec k name) as [->|Hk]; simpl.
    + destruct (String.eqb_spec name name'); congruence.
    + destruct (String.eqb_spec k name'); auto.
Qed.

Lemma assoc_del_entry_eq name es : assoc name (del_entry name es) = None.
Proof.
  induction es as [|[k w] es IH]; simpl; auto.
  destruct (String.eqb k name) eqn:E; simpl; rewrite ?E; auto.
Qed.

Lemma assoc_del_entry_ne name name' es :
  name ≠ name' → assoc name' (del_entry name es) = assoc name' es.
Proof.
  intros Hne. induction es as [|[k w] es IH]; simpl; auto.
  destruct (String.eqb_spec k name) as [->|Hk]; simpl.
  - destruct (String.eqb_spec name name'); congruence.
  - destruct (String.eqb_spec k name'); auto.
Qed.

(** ** Slots of the tree *)

Lemma slot_at_cons c p es :
  slot_at (c :: p) (Some (Dir es)) = slot_at p (assoc c es).
Proof. unfold slot_at; simpl. by destruct (assoc c es). Qed.

Lemma slot_at_None p : slot_at p None = None.
Proof. done. Qed.

Lemma slot_at_File c p s : slot_at (c :: p) (Some (File s)) = None.
Proof. done. Qed.

(** After an update the slot holds what [f] answered. *)
Lemma update_slot_same p f o o' :
  update_slot p f o = Some o' → f (slot_at p o) = Some (slot_at p o').
Proof.
  revert o o'. induction p as [|c p IH]; intros o o' H; simpl in *.
  - destruct o, o'; simpl in *; auto.
  - destruct o as [[s|es]|]; try discriminate.
    destruct (update_slot p f (assoc c es)) as [r|] eqn:E; try discriminate.
    apply IH in E. rewrite slot_at_cons, E.
    destruct r as [v|]; simplify_eq; rewrite slot_at_cons.
    + by rewrite assoc_set_entry_eq.
    + by rewrite assoc_del_entry_eq.
Qed.

Lemma update_slot_diverge p q f o o' :
  diverge p q → update_slot q f o = Some o' → slot_at p o' = slot_at p o.
Proof.
  intros (pre & a & p' & b & q' & -> & -> & Hab). revert o o'.
  induction pre as [|c pre IH]; intros o o' H; simpl in *.
  - destruct o as [[s|es]|]; try discriminate.
    destruct (update_slot q' f (assoc b es)) as [[v|]|]; simplify_eq;
      rewrite !slot_at_cons.
    + by rewrite assoc_set_entry_ne.
    + by rewrite assoc_del_entry_ne.
  - destruct o as [[s|es]|]; try discriminate.
    destruct (update_slot (pre ++ b :: q') f (assoc c es)) as [r|] eqn:E;
      try discriminate.
    apply IH in E.
    destruct r as [v|]; simplify_eq; rewrite !slot_at_cons.
    + by rewrite assoc_set_entry_eq.
    + rewrite assoc_del_entry_eq. by rewrite <- E.
Qed.

(** An update below [p] needs a directory at [p] and leaves one there. *)
Lemma update_slot_below p c q f o o' :
  update_slot (p ++ c :: q) f o = Some o' →
  (∃ es, slot_at p o = Some (Dir es)) ∧ (∃ es', slot_at p o' = Some (Dir es')).
Proof.
  revert o o'. induction p as [|a p IH]; intros o o' H; simpl in *.
  - destruct o as [[s|es]|]; try discriminate.
    destruct (update_slot q f (assoc c es)) as [[v|]|]; simplify_eq; eauto.
  - destruct o as [[s|es]|]; try discriminate.
    destruct (update_slot (p ++ c :: q) f (assoc a es)) as [r|] eqn:E;
      try discriminate.
    apply IH in E as [[es0 H0] [es1 H1]].
    destruct r as [v|]; simplify_eq; rewrite !slot_at_cons.
    rewrite assoc_set_entry_eq. eauto.
Qed.

Lemma lookup_update_path_same p f t t' :
  update_path p f t = Some t' → f (lookup_path p t) = Some (lookup_path p t').
Proof.
  unfold update_path. intros H.
  destruct (update_slot p f (Some t)) as [[v|]|] eqn:E; simplify_eq.
  by apply update_slot_same in E.
Qed.

Lemma lookup_update_path_diverge p q f t t' :
  diverge p q → update_path q f t = Some t' → lookup_path p t' = lookup_path p t.
Proof.
  unfold update_path. intros Hd H.
  destruct (update_slot q f (Some t)) as [[v|]|] eqn:E; simplify_eq.
  by apply (update_slot_diverge p) in E.
Qed.

Lemma lookup_rmtree p t t' : rmtree p t = Some t' → lookup_path p t' = None.
Proof.
  intros H. apply lookup_update_path_same in H.
  destruct (lookup_path p t) as [[|]|]; by simplify_eq.
Qed.

(** ** Running computations *)

Arguments joinpath : simpl never.
Arguments path_of_string : simpl never.

Ltac run_m :=
  repeat (unfold bind, ret, raise, try_except, emit, print, get_fs, set_fs,
          fs_op, exists_, is_dir, read_text, iterdir in *; simpl in * ).

Lemma bind_unit (c : M unit) w : (c;; ret tt) w = c w.
Proof. unfold bind, ret. by destruct (c w) as [[[]|e] w']. Qed.

(** ** Library folders (C4) *)

Lemma find_key_Some l k q :
  List.find (λ p, bool_decide (path_key p = k)) l = Some q →
  q ∈ l ∧ path_key q = k.
Proof.
  intros H. apply find_some in H as [Hin Hk]. split.
  - by apply list_elem_of_In.
  - by apply bool_decide_eq_true in Hk.
Qed.

Lemma find_key_elem l p :
  p ∈ l → ∃ q, List.find (λ x, bool_decide (path_key x = path_key p)) l = Some q.
Proof.
  intros Hin.
  destruct (List.find (λ x, bool_decide (path_key x = path_key p)) l) as [q|] eqn:E;
    [by exists q|].
  apply list_elem_of_In in Hin.
  pose proof (find_none _ _ E p Hin) as H. simpl in H.
  by rewrite bool_decide_eq_true_2 in H.
Qed.

Lemma elem_of_list_of_set p l :
  p ∈ list_of_set l ↔
  List.find (λ q, bool_decide (path_key q = path_key p)) l = Some p.
Proof.
  unfold list_of_set. rewrite list_elem_of_omap. split.
  - intros (k & Hk & Hf). destruct (find_key_Some _ _ _ Hf) as [_ <-]. done.
  - intros Hf. exists (path_key p). split; [|done].
    apply elem_of_elements, elem_of_list_to_set, list_elem_of_fmap.
    exists p. split; [done|]. by destruct (find_key_Some _ _ _ Hf).
Qed.

Lemma list_of_set_keys (ks : list Path) (l : list Path) :
  map path_key (omap (λ k, List.find (λ p, bool_decide (path_key p = k)) l) ks)
  `sublist_of` ks.
Proof.
  induction ks as [|k ks IH]; simpl; [constructor|].
  destruct (List.find (λ p, bool_decide (path_key p = k)) l) as [q|] eqn:E; simpl.
  - destruct (find_key_Some _ _ _ E) as [_ ->]. by constructor.
  - by constructor.
Qed.

Lemma list_of_set_deduplicated l : deduplicated l (list_of_set l).
Proof.
  split; [|split].
  - intros p Hp. apply elem_of_list_of_set in Hp.
    by destruct (find_key_Some _ _ _ Hp).
  - intros p Hp. destruct (find_key_elem l p Hp) as [q Hq].
    destruct (find_key_Some _ _ _ Hq) as [_ Hk].
    exists q. split; [|done]. apply elem_of_list_of_set. by rewrite Hk.
  - unfold list_of_set.
    apply (sublist_NoDup _ _ (NoDup_elements (list_to_set (map path_key l) : gset Path))).
    apply list_of_set_keys.
Qed.

Lemma list_of_set_head p l : p ∈ list_of_set (p :: l).
Proof.
  apply elem_of_list_of_set. simpl. by rewrite bool_decide_eq_true_2.
Qed.

Lemma NoDup_list_of_set l : NoDup (list_of_set l).
Proof.
  eapply NoDup_fmap_1. apply list_of_set_deduplicated.
Qed.



(** ** Locating the installation (C5) *)

Lemma gta5_in_library_with_spec denied lib w :
  denied (app_manifest_of lib) = false →
  ∃ w', gta5_in_library_with (exists_stat denied) lib w
        = (Ret (found_in denied (fs w) lib), w')
        ∧ fs w' = fs w.
Proof.
  intros Hd. unfold gta5_in_library_with, found_in, installdir_of.
  fold (app_manifest_of lib). unfold exists_stat at 1. rewrite Hd.
  cbv [bind exists_win read_text_win get_fs ret try_except].
  destruct (lookup_win (app_manifest_of lib) (fs w)) as [[content|es]|] eqn:E;
    simpl; rewrite ?E; simpl.
  - destruct (Re.search "installdir" content) as [v|]; simpl; [|by eexists].
    fold (candidate lib v). unfold exists_stat.
    destruct (denied (candidate lib v)); simpl; [by eexists|].
    cbv [bind exists_win get_fs ret].
    destruct (lookup_win (candidate lib v) (fs w)); simpl; by eexists.
  - by eexists.
  - by eexists.
Qed.

Lemma find_gta5_install_with_spec denied libs w :
  (∀ lib, lib ∈ libs → denied (app_manifest_of lib) = false) →
  ∃ w', find_gta5_install_with (exists_stat denied) libs w
        = (Ret (head (omap (found_in denied (fs w)) libs)), w')
        ∧ fs w' = fs w.
Proof.
  revert w. induction libs as [|lib rest IH]; intros w Hd.
  - by exists w.
  - destruct (gta5_in_library_with_spec denied lib w) as (w1 & Hrun & Hfs).
    { apply Hd. by left. }
    cbn [find_gta5_install_with omap list_omap]. unfold bind at 1. rewrite Hrun.
    destruct (found_in denied (fs w) lib) as [g|]; simpl.
    + by exists w1.
    + destruct (IH w1) as (w' & Hrun' & Hfs').
      { intros l Hl. apply Hd. by right. }
      exists w'. rewrite Hrun', Hfs. split; [done|congruence].
Qed.

Lemma gta5_in_library_returns lib w :
  ∃ r w', gta5_in_library lib w = (Ret r, w') ∧ fs w' = fs w.
Proof.
  destruct (gta5_in_library_with_spec (λ _, false) lib w eq_refl) as (w' & H & Hfs).
  eexists _, w'. split; [exact H|done].
Qed.

(** *** What the expression finds is in the text *)

Lemma sapp_cons x a b : String x a +:+ b = String x (a +:+ b).
Proof. reflexivity. Qed.

Lemma sapp_nil b : EmptyString +:+ b = b.
Proof. reflexivity. Qed.

Lemma sapp_assoc a b c : (a +:+ b) +:+ c = a +:+ (b +:+ c).
Proof.
  induction a as [|x a IH]; [done|].
  change ((String x a +:+ b) +:+ c) with (String x ((a +:+ b) +:+ c)).
  by rewrite IH.
Qed.

Lemma strip_prefix_sound p s r : Re.strip_prefix p s = Some r → s = p +:+ r.
Proof.
  revert s. induction p as [|a p IH]; intros s H; simpl in H.
  - by simplify_eq.
  - destruct s as [|b s]; [done|].
    destruct (Ascii.eqb_spec a b) as [->|]; [|done].
    change (String b p +:+ r) with (String b (p +:+ r)). f_equal. by apply IH.
Qed.

Lemma skip_spaces_sound s k r :
  Re.skip_spaces s = (k, r) →
  ∃ ws, s = ws +:+ r ∧ all_space ws = true ∧ String.length ws = k.
Proof.
  revert k r. induction s as [|c s IH]; intros k r H; simpl in H.
  - simplify_eq. by exists EmptyString.
  - destruct (Re.is_space c) eqn:Ec.
    + destruct (Re.skip_spaces s) as [k' r'] eqn:E. simplify_eq.
      destruct (IH _ _ eq_refl) as (ws & -> & Hws & Hlen).
      exists (String c ws). simpl. by rewrite Ec, Hws, Hlen.
    + simplify_eq. by exists EmptyString.
Qed.

Lemma lazy_to_quote_sound s v n :
  Re.lazy_to_quote s = Some (v, n) → ∃ rest, s = v +:+ String dquote rest.
Proof.
  revert v n. induction s as [|c s IH]; intros v n H; [done|].
  simpl in H. destruct (Ascii.eqb_spec c dquote) as [->|].
  - simplify_eq. by exists s.
  - destruct (Ascii.eqb c newline); [done|].
    destruct (Re.lazy_to_quote s) as [[v' n']|]; [|done]. simplify_eq.
    destruct (IH _ _ eq_refl) as [rest ->]. by exists rest.
Qed.

Lemma match_here_sound key s v n :
  Re.match_here key s = Some (v, n) →
  ∃ ws post,
    s = quoted key +:+ (ws +:+ (quoted v +:+ post))
    ∧ ws ≠ EmptyString ∧ all_space ws = true.
Proof.
  unfold Re.match_here. intros H.
  apply bind_Some in H as (r1 & H1 & H).
  destruct (Re.skip_spaces r1) as [k r2] eqn:E2. destruct k as [|k]; [done|].
  apply bind_Some in H as (r3 & H3 & H).
  destruct r3 as [|c0 r4]; [done|].
  destruct (Ascii.eqb c0 newline); [done|].
  apply bind_Some in H as ([v' n'] & El & H). simplify_eq.
  apply strip_prefix_sound in H1 as ->.
  apply skip_spaces_sound in E2 as (ws & -> & Hws & Hlen).
  apply strip_prefix_sound in H3 as ->.
  apply lazy_to_quote_sound in El as [rest ->].
  exists ws, rest. split; [|split; [by destruct ws|done]].
  do 2 f_equal. unfold quoted.
  by rewrite !sapp_cons, sapp_nil, sapp_assoc, sapp_cons, sapp_nil.
Qed.

Lemma search_sound key s v :
  Re.search key s = Some v →
  ∃ pre ws post,
    s = pre +:+ (quoted key +:+ (ws +:+ (quoted v +:+ post)))
    ∧ ws ≠ EmptyString ∧ all_space ws = true.
Proof.
  induction s as [|c s IH]; [done|]. intros H. cbn [Re.search] in H.
  destruct (Re.match_here key (String c s)) as [[v' n]|] eqn:E.
  - simplify_eq. destruct (match_here_sound _ _ _ _ E) as (ws & post & -> & ?).
    by exists EmptyString, ws, post.
  - destruct (IH H) as (pre & ws & post & -> & ?).
    by exists (String c pre), ws, post.
Qed.




(** ** Selecting the station folder (C6) *)

Section Select.
Context (run_tool : string → Path → Path → proc_result).

Lemma match_station_spec vg input_dir output_dir station pattern w :
  match_station run_tool vg input_dir output_dir station pattern w =
  match iterdir_fs input_dir (fs w) with
  | None => (Raise OSError, w)
  | Some items =>
      match dir_named (fs w) items pattern with
      | Some item =>
          (process_station_folder run_tool vg item output_dir station;; ret true) w
      | None => (Ret false, w)
      end
  end.
Proof.
  unfold match_station, dir_named.
  cbv [bind iterdir is_dir get_fs ret raise].
  destruct (iterdir_fs input_dir (fs w)) as [items|]; [|done].
  induction items as [|item items IH]; [done|].
  cbn [for_break find]. cbv [bind iterdir is_dir get_fs ret raise] in *.
  destruct (path_is_dir item (fs w) && String.eqb (upper (path_name item)) pattern).
  - destruct (process_station_folder _ _ _ _ _ w) as [[[]|e] w']; done.
  - apply IH.
Qed.

(** The body of the organizing loop for one entry. *)
Lemma organize_station_spec vg input_dir output_dir rpf_name station_name w :
  organize_station run_tool vg input_dir output_dir (rpf_name, station_name) w =
  match iterdir_fs input_dir (fs w) with
  | None => (Raise OSError, w)
  | Some items =>
      match dir_named (fs w) items (upper rpf_name) with
      | Some item =>
          process_station_folder run_tool vg item output_dir station_name w
      | None =>
          match dir_named (fs w) items (upper (rpf_name +:+ ".RPF")) with
          | Some item =>
              process_station_folder run_tool vg item output_dir station_name w
          | None => (Ret tt, w)
          end
      end
  end.
Proof.
  unfold organize_station. unfold bind at 1. rewrite match_station_spec.
  destruct (iterdir_fs input_dir (fs w)) as [items|] eqn:Ei; [|done].
  destruct (dir_named (fs w) items (upper rpf_name)) as [item|].
  - unfold bind, ret.
    destruct (process_station_folder _ _ _ _ _ w) as [[[]|e] w']; done.
  - cbn [negb]. unfold bind at 1. rewrite match_station_spec, Ei.
    destruct (dir_named (fs w) items (upper (rpf_name +:+ ".RPF"))) as [item|].
    + unfold bind, ret.
      destruct (process_station_folder _ _ _ _ _ w) as [[[]|e] w']; done.
    + done.
Qed.

End Select.

(** ** Relations kept by every step of a computation *)

Section Keeps.
Context (R : relation World) `{!PreOrder R}.

Lemma keeps_ret {A} (a : A) : keeps R (ret a).
Proof. intros w r w' [= <- <-]. reflexivity. Qed.

Lemma keeps_raise {A} e : keeps R (@raise A e).
Proof. intros w r w' [= <- <-]. reflexivity. Qed.

Lemma keeps_bind {A B} (c : M A) (k : A → M B) :
  keeps R c → (∀ a, keeps R (k a)) → keeps R (bind c k).
Proof.
  intros Hc Hk w r w'. unfold bind.
  destruct (c w) as [[a|e] w1] eqn:E; intros H.
  - etrans; [by eapply Hc|by eapply Hk].
  - simplify_eq. by eapply Hc.
Qed.

Lemma keeps_try_except {A} (body : M A) (handler : exn → M A) :
  keeps R body → (∀ e, keeps R (handler e)) → keeps R (try_except body handler).
Proof.
  intros Hc Hk w r w'. unfold try_except.
  destruct (body w) as [[a|e] w1] eqn:E; intros H.
  - simplify_eq. by eapply Hc.
  - etrans; [by eapply Hc|by eapply Hk].
Qed.

Lemma keeps_for_each {A} (xs : list A) (body : A → M unit) :
  (∀ x, x ∈ xs → keeps R (body x)) → keeps R (for_each xs body).
Proof.
  induction xs as [|x xs IH]; intros Hb; simpl.
  - apply keeps_ret.
  - apply keeps_bind; [apply Hb; left|intros _; apply IH].
    intros y Hy. apply Hb. by right.
Qed.

Lemma keeps_for_break {A} (xs : list A) (body : A → M bool) :
  (∀ x, x ∈ xs → keeps R (body x)) → keeps R (for_break xs body).
Proof.
  induction xs as [|x xs IH]; intros Hb; simpl.
  - apply keeps_ret.
  - apply keeps_bind; [apply Hb; left|intros [|]].
    + apply keeps_ret.
    + apply IH. intros y Hy. apply Hb. by right.
Qed.

Lemma keeps_get_fs : keeps R get_fs.
Proof. intros w r w' [= <- <-]. reflexivity. Qed.

Lemma keeps_exists_ p : keeps R (exists_ p).
Proof. intros w r w' [= <- <-]. reflexivity. Qed.

Lemma keeps_is_dir p : keeps R (is_dir p).
Proof. intros w r w' [= <- <-]. reflexivity. Qed.

Lemma keeps_read_text p : keeps R (read_text p).
Proof.
  intros w r w'. unfold read_text, bind, get_fs.
  destruct (lookup_path p (fs w)) as [[c|es]|]; intros [= <- <-]; reflexivity.
Qed.

Lemma keeps_exists_win p : keeps R (exists_win p).
Proof. intros w r w' [= <- <-]. reflexivity. Qed.

Lemma keeps_read_text_win p : keeps R (read_text_win p).
Proof.
  intros w r w'. unfold read_text_win, bind, get_fs.
  destruct (lookup_win p (fs w)) as [[c|es]|]; intros [= <- <-]; reflexivity.
Qed.

Lemma keeps_iterdir p : keeps R (iterdir p).
Proof.
  intros w r w'. unfold iterdir, bind, get_fs.
  destruct (iterdir_fs p (fs w)); intros [= <- <-]; reflexivity.
Qed.

End Keeps.

(** Inverting a sequence that ran to its end. *)
Lemma bind_Ret_inv {A B} (c : M A) (k : A → M B) w b w' :
  bind c k w = (Ret b, w') → ∃ a w1, c w = (Ret a, w1) ∧ k a w1 = (Ret b, w').
Proof.
  unfold bind. destruct (c w) as [[a|e] w1]; intros H; [eauto|discriminate].
Qed.

Lemma bind_inv {A B} (c : M A) (k : A → M B) w r w' :
  bind c k w = (r, w') →
  (∃ a w1, c w = (Ret a, w1) ∧ k a w1 = (r, w')) ∨
  (∃ e, c w = (Raise e, w') ∧ r = Raise e).
Proof.
  unfold bind. destruct (c w) as [[a|e] w1]; intros H; [left; eauto|].
  right. exists e. by simplify_eq.
Qed.

(** *** The events of a run *)

Global Instance emits_preorder P : PreOrder (emits P).
Proof.
  split.
  - intros w. exists []. by rewrite app_nil_r.
  - intros a b c (n1 & E1 & F1) (n2 & E2 & F2). exists (n1 ++ n2).
    split; [by rewrite E2, E1, app_assoc|by apply Forall_app].
Qed.

Lemma emits_weaken (P Q : event → Prop) w w' :
  (∀ e, P e → Q e) → emits P w w' → emits Q w w'.
Proof.
  intros HPQ (new & E & F). exists new. split; [done|].
  eapply Forall_impl; eauto.
Qed.

Section Emits.
Context (P : event → Prop).

Lemma keeps_emit e : P e → keeps (emits P) (emit e).
Proof. intros He w r w' [= <- <-]. exists [e]. split; [done|by constructor]. Qed.

Lemma keeps_print text : P (EvPrint text) → keeps (emits P) (print text).
Proof. apply keeps_emit. Qed.

Lemma keeps_set_fs t : keeps (emits P) (set_fs t).
Proof. intros w r w' [= <- <-]. exists []. by rewrite app_nil_r. Qed.

Lemma keeps_fs_op f e : P e → keeps (emits P) (fs_op f e).
Proof.
  intros He. unfold fs_op. apply keeps_bind; [apply _|apply keeps_get_fs, _|].
  intros t. destruct (f t).
  - apply keeps_bind; [apply _|apply keeps_set_fs|intros _; by apply keeps_emit].
  - apply keeps_raise, _.
Qed.

Lemma keeps_mkdir parents exist_ok p :
  P (EvMkdir p) → keeps (emits P) (mkdir parents exist_ok p).
Proof.
  intros He. unfold mkdir. apply keeps_bind; [apply _|apply keeps_get_fs, _|].
  intros t. destruct (mkdir_fs parents exist_ok p t).
  - apply keeps_bind; [apply _|apply keeps_set_fs|intros _].
    destruct (path_exists p t); [apply keeps_ret, _|by apply keeps_emit].
  - apply keeps_raise, _.
Qed.

Lemma keeps_shutil_rmtree p : P (EvRmtree p) → keeps (emits P) (shutil_rmtree p).
Proof. apply keeps_fs_op. Qed.

Lemma keeps_write_text p c : P (EvWrite p c) → keeps (emits P) (write_text p c).
Proof. apply keeps_fs_op. Qed.

Lemma keeps_subprocess_run run_tool exe out inp :
  P (EvRun exe out inp) → keeps (emits P) (subprocess_run run_tool exe out inp).
Proof.
  intros He. unfold subprocess_run.
  apply keeps_bind; [apply _|by apply keeps_emit|intros _].
  destruct (run_tool exe out inp) as [|code [v|]].
  - apply keeps_raise, _.
  - apply keeps_bind; [apply _| |intros _].
    + apply keeps_bind; [apply _|apply keeps_get_fs, _|intros t; apply keeps_set_fs].
    + destruct (code =? 0)%Z; [apply keeps_ret, _|apply keeps_raise, _].
  - apply keeps_bind; [apply _|apply keeps_ret, _|intros _].
    destruct (code =? 0)%Z; [apply keeps_ret, _|apply keeps_raise, _].
Qed.

End Emits.

Ltac keeps_step :=
  match goal with
  | |- keeps _ (bind _ _) => apply keeps_bind; [apply _| |intros ?]
  | |- keeps _ (ret _) => apply keeps_ret; apply _
  | |- keeps _ (raise _) => apply keeps_raise; apply _
  | |- keeps _ (try_except _ _) => apply keeps_try_except; [apply _| |intros ?]
  | |- keeps _ (for_each _ _) => apply keeps_for_each; [apply _|intros ? ?]
  | |- keeps _ (for_break _ _) => apply keeps_for_break; [apply _|intros ? ?]
  | |- keeps _ get_fs => apply keeps_get_fs; apply _
  | |- keeps _ (exists_ _) => apply keeps_exists_; apply _
  | |- keeps _ (is_dir _) => apply keeps_is_dir; apply _
  | |- keeps _ (read_text _) => apply keeps_read_text; apply _
  | |- keeps _ (exists_win _) => apply keeps_exists_win; apply _
  | |- keeps _ (read_text_win _) => apply keeps_read_text_win; apply _
  | |- keeps _ (iterdir _) => apply keeps_iterdir; apply _
  | |- keeps _ (if ?b then _ else _) => destruct b
  | |- keeps _ (match ?x with _ => _ end) => destruct x
  end.

Ltac keeps_auto := repeat keeps_step.

(** *** From the primitive steps to the parts of the script

    A relation that every console line keeps, and that making a
    directory, removing a tree and running a command keep at the paths
    [ok_mkdir], [ok_rmtree] and [ok_run] admit, is kept by each part of
    the script that touches only such paths. *)

Section Footprint.
Context (registry_SteamPath : option string).
Context (run_tool : string → Path → Path → proc_result).
Context (R : relation World) `{!PreOrder R}.
Context (ok_mkdir ok_rmtree : Path → Prop) (ok_run : string → Path → Path → Prop).
Hypothesis R_print : ∀ text, keeps R (print text).
Hypothesis R_mkdir : ∀ pa ex p, ok_mkdir p → keeps R (mkdir pa ex p).
Hypothesis R_rmtree : ∀ p, ok_rmtree p → keeps R (shutil_rmtree p).
Hypothesis R_run :
  ∀ exe out inp, ok_run exe out inp → keeps R (subprocess_run run_tool exe out inp).

Lemma keeps_get_steam_path : keeps R (get_steam_path registry_SteamPath).
Proof. unfold get_steam_path. keeps_auto; auto. Qed.

Lemma keeps_parse_library_folders steam_path :
  keeps R (parse_library_folders steam_path).
Proof. unfold parse_library_folders, parse_library_folders_with. keeps_auto; auto. Qed.

Lemma keeps_gta5_in_library lib : keeps R (gta5_in_library lib).
Proof. unfold gta5_in_library, gta5_in_library_with. keeps_auto; auto. Qed.

Lemma keeps_find_gta5_install libs : keeps R (find_gta5_install libs).
Proof.
  unfold find_gta5_install.
  induction libs as [|lib libs IH]; cbn [find_gta5_install_with]; keeps_auto; auto.
  apply keeps_gta5_in_library.
Qed.

Lemma keeps_extract_rpf exe rpf_file out :
  ok_run exe out rpf_file → keeps R (extract_rpf run_tool exe rpf_file out).
Proof. intros. unfold extract_rpf. keeps_auto; auto. Qed.

Lemma keeps_convert_awc exe inp out :
  ok_run exe out inp → keeps R (convert_awc run_tool exe inp out).
Proof. intros. unfold convert_awc. keeps_auto; auto. Qed.

Lemma keeps_process_file exe songs root file :
  (is_awc file = true → ok_run exe (songs // output_filename file) (root // file)) →
  keeps R (process_file run_tool exe songs root file).
Proof.
  intros H. unfold process_file. destruct (is_awc file); keeps_auto.
  apply keeps_convert_awc; auto.
Qed.

Lemma keeps_process_station_folder exe folder output_dir station :
  ok_mkdir (output_dir // station) →
  ok_mkdir (output_dir // station // "Songs") →
  (∀ t root dirs files file,
     (root, dirs, files) ∈ os_walk folder t → file ∈ files → is_awc file = true →
     ok_run exe (output_dir // station // "Songs" // output_filename file)
       (root // file)) →
  keeps R (process_station_folder run_tool exe folder output_dir station).
Proof.
  intros H1 H2 H3. unfold process_station_folder.
  apply keeps_bind; [apply _|by apply R_print|intros _].
  apply keeps_bind; [apply _|by apply R_mkdir|intros _].
  apply keeps_bind; [apply _|by apply R_mkdir|intros _].
  apply keeps_bind; [apply _|apply keeps_get_fs, _|intros t].
  apply keeps_for_each; [apply _|]. intros [[root dirs] files] Hin.
  apply keeps_for_each; [apply _|]. intros file Hfile.
  apply keeps_process_file. eauto.
Qed.

Lemma keeps_organize exe input_dir output_dir :
  (∀ rpf station, (rpf, station) ∈ STATION_MAP →
     ok_mkdir (output_dir // station) ∧
     ok_mkdir (output_dir // station // "Songs") ∧
     ∀ file inp,
       ok_run exe (output_dir // station // "Songs" // output_filename file) inp) →
  keeps R (organize run_tool exe input_dir output_dir).
Proof.
  intros H. unfold organize.
  apply keeps_for_each; [apply _|]. intros [rpf station] Hin.
  destruct (H rpf station Hin) as (H1 & H2 & H3).
  unfold organize_station, match_station. keeps_auto.
  all: apply keeps_process_station_folder; auto.
Qed.

Lemma keeps_extract_base exe gta5_path temp :
  (∀ k inp, k ∈ station_keys → ok_run exe (temp // k) inp) →
  keeps R (extract_base run_tool exe gta5_path temp).
Proof.
  intros H. unfold extract_base. keeps_auto.
  apply keeps_extract_rpf. auto.
Qed.

Lemma keeps_extract_dlc_file exe temp root file :
  (∀ k inp, k ∈ station_keys → ok_run exe (temp // k) inp) →
  keeps R (extract_dlc_file run_tool exe temp root file).
Proof.
  intros H. unfold extract_dlc_file.
  destruct (startswith _ _ && endswith _ _); [|keeps_auto].
  destruct (in_station_map _) eqn:E; [|keeps_auto].
  apply bool_decide_eq_true in E. keeps_auto.
  apply keeps_extract_rpf. auto.
Qed.

Lemma keeps_extract_dlc_walk exe temp walk :
  (∀ k inp, k ∈ station_keys → ok_run exe (temp // k) inp) →
  keeps R (extract_dlc_walk run_tool exe temp walk).
Proof.
  intros H. unfold extract_dlc_walk.
  apply keeps_for_each; [apply _|]. intros [[root dirs] files] _.
  apply keeps_for_each; [apply _|]. intros file _.
  by apply keeps_extract_dlc_file.
Qed.

Lemma keeps_extract_dlc exe gta5_path temp :
  (∀ k inp, k ∈ station_keys → ok_run exe (temp // k) inp) →
  keeps R (extract_dlc run_tool exe gta5_path temp).
Proof.
  intros H. unfold extract_dlc. keeps_auto.
  by apply keeps_extract_dlc_walk.
Qed.

Lemma keeps_cleanup t :
  (∀ p, t = Some p → ok_rmtree p) → keeps R (cleanup t).
Proof. intros H. unfold cleanup. destruct t; keeps_auto; auto. Qed.

Lemma keeps_resolve_input args :
  ok_rmtree temp_gta5_extraction → ok_mkdir temp_gta5_extraction →
  (∀ exe k inp, k ∈ station_keys → ok_run exe (temp_gta5_extraction // k) inp) →
  keeps R (resolve_input registry_SteamPath run_tool args).
Proof.
  intros H1 H2 H3. unfold resolve_input.
  destruct (truthy_opt (input args)); [keeps_auto|].
  destruct (auto_detect args); [|keeps_auto; auto].
  apply keeps_bind; [apply _|by apply R_print|intros _].
  apply keeps_bind; [apply _|apply keeps_get_steam_path|intros [steam_path|]];
    [|keeps_auto; auto].
  apply keeps_bind; [apply _|by apply R_print|intros _].
  apply keeps_bind; [apply _|apply keeps_parse_library_folders|intros libs].
  apply keeps_bind; [apply _|apply keeps_find_gta5_install|intros [gta5_path|]];
    [|keeps_auto; auto].
  apply keeps_bind; [apply _|by apply R_print|intros _].
  destruct (truthy_opt (rpf_cli args)) as [exe|]; [|keeps_auto; auto].
  apply keeps_bind; [apply _|apply keeps_exists_, _|intros e].
  apply keeps_bind; [apply _|destruct e; keeps_auto; auto|intros _].
  apply keeps_bind; [apply _|by apply R_mkdir|intros _].
  apply keeps_bind; [apply _|by apply R_print|intros _].
  apply keeps_bind; [apply _|apply keeps_extract_base; auto|intros _].
  apply keeps_bind; [apply _|apply keeps_extract_dlc; auto|intros _].
  keeps_auto.
Qed.

Lemma keeps_organize_and_finish exe output_dir src :
  (∀ rpf station, (rpf, station) ∈ STATION_MAP →
     ok_mkdir (output_dir // station) ∧
     ok_mkdir (output_dir // station // "Songs") ∧
     ∀ file inp,
       ok_run exe (output_dir // station // "Songs" // output_filename file) inp) →
  (∀ i p, src = Some (i, Some p) → ok_rmtree p) →
  keeps R (organize_and_finish run_tool exe output_dir src).
Proof.
  intros H1 H2. unfold organize_and_finish.
  destruct src as [[input_dir temp]|]; [|keeps_auto].
  apply keeps_bind; [apply _|apply keeps_exists_, _|intros e].
  destruct (negb e); [keeps_auto; auto|].
  apply keeps_bind; [apply _|by apply keeps_organize|intros _].
  apply keeps_bind; [apply _|apply keeps_cleanup|intros _].
  - intros p ->. eauto.
  - keeps_auto; auto.
Qed.

End Footprint.

(** The primitive steps and the events of a run. *)
Section EmitsSteps.
Context (run_tool : string → Path → Path → proc_result) (P : event → Prop).

Lemma emits_print text : P (EvPrint text) → keeps (emits P) (print text).
Proof. apply keeps_print. Qed.

Lemma emits_mkdir pa ex p : P (EvMkdir p) → keeps (emits P) (mkdir pa ex p).
Proof. apply keeps_mkdir. Qed.

Lemma emits_rmtree p : P (EvRmtree p) → keeps (emits P) (shutil_rmtree p).
Proof. apply keeps_shutil_rmtree. Qed.

Lemma emits_run exe out inp :
  P (EvRun exe out inp) → keeps (emits P) (subprocess_run run_tool exe out inp).
Proof. apply keeps_subprocess_run. Qed.
End EmitsSteps.

(** ** More on paths and slots *)

Lemma path_of_string_group : path_of_string "Grand Theft Auto V" = ["Grand Theft Auto V"].
Proof. reflexivity. Qed.

Lemma path_of_string_info :
  path_of_string "stationGroupInfo.json" = ["stationGroupInfo.json"].
Proof. reflexivity. Qed.

Lemma path_of_string_songs : path_of_string "Songs" = ["Songs"].
Proof. reflexivity. Qed.

Lemma temp_gta5_extraction_eq : temp_gta5_extraction = ["temp_gta5_extraction"].
Proof. reflexivity. Qed.

(** Every archive identifier and every display name is one path
    component. *)
Lemma path_of_string_station_key k : k ∈ station_keys → path_of_string k = [k].
Proof.
  intros H. assert (Forall (λ k, path_of_string k = [k]) station_keys) as F.
  { unfold station_keys, STATION_MAP. simpl. repeat constructor. }
  rewrite Forall_forall in F. auto.
Qed.

Lemma path_of_string_station_name rpf station :
  (rpf, station) ∈ STATION_MAP → path_of_string station = [station].
Proof.
  intros H.
  assert (Forall (λ e : string * string, path_of_string e.2 = [e.2]) STATION_MAP) as F.
  { unfold STATION_MAP. repeat constructor. }
  rewrite Forall_forall in F. by apply (F (rpf, station)).
Qed.

Lemma slot_at_app p q o :
  slot_at (p ++ q) o = slot_at q (slot_at p o).
Proof.
  revert o. induction p as [|c p IH]; intros o.
  - by destruct o.
  - destruct o as [[s|es]|]; try done.
    change ((c :: p) ++ q) with (c :: (p ++ q)).
    rewrite !slot_at_cons. apply IH.
Qed.

Lemma slot_at_Some p t : slot_at p (Some t) = lookup_path p t.
Proof. done. Qed.

Lemma path_trichotomy (p q : Path) :
  p `prefix_of` q ∨ (∃ c r, p = q ++ c :: r) ∨ diverge p q.
Proof.
  revert q. induction p as [|a p IH]; intros q.
  - left. apply prefix_nil.
  - destruct q as [|b q].
    + right. left. by exists a, p.
    + destruct (decide (a = b)) as [->|Hab].
      * destruct (IH q) as [Hp|[(c & r & ->)|(pre & x & p' & y & q' & -> & -> & Hxy)]].
        -- left. by apply prefix_cons.
        -- right. left. by exists c, r.
        -- right. right. by exists (b :: pre), x, p', y, q'.
      * right. right. by exists [], a, p, b, q.
Qed.

Lemma path_exists_prefix p q t :
  path_exists (p ++ q) t = true → path_exists p t = true.
Proof.
  unfold path_exists. rewrite <- !slot_at_Some, slot_at_app.
  by destruct (slot_at p (Some t)).
Qed.

(** [mkdir -p] changes nothing off the path it makes. *)
Lemma mkdir_slot_frame q p o n' :
  mkdir_slot q o = Some n' → ¬ p `prefix_of` q → lookup_path p n' = slot_at p o.
Proof.
  revert p o n'. induction q as [|c q IH]; intros p o n' H Hp.
  - destruct p as [|a p]; [destruct Hp; apply prefix_nil|].
    destruct o as [[s|es]|]; simplify_eq/=; done.
  - destruct p as [|a p]; [destruct Hp; apply prefix_nil|].
    simpl in H. destruct o as [[s|es]|]; try discriminate.
    + destruct (mkdir_slot q (assoc c es)) as [ch|] eqn:E; simplify_eq.
      rewrite slot_at_cons. simpl.
      destruct (decide (c = a)) as [->|Hca].
      * rewrite assoc_set_entry_eq. eapply IH; [done|].
        intros Hpre. apply Hp. by apply prefix_cons.
      * rewrite assoc_set_entry_ne by done. by destruct (assoc a es).
    + destruct (mkdir_slot q None) as [ch|] eqn:E; simplify_eq. simpl.
      destruct (String.eqb_spec c a) as [->|Hca]; [|reflexivity].
      rewrite (IH p None ch E); [reflexivity|].
      intros Hpre. apply Hp. by apply prefix_cons.
Qed.

(** [mkdir -p] keeps every file. *)
Lemma mkdir_slot_file q p o n' c :
  mkdir_slot q o = Some n' → slot_at p o = Some (File c) →
  lookup_path p n' = Some (File c).
Proof.
  revert p o n'. induction q as [|a q IH]; intros p o n' H Hp.
  - destruct o as [[s|es]|]; simplify_eq/=; done.
  - simpl in H. destruct o as [[s|es]|]; try discriminate.
    destruct p as [|b p]; [simplify_eq/=|].
    destruct (mkdir_slot q (assoc a es)) as [ch|] eqn:E; simplify_eq.
    rewrite slot_at_cons in Hp. simpl.
    destruct (decide (a = b)) as [->|Hab].
    + rewrite assoc_set_entry_eq. eauto.
    + rewrite assoc_set_entry_ne by done. by destruct (assoc b es).
Qed.

Lemma update_path_frame q f t t' p :
  update_path q f t = Some t' →
  (* the slot held no directory before and holds none after *)
  (∀ es, lookup_path q t ≠ Some (Dir es)) →
  (∀ es, lookup_path q t' ≠ Some (Dir es)) →
  ¬ p `prefix_of` q → lookup_path p t' = lookup_path p t.
Proof.
  intros H Hb Ha Hp.
  destruct (path_trichotomy p q) as [?|[(c & r & ->)|Hd]]; [done| |].
  - rewrite <- !slot_at_Some, !slot_at_app, !slot_at_Some.
    destruct (lookup_path q t) as [[s|es]|] eqn:E1; [|by destruct (Hb es)|];
      (destruct (lookup_path q t') as [[s'|es']|] eqn:E2;
       [reflexivity|by destruct (Ha es')|reflexivity]).
  - by eapply lookup_update_path_diverge.
Qed.

Lemma write_file_frame q c t t' p :
  write_file q c t = Some t' → ¬ p `prefix_of` q →
  lookup_path p t' = lookup_path p t.
Proof.
  intros H. pose proof (lookup_update_path_same _ _ _ _ H) as Hs.
  eapply update_path_frame; [done| |].
  - intros es He. rewrite He in Hs. done.
  - intros es He. rewrite He in Hs.
    destruct (lookup_path q t) as [[|]|]; simplify_eq.
Qed.

Lemma lookup_write_file q c t t' :
  write_file q c t = Some t' → lookup_path q t' = Some (File c).
Proof.
  intros H. apply lookup_update_path_same in H.
  destruct (lookup_path q t) as [[|]|]; by simplify_eq.
Qed.

Lemma mkdir_fs_frame parents exist_ok q t t' p :
  mkdir_fs parents exist_ok q t = Some t' → ¬ p `prefix_of` q →
  lookup_path p t' = lookup_path p t.
Proof.
  unfold mkdir_fs. intros H Hp.
  destruct (lookup_path q t) as [[s|es]|] eqn:E; try discriminate.
  - destruct exist_ok; by simplify_eq.
  - destruct parents.
    + by eapply (mkdir_slot_frame q p (Some t)).
    + destruct (path_trichotomy p q) as [?|[(c & r & ->)|Hd]]; [done| |].
      * pose proof (lookup_update_path_same _ _ _ _ H) as Hs.
        assert (lookup_path q t' = Some (Dir [])) as Hq by (simpl in Hs; congruence).
        rewrite <- (slot_at_Some _ t'), <- (slot_at_Some _ t), !slot_at_app,
          !slot_at_Some, E, Hq. reflexivity.
      * by eapply lookup_update_path_diverge.
Qed.

Lemma prefix_snoc_cases (p q : Path) x :
  p `prefix_of` q ++ [x] → p `prefix_of` q ∨ p = q ++ [x].
Proof.
  intros [k Hk]. destruct k as [|y k _] using rev_ind.
  - right. by rewrite app_nil_r in Hk.
  - left. rewrite app_assoc in Hk. apply app_inj_tail in Hk as [-> _].
    by exists k.
Qed.

(** ** The set-up step and the run without a source (C7, C8) *)

Global Instance frame_preorder S : PreOrder (frame S).
Proof.
  split.
  - by intros w p _.
  - intros a b c Hab Hbc p Hp. by rewrite Hbc, Hab.
Qed.

Lemma frame_print S text : keeps (frame S) (print text).
Proof. by intros w r w' [= <- <-] p _. Qed.

Lemma frame_mkdir S pa ex q :
  (∀ p, S p → ¬ p `prefix_of` q) → keeps (frame S) (mkdir pa ex q).
Proof.
  intros HS w r w'. unfold mkdir, bind, get_fs, set_fs, emit, ret, raise.
  destruct (mkdir_fs pa ex q (fs w)) as [t'|] eqn:E.
  - destruct (path_exists q (fs w)); intros [= <- <-] p Hp; simpl;
      eapply mkdir_fs_frame; eauto.
  - by intros [= <- <-] p _.
Qed.

Lemma frame_write_text S q c :
  (∀ p, S p → ¬ p `prefix_of` q) → keeps (frame S) (write_text q c).
Proof.
  intros HS w r w'. unfold write_text, fs_op, bind, get_fs, set_fs, emit, raise.
  destruct (write_file q c (fs w)) as [t'|] eqn:E.
  - intros [= <- <-] p Hp; simpl. eapply write_file_frame; eauto.
  - by intros [= <- <-] p _.
Qed.

Lemma create_station_info_present output_dir name w :
  path_exists (output_dir // "stationGroupInfo.json") (fs w) = true →
  create_station_info output_dir name w = (Ret tt, w).
Proof. intros H. cbv [create_station_info bind exists_ get_fs ret]. by rewrite H. Qed.

Lemma setup_output_present output_dir w :
  path_exists (output_dir // "stationGroupInfo.json") (fs w) = true →
  setup_output output_dir w = (Ret tt, w).
Proof.
  intros H. unfold setup_output. cbv [bind exists_ get_fs ret].
  rewrite (path_exists_prefix _ _ _ H). simpl.
  by apply create_station_info_present.
Qed.

(** The events of the set-up: at most the group directory made, then at
    most the metadata file written. *)
Lemma setup_output_trace output_dir w r w' :
  setup_output output_dir w = (r, w') →
  let info_path := output_dir // "stationGroupInfo.json" in
  ∃ new, trace w' = trace w ++ new ∧
    (new = [] ∨ new = [EvMkdir output_dir] ∨
     (new = [EvWrite info_path station_info_json] ∧
      path_exists info_path (fs w) = false) ∨
     (new = [EvMkdir output_dir; EvWrite info_path station_info_json] ∧
      path_exists info_path (fs w) = false)).
Proof.
  unfold setup_output, create_station_info.
  cbv [bind exists_ get_fs ret raise mkdir write_text fs_op set_fs emit].
  set (info_path := output_dir // "stationGroupInfo.json").
  destruct (path_exists output_dir (fs w)) eqn:Eo; simpl.
  - destruct (path_exists info_path (fs w)) eqn:Ei; simpl.
    + intros [= <- <-]. exists []. rewrite app_nil_r. auto.
    + destruct (write_file info_path station_info_json (fs w)); intros [= <- <-]; simpl.
      * eexists. split; [done|]. auto.
      * exists []. rewrite app_nil_r. auto.
  - assert (path_exists info_path (fs w) = false) as Ei.
    { destruct (path_exists info_path (fs w)) eqn:Ei; [|done].
      apply path_exists_prefix in Ei. congruence. }
    destruct (mkdir_fs true false output_dir (fs w)) as [t1|]; simpl;
      rewrite ?Eo; simpl.
    + destruct (path_exists info_path t1) eqn:Ei1; simpl.
      * intros [= <- <-]. simpl. eexists. split; [done|]. auto.
      * destruct (write_file info_path station_info_json t1);
          intros [= <- <-]; simpl.
        -- rewrite <- app_assoc. eexists. split; [done|]. auto.
        -- eexists. split; [done|]. auto.
    + intros [= <- <-]. exists []. rewrite app_nil_r. auto.
Qed.

Lemma setup_output_frame output_dir :
  keeps (frame (λ p, ¬ p `prefix_of` output_dir ∧
                     p ≠ output_dir // "stationGroupInfo.json"))
    (setup_output output_dir).
Proof.
  unfold setup_output, create_station_info. keeps_auto.
  - apply frame_mkdir. by intros p [? _].
  - apply frame_write_text. intros p [Hp1 Hp2] Hpre.
    unfold joinpath in *. rewrite path_of_string_info in *.
    apply prefix_snoc_cases in Hpre as [?|?]; done.
Qed.

Lemma mkdir_slot_fresh q o n' :
  mkdir_slot q o = Some n' → slot_at q o = None → lookup_path q n' = Some (Dir []).
Proof.
  revert o n'. induction q as [|c q IH]; intros o n' Em Eo; simpl in *.
  - destruct o as [[|]|]; simpl in *; by simplify_eq.
  - destruct o as [[s|es]|]; try discriminate.
    + destruct (mkdir_slot q (assoc c es)) as [ch|] eqn:E; simplify_eq.
      rewrite slot_at_cons in Eo. rewrite assoc_set_entry_eq. eauto.
    + destruct (mkdir_slot q None) as [ch|] eqn:E; simplify_eq.
      simpl. rewrite String.eqb_refl. eauto.
Qed.

Lemma create_station_info_result output_dir name w w' :
  create_station_info output_dir name w = (Ret tt, w') →
  let info_path := output_dir // "stationGroupInfo.json" in
  path_exists info_path (fs w') = true ∧
  (path_exists info_path (fs w) = false →
   lookup_path info_path (fs w') = Some (File station_info_json)).
Proof.
  cbv [create_station_info bind exists_ get_fs ret raise write_text fs_op set_fs emit].
  set (info_path := output_dir // "stationGroupInfo.json").
  destruct (path_exists info_path (fs w)) eqn:Ei; simpl.
  - intros ?. by simplify_eq.
  - destruct (write_file info_path station_info_json (fs w)) as [t'|] eqn:Ew;
      intros ?; simplify_eq; simpl.
    apply lookup_write_file in Ew. unfold path_exists. by rewrite Ew.
Qed.

(** When the set-up ends well the metadata file is there. *)
Lemma setup_output_creates output_dir w w' :
  setup_output output_dir w = (Ret tt, w') →
  path_exists (output_dir // "stationGroupInfo.json") (fs w') = true.
Proof.
  unfold setup_output. intros H.
  apply bind_Ret_inv in H as (e & w0 & _ & H).
  apply bind_Ret_inv in H as ([] & w1 & _ & H).
  by apply create_station_info_result in H as [? _].
Qed.

Lemma setup_output_writes output_dir w w' :
  path_exists (output_dir // "stationGroupInfo.json") (fs w) = false →
  setup_output output_dir w = (Ret tt, w') →
  lookup_path (output_dir // "stationGroupInfo.json") (fs w')
    = Some (File station_info_json).
Proof.
  unfold setup_output. intros Hno H.
  apply bind_Ret_inv in H as (e & w0 & He & H).
  apply bind_Ret_inv in H as ([] & w1 & Hm & H).
  apply create_station_info_result in H as [_ H]. apply H. clear H.
  cbv [exists_ bind get_fs ret] in He. simplify_eq.
  destruct (path_exists output_dir (fs w0)) eqn:Eo; simpl in Hm.
  - cbv [ret] in Hm. by simplify_eq.
  - revert Hm. cbv [mkdir bind get_fs set_fs ret raise emit].
    destruct (mkdir_fs true false output_dir (fs w0)) as [t1|] eqn:Em; [|done].
    rewrite Eo. intros ?. simplify_eq. simpl.
    unfold mkdir_fs in Em. unfold path_exists in Eo.
    destruct (lookup_path output_dir (fs w0)) eqn:Eo'; [done|].
    apply mkdir_slot_fresh in Em; [|done].
    unfold path_exists, joinpath. rewrite path_of_string_info.
    rewrite <- slot_at_Some, slot_at_app, slot_at_Some, Em. done.
Qed.

Ltac Forall_auto :=
  repeat match goal with
         | |- Forall _ [] => constructor
         | |- Forall _ (_ :: _) => constructor; [auto|]
         end.

Lemma keeps_bind_val (R : relation World) `{!PreOrder R} {A B}
    (Q : A → Prop) (c : M A) (k : A → M B) :
  keeps R c → (∀ w a w1, c w = (Ret a, w1) → Q a) →
  (∀ a, Q a → keeps R (k a)) → keeps R (bind c k).
Proof.
  intros Hc HQ Hk w r w'. unfold bind.
  destruct (c w) as [[a|e] w1] eqn:E; intros H.
  - etrans; [by eapply Hc|]. eapply Hk; [|done]. eauto.
  - simplify_eq. by eapply Hc.
Qed.

(** The source [resolve_input] settles on names a temporary directory
    only on the auto-detect path, and then it is
    [temp_gta5_extraction], which is also the input directory. *)
Lemma resolve_input_temp reg tool args w src w1 :
  resolve_input reg tool args w = (Ret src, w1) →
  ∀ i p, src = Some (i, Some p) →
         i = temp_gta5_extraction ∧ p = temp_gta5_extraction.
Proof.
  unfold resolve_input. intros H i p ->.
  destruct (truthy_opt (input args)); [cbv [ret] in H; simplify_eq|].
  destruct (auto_detect args); cycle 1.
  { apply bind_Ret_inv in H as (? & ? & _ & H). cbv [ret] in H. simplify_eq. }
  apply bind_Ret_inv in H as (? & ? & _ & H).
  apply bind_Ret_inv in H as ([steam_path|] & ? & _ & H); cycle 1.
  { apply bind_Ret_inv in H as (? & ? & _ & H). cbv [ret] in H. simplify_eq. }
  apply bind_Ret_inv in H as (? & ? & _ & H).
  apply bind_Ret_inv in H as (libs & ? & _ & H).
  apply bind_Ret_inv in H as ([gta5_path|] & ? & _ & H); cycle 1.
  { apply bind_Ret_inv in H as (? & ? & _ & H). cbv [ret] in H. simplify_eq. }
  apply bind_Ret_inv in H as (? & ? & _ & H).
  destruct (truthy_opt (rpf_cli args)); cycle 1.
  { apply bind_Ret_inv in H as (? & ? & _ & H). cbv [ret] in H. simplify_eq. }
  do 6 (apply bind_Ret_inv in H as (? & ? & _ & H)).
  cbv [ret] in H. by simplify_eq.
Qed.

(** C8.  With neither an input directory (a missing or empty [--input])
    nor [--auto-detect], the run is the set-up step followed by the
    error message and nothing else: the only events are the creation of
    the group directory, the writing of the metadata file and the
    message, and every path other than the group directory, the
    directories above it and the metadata file holds after the run what
    it held before. *)
Theorem C8_no_source reg tool args w :
  truthy_opt (input args) = None → auto_detect args = false →
  let output_dir := path_of_string (output args) // "Grand Theft Auto V" in
  let info_path := output_dir // "stationGroupInfo.json" in
  let w' := (main reg tool args w).2 in
  main reg tool args w
  = (setup_output output_dir;;
     print "Error: Please provide --input or use --auto-detect.") w
  ∧ emits (λ e, e = EvMkdir output_dir ∨
                e = EvWrite info_path station_info_json ∨
                e = EvPrint "Error: Please provide --input or use --auto-detect.")
      w w'
  ∧ ∀ p, ¬ p `prefix_of` output_dir → p ≠ info_path →
         lookup_path p (fs w') = lookup_path p (fs w).
Proof.
  intros Hin Hauto output_dir info_path.
  assert (main reg tool args w
          = (setup_output output_dir;;
             print "Error: Please provide --input or use --auto-detect.") w) as Hmain.
  { unfold main, resolve_input. fold output_dir. rewrite Hin, Hauto.
    cbv [bind print emit ret organize_and_finish].
    by destruct (setup_output output_dir w) as [[[]|e] w1]. }
  simpl. rewrite Hmain. split; [done|].
  destruct ((setup_output output_dir;;
             print "Error: Please provide --input or use --auto-detect.") w)
    as [r w'] eqn:E. simpl. split.
  - revert E. apply keeps_bind; [apply _| |intros _].
    + intros w0 r0 w1 H0. apply setup_output_trace in H0 as (new & Hn & Hcase).
      exists new. split; [done|].
      destruct Hcase as [->|[->|[[-> _]|[-> _]]]]; Forall_auto.
    + apply keeps_print. auto.
  - intros p Hp1 Hp2.
    assert (keeps (frame (λ p, ¬ p `prefix_of` output_dir ∧ p ≠ info_path))
              (setup_output output_dir;;
               print "Error: Please provide --input or use --auto-detect.")) as K.
    { apply keeps_bind; [apply _|apply setup_output_frame|intros _].
      apply frame_print. }
    exact (K _ _ _ E p (conj Hp1 Hp2)).
Qed.

(** *** A file that stays as it is *)

Global Instance file_stays_preorder p c : PreOrder (file_stays p c).
Proof.
  split.
  - intros w H. exact H.
  - intros w1 w2 w3 H12 H23 H. apply H23, H12, H.
Qed.

Lemma prefix_cases (p q : Path) :
  p `prefix_of` q → p = q ∨ ∃ c r, q = p ++ c :: r.
Proof. intros [[|c r] ->]; [left; by rewrite app_nil_r|right; eauto]. Qed.

Lemma mkdir_fs_file pa ex q t t' p c :
  mkdir_fs pa ex q t = Some t' → lookup_path p t = Some (File c) →
  lookup_path p t' = Some (File c).
Proof.
  unfold mkdir_fs. intros H Hp.
  destruct (lookup_path q t) as [[s|es]|] eqn:E; try discriminate.
  - destruct ex; by simplify_eq.
  - destruct pa.
    + by eapply (mkdir_slot_file q p (Some t)).
    + destruct (path_trichotomy p q) as [Hpre|[(a & r & ->)|Hd]].
      * apply prefix_cases in Hpre as [->|(a & r & ->)]; [congruence|].
        unfold update_path in H.
        destruct (update_slot (p ++ a :: r) _ (Some t)) as [[v|]|] eqn:Eu;
          simplify_eq.
        apply update_slot_below in Eu as [[es Hes] _].
        rewrite slot_at_Some in Hes. congruence.
      * rewrite <- slot_at_Some, slot_at_app, slot_at_Some, E in Hp. done.
      * erewrite lookup_update_path_diverge; eauto.
Qed.

Lemma file_stays_print p c text : keeps (file_stays p c) (print text).
Proof. intros w r w' [= <- <-] H. exact H. Qed.

Lemma file_stays_mkdir p c pa ex q : keeps (file_stays p c) (mkdir pa ex q).
Proof.
  intros w r w'. unfold mkdir, bind, get_fs, set_fs, emit, ret, raise.
  destruct (mkdir_fs pa ex q (fs w)) as [t'|] eqn:E.
  - destruct (path_exists q (fs w)); intros [= <- <-] Hp; simpl;
      eapply mkdir_fs_file; eauto.
  - intros [= <- <-] H. exact H.
Qed.

Lemma file_stays_rmtree p c q :
  diverge p q → keeps (file_stays p c) (shutil_rmtree q).
Proof.
  intros Hd w r w'. unfold shutil_rmtree, fs_op, bind, get_fs, set_fs, emit, raise.
  destruct (rmtree q (fs w)) as [t'|] eqn:E.
  - intros [= <- <-] Hp; simpl. erewrite lookup_update_path_diverge; eauto.
  - intros [= <- <-] H. exact H.
Qed.

Lemma lookup_tool_leaves_diverge p out v t :
  diverge p out → lookup_path p (tool_leaves out v t) = lookup_path p t.
Proof.
  intros Hd. unfold tool_leaves.
  destruct (update_path out _ t) as [t'|] eqn:E; simpl; [|done].
  by eapply lookup_update_path_diverge.
Qed.

Lemma file_stays_run run_tool p c exe out inp :
  diverge p out → keeps (file_stays p c) (subprocess_run run_tool exe out inp).
Proof.
  intros Hd w r w'. unfold subprocess_run.
  cbv [bind emit get_fs set_fs ret raise].
  destruct (run_tool exe out inp) as [|code [v|]]; simpl.
  - intros [= <- <-] H. exact H.
  - destruct (code =? 0)%Z; intros [= <- <-] Hp; simpl;
      by rewrite lookup_tool_leaves_diverge.
  - destruct (code =? 0)%Z; intros [= <- <-] H; exact H.
Qed.

Lemma file_stays_setup_output output_dir c :
  keeps (file_stays (output_dir // "stationGroupInfo.json") c)
    (setup_output output_dir).
Proof.
  unfold setup_output.
  apply keeps_bind; [apply _|apply keeps_exists_, _|intros e].
  apply keeps_bind; [apply _| |intros _].
  - destruct (negb e); [apply file_stays_mkdir|apply keeps_ret, _].
  - intros w r w' H Hp.
    rewrite create_station_info_present in H; [by simplify_eq|].
    unfold path_exists. by rewrite Hp.
Qed.

(** No display name is the name of the metadata file. *)
Lemma station_name_not_info rpf station :
  (rpf, station) ∈ STATION_MAP → station ≠ "stationGroupInfo.json".
Proof.
  intros H.
  assert (Forall (λ e : string * string, e.2 ≠ "stationGroupInfo.json") STATION_MAP) as F.
  { unfold STATION_MAP. repeat constructor; discriminate. }
  rewrite Forall_forall in F. by apply (F (rpf, station)).
Qed.

Lemma diverge_hd (p q : Path) a b : hd_error p = Some a → hd_error q = Some b →
  a ≠ b → diverge p q.
Proof.
  destruct p as [|a' p], q as [|b' q]; intros; simplify_eq/=.
  by exists [], a, p, b, q.
Qed.

Lemma diverge_app (pre p q : Path) a b :
  a ≠ b → diverge (pre ++ a :: p) (pre ++ b :: q).
Proof. intros. by exists pre, a, p, b, q. Qed.

(** ** Paths that name different places *)

Lemma part_ways_diverge p q : part_ways p q = true → diverge p q.
Proof.
  revert q. induction p as [|a p IH]; intros [|b q] H; try done.
  simpl in H. destruct (decide (a = b)) as [->|Hab].
  - rewrite String.eqb_refl in H.
    destruct (IH _ H) as (pre & x & p' & y & q' & -> & -> & Hxy).
    by exists (b :: pre), x, p', y, q'.
  - by exists [], a, p, b, q.
Qed.

Lemma apart_diverge p q : apart p q = true → diverge p q.
Proof.
  unfold apart. intros [_ H]%andb_prop. by apply part_ways_diverge.
Qed.

Lemma not_above_not_prefix p q : above p q = false → ¬ p `prefix_of` q.
Proof.
  revert q. induction p as [|a p IH]; intros q H [k Hk]; [done|].
  destruct q as [|b q]; simplify_eq/=.
  rewrite String.eqb_refl in H. simpl in H. apply (IH _ H). by exists k.
Qed.

Lemma diverge_single (p : Path) a :
  diverge p [a] → ∃ h, hd_error p = Some h ∧ h ≠ a.
Proof.
  intros (pre & x & p' & y & q' & -> & Hq & Hxy).
  destruct pre as [|c pre]; simplify_eq/=; [eauto|].
  by destruct pre.
Qed.

Lemma diverge_not_prefix (p q : Path) : diverge p q → ¬ p `prefix_of` q.
Proof.
  intros (pre & a & p' & b & q' & -> & -> & Hab) [k Hk].
  rewrite <- app_assoc in Hk. apply app_inv_head in Hk. simpl in Hk. congruence.
Qed.

Lemma diverge_extend (a b p q : Path) :
  diverge a b → a `prefix_of` p → b `prefix_of` q → diverge p q.
Proof.
  intros (pre & x & a' & y & b' & -> & -> & Hxy) [k ->] [l ->].
  exists pre, x, (a' ++ k), y, (b' ++ l). by rewrite <- !app_assoc.
Qed.

Lemma prefix_joinpath (p : Path) s : p `prefix_of` p // s.
Proof. by eexists. Qed.



(** ** The clean-up (C3) *)

Lemma print_inv text w r w' :
  print text w = (r, w') → r = Ret tt ∧ fs w' = fs w.
Proof. by intros [= <- <-]. Qed.

Lemma cleanup_removes p w w' :
  cleanup (Some p) w = (Ret tt, w') → path_exists p (fs w') = false.
Proof.
  cbv [cleanup bind exists_ get_fs ret print emit shutil_rmtree fs_op set_fs raise].
  destruct (path_exists p (fs w)) eqn:E; simpl.
  - destruct (rmtree p (fs w)) as [t'|] eqn:Er; [|done].
    intros ?. simplify_eq. simpl.
    unfold path_exists. by rewrite (lookup_rmtree _ _ _ Er).
  - intros ?. by simplify_eq.
Qed.

Lemma group_dir_not_temp (x : Path) (rest : Path) :
  x ++ "Grand Theft Auto V" :: rest ≠ temp_gta5_extraction.
Proof.
  rewrite temp_gta5_extraction_eq. destruct x as [|a [|b x]]; simpl; try done.
Qed.

Lemma emits_print_any P text w r w' :
  (∀ t, P (EvPrint t)) → print text w = (r, w') → emits P w w'.
Proof. intros HP H. by eapply keeps_print. Qed.

(** Unless [resolve_input] settles on the temporary directory, it has
    not created it. *)
Lemma resolve_input_no_temp reg tool args w src w1 :
  resolve_input reg tool args w = (Ret src, w1) →
  (∀ i p, src ≠ Some (i, Some p)) →
  emits not_mkdir_temp w w1.
Proof.
  assert (∀ t, not_mkdir_temp (EvPrint t)) as HP by done.
  unfold resolve_input. intros H Hsrc.
  destruct (truthy_opt (input args)).
  { cbv [ret] in H. simplify_eq. reflexivity. }
  destruct (auto_detect args); cycle 1.
  { revert H. apply keeps_bind; [apply _|by apply keeps_print|intros _].
    apply keeps_ret, _. }
  apply bind_Ret_inv in H as (? & wa & Ha & H).
  apply (emits_print_any _ _ _ _ _ HP) in Ha.
  apply bind_Ret_inv in H as ([steam_path|] & wb & Hb & H); cycle 1.
  { apply (keeps_get_steam_path _ _ (λ t, keeps_print _ t (HP t))) in Hb.
    etrans; [done|]. etrans; [done|]. revert H.
    apply keeps_bind; [apply _|by apply keeps_print|intros _]. apply keeps_ret, _. }
  apply (keeps_get_steam_path _ _ (λ t, keeps_print _ t (HP t))) in Hb.
  apply bind_Ret_inv in H as (? & wc & Hc & H).
  apply (emits_print_any _ _ _ _ _ HP) in Hc.
  apply bind_Ret_inv in H as (libs & wd & Hd & H).
  apply (keeps_parse_library_folders _ (λ t, keeps_print _ t (HP t))) in Hd.
  apply bind_Ret_inv in H as ([gta5_path|] & we & He & H); cycle 1.
  { apply (keeps_find_gta5_install _ (λ t, keeps_print _ t (HP t))) in He.
    do 5 (etrans; [done|]). revert H.
    apply keeps_bind; [apply _|by apply keeps_print|intros _]. apply keeps_ret, _. }
  apply (keeps_find_gta5_install _ (λ t, keeps_print _ t (HP t))) in He.
  apply bind_Ret_inv in H as (? & wf & Hf & H).
  apply (emits_print_any _ _ _ _ _ HP) in Hf.
  destruct (truthy_opt (rpf_cli args)); cycle 1.
  { do 6 (etrans; [done|]). revert H.
    apply keeps_bind; [apply _|by apply keeps_print|intros _]. apply keeps_ret, _. }
  do 6 (apply bind_Ret_inv in H as (? & ? & _ & H)).
  cbv [ret] in H. simplify_eq. by destruct (Hsrc temp_gta5_extraction temp_gta5_extraction).
Qed.

(** C3 as it holds.  In a run of [main] that returns, if the temporary
    extraction directory was created during the run then it does not
    exist when the run ends; conversions that exit with a failure
    status do not prevent this. *)
Theorem C3_temp_removed_when_main_returns reg tool args w w' :
  main reg tool args w = (Ret tt, w') →
  (∃ new, trace w' = trace w ++ new ∧ EvMkdir temp_gta5_extraction ∈ new) →
  path_exists temp_gta5_extraction (fs w') = false.
Proof.
  unfold main. set (output_dir := path_of_string (output args) // "Grand Theft Auto V").
  intros H (new & Hnew & Hin).
  apply bind_Ret_inv in H as ([] & w0 & H0 & H).
  apply bind_Ret_inv in H as (src & w1 & H1 & H).
  assert (∀ t, keeps (emits not_mkdir_temp) (print t)) as HP.
  { intros t. by apply keeps_print. }
  assert (emits not_mkdir_temp w w0) as E0.
  { apply setup_output_trace in H0 as (first & Ht & Hcase).
    exists first. split; [done|].
    assert (not_mkdir_temp (EvMkdir output_dir)).
    { unfold not_mkdir_temp, output_dir, joinpath.
      rewrite path_of_string_group. intros [= Heq].
      by apply group_dir_not_temp in Heq. }
    destruct Hcase as [->|[->|[[-> _]|[-> _]]]]; Forall_auto; done. }
  assert (∀ temp,
    (∀ p, temp = Some p → False) →
    ∀ i, keeps (emits not_mkdir_temp)
      (organize_and_finish tool (vgmstream args) output_dir (Some (i, temp)))) as Hfin.
  { intros temp Htemp i.
    apply keeps_organize_and_finish
      with (ok_mkdir := λ p, not_mkdir_temp (EvMkdir p)) (ok_rmtree := λ _, True)
           (ok_run := λ _ _ _, True);
      [apply _|done|intros; by apply emits_mkdir|intros; by apply emits_rmtree
      |intros; by apply emits_run| |done].
    intros rpf station Hs. unfold not_mkdir_temp, output_dir, joinpath.
    rewrite path_of_string_group, path_of_string_songs.
    rewrite <- !app_assoc.
    split; [|split; [|done]]; intros [= Heq]; by apply group_dir_not_temp in Heq. }
  assert (emits not_mkdir_temp w w' → False) as Hcontra.
  { intros (new' & Hnew' & Hall). rewrite Hnew in Hnew'.
    apply app_inv_head in Hnew'. subst new'.
    rewrite Forall_forall in Hall. by apply (Hall _ Hin). }
  destruct src as [[i [p|]]|].
  - destruct (resolve_input_temp _ _ _ _ _ _ H1 i p eq_refl) as [-> ->].
    clear Hfin Hcontra. unfold organize_and_finish in H.
    apply bind_Ret_inv in H as (e & w2 & He & H).
    cbv [exists_ bind get_fs ret] in He. simplify_eq.
    destruct (path_exists temp_gta5_extraction (fs w2)) eqn:Ee; cbn [negb] in H.
    + apply bind_Ret_inv in H as (? & w3 & _ & H).
      apply bind_Ret_inv in H as ([] & w4 & Hc & H).
      apply cleanup_removes in Hc.
      apply bind_Ret_inv in H as (? & w5 & H5 & H). apply print_inv in H5 as [_ H5].
      apply bind_Ret_inv in H as (? & w6 & H6 & H). apply print_inv in H6 as [_ H6].
      apply print_inv in H as [_ H]. by rewrite H, H6, H5.
    + apply bind_Ret_inv in H as (? & w3 & H3 & H). apply print_inv in H3 as [_ H3].
      cbv [ret] in H. simplify_eq. by rewrite H3.
  - destruct Hcontra. etrans; [done|]. etrans.
    + eapply resolve_input_no_temp; [done|]. intros ? ? [=].
    + eapply Hfin; [|done]. intros ? [=].
  - destruct Hcontra. etrans; [done|]. etrans.
    + eapply resolve_input_no_temp; [done|]. intros ? ? [=].
    + cbv [organize_and_finish ret] in H. simplify_eq. reflexivity.
Qed.

(** A run on the auto-detect path: the temporary directory is created,
    the organizer cannot make the first station's output directory
    because a regular file has its name, the error leaves [main] and the
    temporary directory stays. *)
Lemma C3_counterexample :
  let '(r, w') :=
    main (Some "C:\Steam") Sample.tools Sample.auto_args
      (mkWorld Sample.disk_blocked []) in
  r = Raise OSError
  ∧ EvMkdir temp_gta5_extraction ∈ trace w'
  ∧ path_exists temp_gta5_extraction (fs w') = true.
Proof.
  vm_compute. split; [reflexivity|]. split; [|reflexivity].
  repeat first [apply list_elem_of_here | apply list_elem_of_further].
Qed.

(** ** The expansion-pack scan (C9) *)

(** [extract_rpf] never raises: it announces the archive, runs the
    command, and reports a failure by a message and [False]. *)
Lemma extract_rpf_spec run_tool exe rpf_file out w :
  ∃ b msgs,
    extract_rpf run_tool exe rpf_file out w
    = (Ret b,
       mkWorld (fs_after_run run_tool exe out rpf_file (fs w))
         (trace w
          ++ EvPrint ("Extracting " +:+ path_name rpf_file +:+ "...")
             :: EvRun exe out rpf_file :: msgs))
    ∧ Forall (λ e, is_print e = true) msgs
    ∧ (b = true ↔ ∃ v, run_tool exe out rpf_file = Exited 0 v).
Proof.
  unfold extract_rpf, fs_after_run, subprocess_run.
  cbv [try_except bind print emit ret raise get_fs set_fs]. simpl.
  destruct (run_tool exe out rpf_file) as [|code [v|]]; simpl.
  - eexists false, [_]. rewrite <- !app_assoc. split; [done|].
    split; [by repeat constructor|]. split; [done|]. by intros [? ?].
  - destruct (Z.eqb_spec code 0) as [->|Hc]; simpl.
    + exists true, []. rewrite <- !app_assoc. split; [done|].
      split; [constructor|]. split; eauto.
    + eexists false, [_]. rewrite <- !app_assoc. split; [done|].
      split; [by repeat constructor|]. split; [done|]. intros [? ?]. congruence.
  - destruct (Z.eqb_spec code 0) as [->|Hc]; simpl.
    + exists true, []. rewrite <- !app_assoc. split; [done|].
      split; [constructor|]. split; eauto.
    + eexists false, [_]. rewrite <- !app_assoc. split; [done|].
      split; [by repeat constructor|]. split; [done|]. intros [? ?]. congruence.
Qed.

(** A slot directly under an existing directory can be rewritten. *)
Lemma update_slot_child p c f o es r :
  slot_at p o = Some (Dir es) → f (assoc c es) = Some r →
  ∃ o', update_slot (p ++ [c]) f o = Some o'.
Proof.
  revert o. induction p as [|a p IH]; intros o Hp Hf; simpl in *.
  - destruct o as [[s|es']|]; simplify_eq/=. rewrite Hf. destruct r; eauto.
  - destruct o as [[s|es']|]; try done. rewrite slot_at_cons in Hp.
    destruct (IH _ Hp Hf) as [o' ->]. destruct o'; eauto.
Qed.

(** What a tool leaves in a fresh slot of a directory is there
    afterwards. *)
Lemma tool_leaves_fresh p c v t :
  path_is_dir p t = true → path_exists (p ++ [c]) t = false →
  lookup_path (p ++ [c]) (tool_leaves (p ++ [c]) v t) = Some v.
Proof.
  unfold path_is_dir, path_exists, tool_leaves, update_path. intros Hd Hn.
  destruct (lookup_path p t) as [[|es]|] eqn:Ep; try done.
  assert (assoc c es = None) as Hc.
  { rewrite <- (slot_at_Some _ t), slot_at_app, slot_at_Some, Ep in Hn.
    rewrite slot_at_cons in Hn. by destruct (assoc c es). }
  edestruct (update_slot_child p c
               (λ o, match o, v with
                     | Some (Dir _), File _ => None
                     | _, _ => Some (Some v)
                     end) (Some t) es (Some v)) as [o' Ho']; [done|by rewrite Hc|].
  rewrite Ho'. pose proof (update_slot_same _ _ _ _ Ho') as Hs.
  rewrite slot_at_app, slot_at_Some, Ep, slot_at_cons, Hc in Hs. simpl in Hs.
  destruct o' as [t'|]; simplify_eq/=.
  by rewrite <- slot_at_Some.
Qed.

Lemma tool_leaves_keeps_dir p c v t :
  path_is_dir p t = true → path_is_dir p (tool_leaves (p ++ [c]) v t) = true.
Proof.
  unfold tool_leaves, update_path. intros Hd.
  destruct (update_slot (p ++ [c]) _ (Some t)) as [[t'|]|] eqn:E; simpl; try done.
  apply update_slot_below in E as [_ [es' He]].
  unfold path_is_dir. rewrite <- slot_at_Some, He. done.
Qed.

Lemma fs_after_run_keeps_dir run_tool exe p c inp t :
  path_is_dir p t = true →
  path_is_dir p (fs_after_run run_tool exe (p ++ [c]) inp t) = true.
Proof.
  intros H. unfold fs_after_run.
  destruct (run_tool exe (p ++ [c]) inp) as [|code [v|]]; try done.
  by apply tool_leaves_keeps_dir.
Qed.

Lemma fs_after_run_sibling run_tool exe p c c' inp t :
  c ≠ c' →
  lookup_path (p ++ [c]) (fs_after_run run_tool exe (p ++ [c']) inp t)
  = lookup_path (p ++ [c]) t.
Proof.
  intros H. unfold fs_after_run.
  destruct (run_tool exe (p ++ [c']) inp) as [|code [v|]]; try done.
  apply lookup_tool_leaves_diverge. by apply diverge_app.
Qed.

(** Splitting a concatenation around one of its elements. *)
Lemma app_split_at {A} (n1 n2 l1 l2 : list A) (e : A) :
  n1 ++ n2 = l1 ++ e :: l2 →
  (∃ k, n1 = l1 ++ e :: k ∧ l2 = k ++ n2) ∨
  (∃ k, n2 = k ++ e :: l2 ∧ l1 = n1 ++ k).
Proof.
  intros H. apply app_eq_inv in H as [(k & -> & Hk)|(k & -> & Hk)].
  - destruct k as [|x k]; simplify_eq/=.
    + right. exists []. by rewrite !app_nil_r.
    + left. eauto.
  - right. eauto.
Qed.

Section Scan.
Context (run_tool : string → Path → Path → proc_result).
Context (temp : Path) (k : string).

Global Instance scan_ok_preorder : PreOrder (scan_ok run_tool temp k).
Proof.
  split.
  - intros w Hd. split; [done|]. exists []. rewrite app_nil_r.
    split; [done|]. split; [by intros l1 e l2 H%app_cons_not_nil|].
    split; [by constructor|]. intros [?|H%Exists_nil]; done.
  - intros w1 w2 w3 H12 H23 Hd.
    destruct (H12 Hd) as (Hd2 & n1 & E1 & S1 & A1 & B1).
    destruct (H23 Hd2) as (Hd3 & n2 & E2 & S2 & A2 & B2).
    split; [done|]. exists (n1 ++ n2).
    split; [by rewrite E2, E1, app_assoc|]. split; [|split].
    + intros l1 e l2 Hsplit Hr Hl.
      apply app_split_at in Hsplit as [(m & -> & ->)|(m & -> & ->)].
      * apply Forall_app. split; [by eapply S1|].
        apply A2, B1. right. apply Exists_app. right. by left.
      * by eapply S2.
    + intros He. apply Forall_app. split; [by apply A1|].
      apply A2, B1. by left.
    + intros [He|Hx].
      * apply B2. left. apply B1. by left.
      * apply Exists_app in Hx as [Hx|Hx].
        -- apply B2. left. apply B1. by right.
        -- apply B2. by right.
Qed.

Lemma scan_ok_extract_dlc_file exe root file :
  keeps (scan_ok run_tool temp k) (extract_dlc_file run_tool exe temp root file).
Proof.
  intros w r w'. unfold extract_dlc_file.
  destruct (startswith _ _ && endswith _ _); [|intros [= <- <-]; reflexivity].
  destruct (in_station_map _) eqn:Ein; [|intros [= <- <-]; reflexivity].
  apply bool_decide_eq_true in Ein.
  set (k' := upper (drop_last 4 file)) in *.
  cbv zeta.
  replace (temp // k') with (temp ++ [k'])
    by (unfold joinpath; by rewrite (path_of_string_station_key _ Ein)).
  cbv [bind exists_ get_fs ret].
  destruct (path_exists (temp ++ [k']) (fs w)) eqn:Ex; simpl;
    [intros [= <- <-]; reflexivity|].
  destruct (extract_rpf_spec run_tool exe (root // file) (temp ++ [k']) w)
    as (b & msgs & -> & Hmsgs & _).
  intros [= <- <-] Hd. simpl.
  split; [by apply fs_after_run_keeps_dir|].
  eexists. split; [done|].
  assert (Forall (λ e, runs_to (temp ++ [k]) e = false) msgs) as Hm.
  { eapply Forall_impl; [done|]. by intros [] ?. }
  destruct (decide (k' = k)) as [->|Hne].
  - split; [|split].
    + intros l1 e l2 Hsplit Hr Hl.
      destruct l1 as [|e1 l1]; simplify_eq/=.
      destruct l1 as [|e2 l1]; simplify_eq/=; [done|].
      apply Forall_app in Hm as [_ Hm]. apply Forall_cons in Hm as [Hm _].
      congruence.
    + intros He. congruence.
    + intros [He|Hx]; [congruence|].
      apply Exists_cons in Hx as [[? ?]|Hx]; [done|].
      apply Exists_cons in Hx as [[_ Hl]|Hx].
      * simpl in Hl. unfold fs_after_run.
        destruct (run_tool exe (temp ++ [k]) (root // file)) as [|code [v|]];
          try done.
        unfold path_exists. by rewrite tool_leaves_fresh.
      * apply Exists_exists in Hx as (e & He & Hr & _).
        rewrite Forall_forall in Hm. rewrite (Hm _ He) in Hr. done.
  - assert (runs_to (temp ++ [k]) (EvRun exe (temp ++ [k']) (root // file)) = false)
      as Hrun.
    { simpl. apply bool_decide_eq_false. intros Heq.
      apply app_inv_head in Heq. congruence. }
    assert (Forall (λ e, runs_to (temp ++ [k]) e = false)
              (EvPrint ("Extracting " +:+ path_name (root // file) +:+ "...")
               :: EvRun exe (temp ++ [k']) (root // file) :: msgs)) as Hall.
    { by repeat constructor. }
    split; [|split].
    + intros l1 e l2 Hsplit Hr Hl.
      assert (e ∈ EvPrint ("Extracting " +:+ path_name (root // file) +:+ "...")
               :: EvRun exe (temp ++ [k']) (root // file) :: msgs) as He
        by (rewrite Hsplit; apply elem_of_app; right; left).
      rewrite Forall_forall in Hall. rewrite (Hall _ He) in Hr. done.
    + done.
    + intros [He|Hx].
      * unfold path_exists in *. by rewrite fs_after_run_sibling.
      * apply Exists_exists in Hx as (e & He & Hr & _).
        rewrite Forall_forall in Hall. rewrite (Hall _ He) in Hr. done.
Qed.

Lemma scan_ok_extract_dlc_walk exe walk :
  keeps (scan_ok run_tool temp k) (extract_dlc_walk run_tool exe temp walk).
Proof.
  unfold extract_dlc_walk.
  apply keeps_for_each; [apply _|]. intros [[root dirs] files] _.
  apply keeps_for_each; [apply _|]. intros file _.
  apply scan_ok_extract_dlc_file.
Qed.

End Scan.

Lemma emits_extract_dlc_walk run_tool exe temp walk :
  keeps (emits (dlc_event exe temp)) (extract_dlc_walk run_tool exe temp walk).
Proof.
  unfold extract_dlc_walk.
  apply keeps_for_each; [apply _|]. intros [[root dirs] files] _.
  apply keeps_for_each; [apply _|]. intros file _.
  unfold extract_dlc_file.
  destruct (startswith _ _ && endswith _ _) eqn:E1; [|apply keeps_ret, _].
  destruct (in_station_map _) eqn:E2; [|apply keeps_ret, _].
  apply andb_true_iff in E1 as [E1 E1']. apply bool_decide_eq_true in E2.
  keeps_auto.
  apply keeps_extract_rpf with (ok_run := λ e o i, dlc_event exe temp (EvRun e o i));
    [apply _|intros; by apply emits_print|intros; by apply emits_run|].
  split; [done|]. exists root, file. repeat (split; [done|]).
  unfold joinpath. by rewrite path_of_string_station_key.
Qed.

(** C9 as it holds.  Scanning a listing of the expansion packs with
    [temp] a directory:
    - only archive files that pass the name tests and name a known
      identifier are extracted, each into [temp/<identifier>];
    - after an extraction that left something at [temp/<identifier>],
      no later file of the scan is extracted for that identifier;
    - an identifier whose directory exists when the scan starts is not
      extracted at all;
    and, for one file at any moment of the scan, a matching file whose
    directory exists is skipped without any effect, and one whose
    directory does not exist is handed to the extractor, whatever
    happened to earlier files with the same identifier. *)
Theorem C9_dlc_scan run_tool exe temp walk w r w' :
  path_is_dir temp (fs w) = true →
  extract_dlc_walk run_tool exe temp walk w = (r, w') →
  (∃ new, trace w' = trace w ++ new ∧
     Forall (dlc_event exe temp) new ∧
     (∀ k, settled run_tool temp k new) ∧
     (∀ k, path_exists (temp ++ [k]) (fs w) = true →
           Forall (λ e, runs_to (temp ++ [k]) e = false) new))
  ∧ (∀ root file w0,
       path_exists (temp // upper (drop_last 4 file)) (fs w0) = true →
       extract_dlc_file run_tool exe temp root file w0 = (Ret tt, w0))
  ∧ (∀ root file w0,
       startswith (upper file) "RADIO_" && endswith (lower file) ".rpf" = true →
       in_station_map (upper (drop_last 4 file)) = true →
       path_exists (temp // upper (drop_last 4 file)) (fs w0) = false →
       ∃ w1 msgs,
         extract_dlc_file run_tool exe temp root file w0 = (Ret tt, w1) ∧
         trace w1 = trace w0
                    ++ EvPrint ("Extracting " +:+ path_name (root // file) +:+ "...")
                       :: EvRun exe (temp // upper (drop_last 4 file)) (root // file)
                       :: msgs).
Proof.
  intros Hd Hrun. split; [|split].
  - destruct (emits_extract_dlc_walk _ _ _ _ _ _ _ Hrun) as (new & Hnew & Hall).
    exists new. do 2 (split; [done|]). split.
    + intros k.
      destruct (scan_ok_extract_dlc_walk run_tool temp k exe walk _ _ _ Hrun Hd)
        as (_ & new' & Hnew' & Hs & _).
      rewrite Hnew in Hnew'. by apply app_inv_head in Hnew' as <-.
    + intros k Hk.
      destruct (scan_ok_extract_dlc_walk run_tool temp k exe walk _ _ _ Hrun Hd)
        as (_ & new' & Hnew' & _ & Ha & _).
      rewrite Hnew in Hnew'. apply app_inv_head in Hnew' as <-. auto.
  - intros root file w0 Hex. unfold extract_dlc_file.
    destruct (startswith _ _ && endswith _ _); [|done].
    destruct (in_station_map _); [|done].
    cbv [bind exists_ get_fs ret]. by rewrite Hex.
  - intros root file w0 H1 H2 Hex. unfold extract_dlc_file.
    rewrite H1, H2. cbv [bind exists_ get_fs ret]. rewrite Hex. simpl.
    destruct (extract_rpf_spec run_tool exe (root // file)
                (temp // upper (drop_last 4 file)) w0)
      as (b & msgs & -> & _ & _).
    by eexists _, msgs.
Qed.

(** A run of [main] on the auto-detect path in which two expansion
    packs hold an archive of the same station and the extraction of the
    first one found fails, leaving nothing: the extractor is then run
    on the second one too, for the same identifier. *)
Lemma C9_counterexample :
  List.filter (runs_to ["temp_gta5_extraction"; "RADIO_21_DLC_XM17"])
    (trace (main (Some "C:\Steam") Sample.tools Sample.auto_args
              (mkWorld Sample.disk [])).2)
  = [ EvRun "rpf" ["temp_gta5_extraction"; "RADIO_21_DLC_XM17"]
        (Sample.dlc_root ++ ["packA"; "radio_21_dlc_xm17.rpf"]);
      EvRun "rpf" ["temp_gta5_extraction"; "RADIO_21_DLC_XM17"]
        (Sample.dlc_root ++ ["packB"; "RADIO_21_DLC_XM17.RPF"]) ].
Proof. vm_compute. reflexivity. Qed.

Lemma C9_witness :
  let run :=
    extract_dlc_walk Sample.tools "rpf" temp_gta5_extraction
      (os_walk Sample.dlc_root Sample.disk_temp) (mkWorld Sample.disk_temp []) in
  ∃ new, trace run.2 = [] ++ new ∧
     Forall (dlc_event "rpf" temp_gta5_extraction) new ∧
     (∀ k, settled Sample.tools temp_gta5_extraction k new) ∧
     (∀ k, path_exists (temp_gta5_extraction ++ [k]) Sample.disk_temp = true →
           Forall (λ e, runs_to (temp_gta5_extraction ++ [k]) e = false) new).
Proof.
  intros run.
  refine (proj1 (C9_dlc_scan Sample.tools "rpf" temp_gta5_extraction
            (os_walk Sample.dlc_root Sample.disk_temp)
            (mkWorld Sample.disk_temp []) run.1 run.2 _ _)).
  - reflexivity.
  - apply surjective_pairing.
Defined.

(** ** Converting the files of a station folder (C1, C2) *)

(** A conversion whose process exits non-zero is reported as [False]. *)
Lemma convert_awc_nonzero_exit run_tool exe inp out code produced w :
  run_tool exe out inp = Exited code produced → code ≠ 0%Z →
  ∃ w', convert_awc run_tool exe inp out w = (Ret false, w').
Proof.
  intros Hr Hc. unfold convert_awc, subprocess_run.
  cbv [try_except bind emit print ret raise get_fs set_fs]. rewrite Hr.
  apply Z.eqb_neq in Hc. destruct produced; simpl; rewrite Hc; eauto.
Qed.

Lemma convert_awc_exit_zero run_tool exe inp out produced w :
  run_tool exe out inp = Exited 0 produced →
  ∃ w', convert_awc run_tool exe inp out w = (Ret true, w').
Proof.
  intros Hr. unfold convert_awc, subprocess_run.
  cbv [try_except bind emit print ret raise get_fs set_fs]. rewrite Hr.
  destruct produced; simpl; eauto.
Qed.

(** A conversion whose process cannot be launched raises. *)
Lemma convert_awc_launch_failed run_tool exe inp out w :
  run_tool exe out inp = LaunchFailed →
  convert_awc run_tool exe inp out w
  = (Raise OSError, mkWorld (fs w) (trace w ++ [EvRun exe out inp])).
Proof.
  intros Hr. unfold convert_awc, subprocess_run.
  cbv [try_except bind emit print ret raise get_fs set_fs]. by rewrite Hr.
Qed.

(** The organizer's example: of [track1.AWC], [track2.awc] and
    [notes.txt] exactly the first two are converted, to [track1.wav] and
    [track2.wav]. *)
Example organize_three_files :
  let w' := (main None Sample.tools Sample.input_args (mkWorld Sample.disk_three [])).2 in
  List.filter is_run (trace w')
  = [ EvRun "vgm" ["out"; "Grand Theft Auto V"; "Non-Stop-Pop FM"; "Songs"; "track1.wav"]
        ["in"; "RADIO_02_POP"; "track1.AWC"];
      EvRun "vgm" ["out"; "Grand Theft Auto V"; "Non-Stop-Pop FM"; "Songs"; "track2.wav"]
        ["in"; "RADIO_02_POP"; "track2.awc"] ]
  ∧ lookup_path ["out"; "Grand Theft Auto V"; "Non-Stop-Pop FM"; "Songs"] (fs w')
    = Some (Dir [ ("track1.wav", File "wav of in\RADIO_02_POP\track1.AWC");
                  ("track2.wav", File "wav of in\RADIO_02_POP\track2.awc") ]).
Proof. vm_compute. split; reflexivity. Qed.

(** C1, where the code departs from it.  A file named [pop.Awc] passes
    the test that selects container files, yet the name computed for its
    conversion is [pop.Awc] itself: only the spellings [.awc] and [.AWC]
    are replaced.  The replacement also reaches inside the name:
    [live.awc.mix.AWC] becomes [live.wav.mix.wav].  Organizing a folder
    that holds [pop.Awc] runs the transcoder with the output path
    [Songs/pop.Awc]. *)
Theorem C1_mixed_case_extension_kept :
  is_awc "pop.Awc" = true
  ∧ output_filename "pop.Awc" = "pop.Awc"
  ∧ output_filename "live.awc.mix.AWC" = "live.wav.mix.wav"
  ∧ List.filter is_run
      (trace (main None Sample.tools Sample.input_args
                (mkWorld (Dir [("in", Dir [("RADIO_02_POP.rpf",
                                            Dir [("pop.Awc", File "p")])])]) [])).2)
    = [ EvRun "vgm"
          ["out"; "Grand Theft Auto V"; "Non-Stop-Pop FM"; "Songs"; "pop.Awc"]
          ["in"; "RADIO_02_POP.rpf"; "pop.Awc"] ].
Proof. vm_compute. repeat split; reflexivity. Qed.

(** C2, where the code departs from it.  With a transcoder that cannot
    be launched, [convert_awc] raises instead of returning [False];
    [extract_rpf], written with the same pattern plus a catch-all
    handler, returns [False] in the same situation.  The error leaves
    [process_station_folder] and [main]: of the three container files of
    the folder only the first is attempted, and the closing messages are
    never printed. *)
Theorem C2_launch_failure_escapes :
  Sample.tools "missing" ["o.wav"] ["i.awc"] = LaunchFailed
  ∧ (convert_awc Sample.tools "missing" ["i.awc"] ["o.wav"] (mkWorld (Dir []) [])).1
    = Raise OSError
  ∧ (extract_rpf Sample.tools "missing" ["i.rpf"] ["o"] (mkWorld (Dir []) [])).1
    = Ret false
  ∧ (let run :=
       main None Sample.tools (mkArgs (Some "in") "out" "missing" None false)
         (mkWorld Sample.disk_input []) in
     run.1 = Raise OSError
     ∧ List.filter is_run (trace run.2)
       = [ EvRun "missing"
             ["out"; "Grand Theft Auto V"; "Los Santos Rock Radio"; "Songs"; "track1.wav"]
             ["in"; "radio_01_class_rock"; "track1.AWC"] ]).
Proof. vm_compute. repeat split; reflexivity. Qed.

(** A slot that exists can be rewritten. *)
Lemma update_slot_present q f o n r :
  slot_at q o = Some n → f (Some n) = Some r →
  ∃ o', update_slot q f o = Some o'.
Proof.
  revert o. induction q as [|c q IH]; intros o Hq Hf; simpl in *.
  - destruct o; simplify_eq/=. eauto.
  - destruct o as [[s|es]|]; try done. rewrite slot_at_cons in Hq.
    destruct (IH _ Hq Hf) as [o' ->]. destruct o'; eauto.
Qed.

(** What a tool leaves over an existing file is there afterwards. *)
Lemma tool_leaves_over_file out c v t :
  lookup_path out t = Some (File c) →
  lookup_path out (tool_leaves out v t) = Some v.
Proof.
  intros Hc. unfold tool_leaves, update_path.
  edestruct (update_slot_present out
               (λ o, match o, v with
                     | Some (Dir _), File _ => None
                     | _, _ => Some (Some v)
                     end) (Some t) (File c) (Some v)) as [o' Ho']; [done..|].
  rewrite Ho'. apply update_slot_same in Ho'.
  rewrite slot_at_Some, Hc in Ho'. destruct o' as [t'|]; simplify_eq/=.
  by rewrite <- slot_at_Some.
Qed.

(** The whole folder of the samples: [track2.awc] lies both at the top
    and under [disc2]; both conversions write [Songs/track2.wav], and
    what remains is the output of the later one. *)
Example flatten_station_folder :
  let w' := (main None Sample.tools Sample.input_args (mkWorld Sample.disk_input [])).2 in
  List.filter (runs_to ["out"; "Grand Theft Auto V"; "Los Santos Rock Radio"; "Songs";
                        "track2.wav"]) (trace w')
  = [ EvRun "vgm" ["out"; "Grand Theft Auto V"; "Los Santos Rock Radio"; "Songs"; "track2.wav"]
        ["in"; "radio_01_class_rock"; "track2.awc"];
      EvRun "vgm" ["out"; "Grand Theft Auto V"; "Los Santos Rock Radio"; "Songs"; "track2.wav"]
        ["in"; "radio_01_class_rock"; "disc2"; "track2.awc"] ]
  ∧ lookup_path ["out"; "Grand Theft Auto V"; "Los Santos Rock Radio"; "Songs"; "track2.wav"]
      (fs w')
    = Some (File "wav of in\radio_01_class_rock\disc2\track2.awc").
Proof. vm_compute. split; reflexivity. Qed.

(** ** Renaming the extension *)

#[local] Arguments String.append : simpl nomatch.

Lemma append_assoc a b c : (a +:+ b) +:+ c = a +:+ (b +:+ c).
Proof. induction a as [|x a IH]; simpl; [done|]. by rewrite IH. Qed.

Lemma rev_app_append a b acc :
  String.rev_app (a +:+ b) acc = String.rev_app b (String.rev_app a acc).
Proof. revert acc. induction a as [|c a IH]; intros acc; simpl; auto. Qed.

Lemma rev_app_acc b acc : String.rev_app b acc = String.rev_app b EmptyString +:+ acc.
Proof.
  revert acc. induction b as [|c b IH]; intros acc; simpl; [done|].
  by rewrite (IH (String c acc)), (IH (String c EmptyString)), append_assoc.
Qed.

Lemma prefix_cons_cons a s1 b s2 :
  String.prefix (String a s1) (String b s2)
  = if ascii_dec a b then String.prefix s1 s2 else false.
Proof. reflexivity. Qed.

Lemma prefix_append a b : String.prefix a (a +:+ b) = true.
Proof.
  induction a as [|c a IH]; [by destruct b|].
  change (String c a +:+ b) with (String c (a +:+ b)).
  rewrite prefix_cons_cons. destruct (ascii_dec c c); [done|congruence].
Qed.

Lemma endswith_append a b : endswith (a +:+ b) b = true.
Proof.
  unfold endswith, String.rev.
  rewrite rev_app_append, (rev_app_acc b (String.rev_app a EmptyString)).
  apply prefix_append.
Qed.

Lemma lower_append a b : lower (a +:+ b) = lower a +:+ lower b.
Proof. unfold lower. induction a as [|c a IH]; simpl; [done|]. by rewrite IH. Qed.

(** Whatever the case of its letters, a name ending in the container
    extension passes the test. *)
Lemma is_awc_suffix stem ext : lower ext = ".awc" → is_awc (stem +:+ ext) = true.
Proof.
  intros H. unfold is_awc. rewrite lower_append, H. apply endswith_append.
Qed.

Lemma replace_go_cons old new c s :
  replace_go old new 0 (String c s)
  = if String.prefix old (String c s)
    then new +:+ replace_go old new (String.length old - 1) s
    else String c (replace_go old new 0 s).
Proof. reflexivity. Qed.

Lemma replace_dot_free old new stem rest :
  dot_free stem = true →
  replace (String "." old) new (stem +:+ rest)
  = stem +:+ replace (String "." old) new rest.
Proof.
  unfold replace. induction stem as [|c stem IH]; [done|].
  intros [Hc Hs]%andb_true_iff.
  change (String c stem +:+ rest) with (String c (stem +:+ rest)).
  rewrite replace_go_cons, prefix_cons_cons.
  destruct (ascii_dec "." c) as [<-|Hne]; [done|].
  rewrite IH by done. reflexivity.
Qed.

(** For a stem without a dot and the extension spelled [.awc] or [.AWC]
    the selected file is renamed as intended. *)
Lemma output_filename_plain stem :
  dot_free stem = true →
  is_awc (stem +:+ ".awc") = true ∧ is_awc (stem +:+ ".AWC") = true ∧
  output_filename (stem +:+ ".awc") = stem +:+ ".wav" ∧
  output_filename (stem +:+ ".AWC") = stem +:+ ".wav".
Proof.
  intros H. unfold output_filename.
  split; [by apply is_awc_suffix|]. split; [by apply is_awc_suffix|].
  split; rewrite (replace_dot_free "awc") by done.
  - change (replace ".awc" ".wav" ".awc") with ".wav".
    by rewrite (replace_dot_free "AWC") by done.
  - change (replace ".awc" ".wav" ".AWC") with ".AWC".
    by rewrite (replace_dot_free "AWC") by done.
Qed.

(** For any other spelling of the extension the name is left as it
    is. *)
Lemma output_filename_other_case stem ext :
  dot_free stem = true → lower ext = ".awc" → ext ≠ ".awc" → ext ≠ ".AWC" →
  is_awc (stem +:+ ext) = true ∧ output_filename (stem +:+ ext) = stem +:+ ext.
Proof.
  intros H Hl H1 H2. split; [by apply is_awc_suffix|].
  assert (replace ".AWC" ".wav" (replace ".awc" ".wav" ext) = ext) as Hext.
  { assert (∀ c x, lower_char c = x →
              (x = "a" → c = "a" ∨ c = "A") ∧ (x = "w" → c = "w" ∨ c = "W") ∧
              (x = "c" → c = "c" ∨ c = "C") ∧ (x = "." → c = "."))%char as Hchar.
    { intros c x <-.
      destruct c as [[] [] [] [] [] [] [] []]; vm_compute;
        repeat split; intros; try discriminate; auto. }
    destruct ext as [|c0 [|c1 [|c2 [|c3 [|c4 ext]]]]]; try discriminate.
    injection Hl as E0 E1 E2 E3.
    apply Hchar in E0 as (_ & _ & _ & E0). specialize (E0 eq_refl) as ->.
    apply Hchar in E1 as (E1 & _). apply Hchar in E2 as (_ & E2 & _).
    apply Hchar in E3 as (_ & _ & E3 & _).
    destruct (E1 eq_refl) as [-> | ->], (E2 eq_refl) as [-> | ->],
      (E3 eq_refl) as [-> | ->]; try done. }
  unfold output_filename.
  rewrite (replace_dot_free "awc") by done.
  destruct ext as [|c0 [|c1 [|c2 [|c3 [|c4 ext]]]]]; try discriminate.
  revert Hext. generalize (replace ".awc" ".wav" (String c0 (String c1 (String c2 (String c3 EmptyString))))).
  intros s Hs. by rewrite (replace_dot_free "AWC"), Hs.
Qed.

(** ** The theorems at concrete inputs *)

Example upper_example : upper "Radio_01_class_rock.rpf" = "RADIO_01_CLASS_ROCK.RPF".
Proof. reflexivity. Qed.

Example drop_last_example : upper (drop_last 4 "radio_21_dlc_xm17.rpf") = "RADIO_21_DLC_XM17".
Proof. reflexivity. Qed.

Example replace_example : replace "\\" "\" "C:\\Games\\SteamLib" = "C:\Games\SteamLib".
Proof. reflexivity. Qed.

(** The group of the expression is lazy, and a value broken by a newline
    is no match. *)
Example findall_example :
  Re.findall "path"
    (quoted "path" +:+ " " +:+ quoted "D:\\One" +:+ " " +:+ quoted "label"
     +:+ String newline (quoted "path" +:+ " " +:+ String dquote "broken"
     +:+ String newline (quoted "path" +:+ String tab (quoted "E:\\Two"))))
  = ["D:\\One"; "E:\\Two"].
Proof. reflexivity. Qed.

Example installdir_example : Re.search "installdir" Sample.acf_text = Some "MyGame".
Proof. reflexivity. Qed.

Example find_install_example :
  (find_gta5_install [Sample.steam_root; ["C:"; "Games"; "SteamLib"]]
     (mkWorld Sample.disk [])).1
  = Ret (Some ["C:"; "Games"; "SteamLib"; "steamapps"; "common"; "MyGame"]).
Proof. vm_compute. reflexivity. Qed.

(** The station mapping has no repeated identifier and no empty display
    name. *)
Example station_map_well_formed :
  NoDup station_keys ∧ Forall (λ e : string * string, e.2 ≠ EmptyString) STATION_MAP.
Proof.
  split.
  - apply (bool_decide_eq_true_1 (NoDup station_keys)). vm_compute. reflexivity.
  - unfold STATION_MAP. repeat constructor; discriminate.
Qed.

Lemma C3_witness :
  path_exists temp_gta5_extraction
    (fs (main (Some "C:\Steam") Sample.tools Sample.auto_args
           (mkWorld Sample.disk [])).2) = false.
Proof.
  refine (C3_temp_removed_when_main_returns (Some "C:\Steam") Sample.tools
            Sample.auto_args (mkWorld Sample.disk []) _ _ _).
  - vm_compute. reflexivity.
  - exists (trace (main (Some "C:\Steam") Sample.tools Sample.auto_args
                     (mkWorld Sample.disk [])).2).
    split; [exact eq_refl|]. vm_compute.
    repeat first [apply list_elem_of_here | apply list_elem_of_further].
Defined.


Lemma C8_witness :
  main None Sample.tools Sample.no_source_args (mkWorld Sample.disk [])
  = (setup_output ["out"; "Grand Theft Auto V"];;
     print "Error: Please provide --input or use --auto-detect.")
      (mkWorld Sample.disk []).
Proof.
  exact (proj1 (C8_no_source None Sample.tools Sample.no_source_args
                  (mkWorld Sample.disk []) eq_refl eq_refl)).
Defined.

(** * Further properties of the script *)

(** ** The extractor wrapper and the extraction loops *)

Global Instance only_prints_preorder : PreOrder only_prints.
Proof.
  split.
  - intros w. split; [done|]. exists []. by rewrite app_nil_r.
  - intros a b c [F1 (n1 & E1 & A1)] [F2 (n2 & E2 & A2)]. split; [congruence|].
    exists (n1 ++ n2). split; [by rewrite E2, E1, app_assoc|by apply Forall_app].
Qed.

Lemma only_prints_print text : keeps only_prints (print text).
Proof.
  intros w r w' [= <- <-]. split; [done|]. exists [EvPrint text].
  split; [done|]. by repeat constructor.
Qed.

(** X1.  [extract_rpf] never raises, whatever the extractor does: it
    prints the name of the archive, starts the one command
    [exe -o out archive], leaves the tree as the command left it, and
    returns [True] exactly when the command was launched and exited with
    status zero; after the command it prints at most messages. *)
Theorem X1_extract_rpf_reports run_tool exe rpf_file out w :
  ∃ b msgs,
    extract_rpf run_tool exe rpf_file out w
    = (Ret b,
       mkWorld (fs_after_run run_tool exe out rpf_file (fs w))
         (trace w
          ++ EvPrint ("Extracting " +:+ path_name rpf_file +:+ "...")
             :: EvRun exe out rpf_file :: msgs))
    ∧ Forall (λ e, is_print e = true) msgs
    ∧ (b = true ↔ ∃ v, run_tool exe out rpf_file = Exited 0 v)
    ∧ (b = false → msgs ≠ []).
Proof.
  unfold extract_rpf, fs_after_run, subprocess_run.
  cbv [try_except bind print emit ret raise get_fs set_fs]. simpl.
  destruct (run_tool exe out rpf_file) as [|code [v|]]; simpl.
  - eexists false, [_]. rewrite <- !app_assoc. split; [done|].
    split; [by repeat constructor|]. split; [|done]. split; [done|]. by intros [? ?].
  - destruct (Z.eqb_spec code 0) as [->|Hc]; simpl.
    + exists true, []. rewrite <- !app_assoc. split; [done|].
      split; [constructor|]. split; [|done]. split; eauto.
    + eexists false, [_]. rewrite <- !app_assoc. split; [done|].
      split; [by repeat constructor|]. split; [|done]. split; [done|].
      intros [? ?]. congruence.
  - destruct (Z.eqb_spec code 0) as [->|Hc]; simpl.
    + exists true, []. rewrite <- !app_assoc. split; [done|].
      split; [constructor|]. split; [|done]. split; eauto.
    + eexists false, [_]. rewrite <- !app_assoc. split; [done|].
      split; [by repeat constructor|]. split; [|done]. split; [done|].
      intros [? ?]. congruence.
Qed.

(** A loop whose body always returns always returns. *)
Lemma for_each_returns {A} (xs : list A) (body : A → M unit) :
  (∀ x w, ∃ w', body x w = (Ret tt, w')) →
  ∀ w, ∃ w', for_each xs body w = (Ret tt, w').
Proof.
  intros Hb. induction xs as [|x xs IH]; intros w; simpl.
  - by exists w.
  - destruct (Hb x w) as [w1 H1]. destruct (IH w1) as [w2 H2].
    exists w2. unfold bind. by rewrite H1.
Qed.

Ltac run_extract_rpf :=
  match goal with
  | |- context [extract_rpf ?t ?e ?f ?o ?w] =>
      destruct (extract_rpf_spec t e f o w) as (? & ? & -> & _)
  end.

Lemma extract_dlc_file_returns run_tool exe temp root file w :
  ∃ w', extract_dlc_file run_tool exe temp root file w = (Ret tt, w').
Proof.
  unfold extract_dlc_file.
  destruct (startswith _ _ && endswith _ _); [|by eexists].
  destruct (in_station_map _); [|by eexists].
  cbv [exists_ bind get_fs ret].
  destruct (negb _); [|by eexists].
  run_extract_rpf. by eexists.
Qed.

(** X2.  No failure of the extractor stops the extraction: the loop
    over the base-game archives and the scan of the expansion packs
    always run to their end and return, whether the extractor exits
    non-zero, cannot be launched at all, or succeeds. *)
Theorem X2_extraction_loops_return run_tool exe gta5_path temp w :
  (∃ w', extract_base run_tool exe gta5_path temp w = (Ret tt, w'))
  ∧ (∃ w', extract_dlc run_tool exe gta5_path temp w = (Ret tt, w')).
Proof.
  split.
  - unfold extract_base. cbv zeta. unfold bind at 1. unfold exists_ at 1.
    cbv [bind get_fs ret].
    destruct (path_exists _ _); [|by eexists].
    apply for_each_returns. intros k w0. cbv [exists_ bind get_fs ret].
    destruct (path_exists _ _); [|by eexists].
    run_extract_rpf. by eexists.
  - unfold extract_dlc. cbv zeta. unfold bind at 1. unfold exists_ at 1.
    cbv [bind get_fs ret].
    destruct (path_exists _ _); [|by eexists].
    unfold extract_dlc_walk. apply for_each_returns. intros [[root dirs] files] w0.
    apply for_each_returns. intros file w1. apply extract_dlc_file_returns.
Qed.

Lemma hd_error_joinpath (p : Path) s a :
  hd_error p = Some a → hd_error (p // s) = Some a.
Proof. destruct p; [done|]. by intros [= ->]. Qed.

Lemma filter_is_run_prints msgs :
  Forall (λ e, is_print e = true) msgs → List.filter is_run msgs = [].
Proof.
  induction 1 as [|e msgs He _ IH]; [done|]. destruct e; first [done | exact IH].
Qed.

Lemma lookup_fs_after_run_diverge run_tool exe out inp p t :
  diverge p out →
  lookup_path p (fs_after_run run_tool exe out inp t) = lookup_path p t.
Proof.
  intros Hd. unfold fs_after_run.
  destruct (run_tool exe out inp) as [|code [v|]]; try done.
  by apply lookup_tool_leaves_diverge.
Qed.

(** The loop over the base-game archives on any list of identifiers,
    started in a world that agrees with [w0] on every path whose first
    component is [h]. *)
Lemma extract_base_loop run_tool exe (base temp : Path) h t (l : list string) w0 :
  hd_error base = Some h → hd_error temp = Some t → h ≠ t →
  ∀ w, (∀ p, hd_error p = Some h → lookup_path p (fs w) = lookup_path p (fs w0)) →
  ∃ w' new,
    for_each l
      (λ rpf_name,
         let rpf_file := base // (rpf_name +:+ ".rpf") in
         let* e := exists_ rpf_file in
         if e then
           let extract_to := temp // rpf_name in
           extract_rpf run_tool exe rpf_file extract_to;; ret tt
         else ret tt) w = (Ret tt, w')
    ∧ trace w' = trace w ++ new
    ∧ List.filter is_run new
      = map (λ k, EvRun exe (temp // k) (base // (k +:+ ".rpf")))
          (List.filter (λ k, path_exists (base // (k +:+ ".rpf")) (fs w0)) l)
    ∧ (∀ p, hd_error p = Some h → lookup_path p (fs w') = lookup_path p (fs w0)).
Proof.
  intros Hb Ht Hne. induction l as [|k l IH]; intros w Hw.
  - exists w, []. rewrite app_nil_r. by repeat split.
  - cbn [for_each List.filter]. unfold bind at 1. cbv zeta.
    unfold bind at 1. unfold exists_ at 1. cbv [bind get_fs ret].
    assert (path_exists (base // (k +:+ ".rpf")) (fs w)
            = path_exists (base // (k +:+ ".rpf")) (fs w0)) as ->.
    { unfold path_exists. rewrite Hw; [done|]. by apply hd_error_joinpath. }
    destruct (path_exists (base // (k +:+ ".rpf")) (fs w0)).
    + destruct (extract_rpf_spec run_tool exe (base // (k +:+ ".rpf")) (temp // k) w)
        as (b & msgs & -> & Hmsgs & _).
      edestruct (IH (mkWorld (fs_after_run run_tool exe (temp // k)
                                (base // (k +:+ ".rpf")) (fs w))
                       (trace w
                        ++ EvPrint ("Extracting " +:+ path_name (base // (k +:+ ".rpf"))
                                    +:+ "...")
                           :: EvRun exe (temp // k) (base // (k +:+ ".rpf")) :: msgs)))
        as (w' & new & Hrun & Htr & Hf & Hfs).
      { intros p Hp. simpl. rewrite lookup_fs_after_run_diverge; [by apply Hw|].
        eapply diverge_hd; [done|by apply hd_error_joinpath|done]. }
      exists w', (EvPrint ("Extracting " +:+ path_name (base // (k +:+ ".rpf")) +:+ "...")
                  :: EvRun exe (temp // k) (base // (k +:+ ".rpf")) :: msgs ++ new).
      split; [exact Hrun|]. split.
      { rewrite Htr. simpl. by rewrite <- app_assoc. }
      split; [|done].
      cbn [List.filter is_run map]. f_equal.
      by rewrite List.filter_app, (filter_is_run_prints _ Hmsgs), Hf.
    + destruct (IH w Hw) as (w' & new & Hrun & Htr & Hf & Hfs).
      by exists w', new.
Qed.



(** ** The branches of [main] that end the run early *)

Lemma get_steam_path_eq reg w :
  get_steam_path reg w
  = match reg with
    | Some s => (Ret (Some (path_of_string s)), w)
    | None =>
        (Ret None,
         mkWorld (fs w) (trace w ++ [EvPrint "Could not find Steam path in registry"]))
    end.
Proof. by destruct reg. Qed.

Lemma parse_library_folders_returns steam_path w :
  ∃ l w', parse_library_folders steam_path w = (Ret l, w').
Proof.
  unfold parse_library_folders, parse_library_folders_with.
  cbv [bind exists_win get_fs ret raise try_except read_text_win print emit].
  destruct (lookup_win _ (fs w)) as [[c|es]|]; simpl; [..|by eexists _, _];
    destruct (lookup_win _ (fs w)) as [[c1|es1]|]; simpl; by eexists _, _.
Qed.

Lemma find_gta5_install_returns libs w :
  ∃ r w', find_gta5_install libs w = (Ret r, w').
Proof.
  unfold find_gta5_install.
  revert w. induction libs as [|lib libs IH]; intros w; [by eexists _, _|].
  cbn [find_gta5_install_with]. unfold bind at 1.
  destruct (gta5_in_library_returns lib w) as (r & w1 & Hg & _).
  unfold gta5_in_library in Hg. rewrite Hg. destruct r; [by eexists _, _|].
  apply IH.
Qed.

(** Unless [resolve_input] settles on the temporary directory, all it
    did was print. *)
Lemma resolve_input_only_prints reg tool args w src w1 :
  resolve_input reg tool args w = (Ret src, w1) →
  (∀ i p, src ≠ Some (i, Some p)) →
  only_prints w w1.
Proof.
  pose proof only_prints_print as HP.
  unfold resolve_input. intros H Hsrc.
  destruct (truthy_opt (input args)).
  { cbv [ret] in H. simplify_eq. reflexivity. }
  destruct (auto_detect args); cycle 1.
  { revert H. apply keeps_bind; [apply _|apply HP|intros _]. apply keeps_ret, _. }
  apply bind_Ret_inv in H as (? & wa & Ha & H). apply HP in Ha.
  apply bind_Ret_inv in H as ([steam_path|] & wb & Hb & H); cycle 1.
  { apply (keeps_get_steam_path _ _ HP) in Hb.
    etrans; [done|]. etrans; [done|]. revert H.
    apply keeps_bind; [apply _|apply HP|intros _]. apply keeps_ret, _. }
  apply (keeps_get_steam_path _ _ HP) in Hb.
  apply bind_Ret_inv in H as (? & wc & Hc & H). apply HP in Hc.
  apply bind_Ret_inv in H as (libs & wd & Hd & H).
  apply (keeps_parse_library_folders _ HP) in Hd.
  apply bind_Ret_inv in H as ([gta5_path|] & we & He & H); cycle 1.
  { apply (keeps_find_gta5_install _ HP) in He.
    do 5 (etrans; [done|]). revert H.
    apply keeps_bind; [apply _|apply HP|intros _]. apply keeps_ret, _. }
  apply (keeps_find_gta5_install _ HP) in He.
  apply bind_Ret_inv in H as (? & wf & Hf & H). apply HP in Hf.
  destruct (truthy_opt (rpf_cli args)); cycle 1.
  { do 6 (etrans; [done|]). revert H.
    apply keeps_bind; [apply _|apply HP|intros _]. apply keeps_ret, _. }
  do 6 (apply bind_Ret_inv in H as (? & ? & _ & H)).
  cbv [ret] in H. simplify_eq.
  by destruct (Hsrc temp_gta5_extraction temp_gta5_extraction).
Qed.

(** X4.  Whenever [main] returns early because no source of station
    folders could be settled (no [--input] and no [--auto-detect], the
    package manager not found, the game not found in any library, or
    [--rpf-cli] missing), everything after the set-up step was console
    output: the tree is as the set-up left it, no command was run and no
    directory was made or removed. *)
Theorem X4_early_return_only_messages reg tool args w w0 w1 :
  let output_dir := path_of_string (output args) // "Grand Theft Auto V" in
  setup_output output_dir w = (Ret tt, w0) →
  resolve_input reg tool args w0 = (Ret None, w1) →
  main reg tool args w = (Ret tt, w1) ∧ only_prints w0 w1.
Proof.
  intros output_dir H0 H1. split.
  - unfold main. fold output_dir. unfold bind at 1. rewrite H0.
    unfold bind at 1. by rewrite H1.
  - eapply resolve_input_only_prints; [done|]. intros ? ? [=].
Qed.



Lemma X4_witness :
  main None Sample.tools Sample.auto_args (mkWorld Sample.disk [])
  = (Ret tt,
     (resolve_input None Sample.tools Sample.auto_args
        (setup_output ["out"; "Grand Theft Auto V"] (mkWorld Sample.disk [])).2).2).
Proof.
  refine (proj1 (X4_early_return_only_messages None Sample.tools Sample.auto_args
                   (mkWorld Sample.disk []) _ _ _ _)).
  - vm_compute. reflexivity.
  - vm_compute. reflexivity.
Defined.

(** ** Runs with an explicit input directory *)

(** X6.  With a usable [--input] the run does not depend on the
    registry, on [--auto-detect] or on [--rpf-cli]: two runs that agree
    on [--input], [--output] and [--vgmstream] are the same run. *)
Theorem X6_input_overrides_auto_detect reg reg' tool args args' w :
  truthy_opt (input args) ≠ None →
  input args' = input args → output args' = output args →
  vgmstream args' = vgmstream args →
  main reg tool args w = main reg' tool args' w.
Proof.
  intros Hin H1 H2 H3. unfold main, resolve_input. rewrite H1, H2, H3.
  by destruct (truthy_opt (input args)).
Qed.

Lemma X6_witness :
  main None Sample.tools Sample.input_args (mkWorld Sample.disk_input [])
  = main (Some "C:\Steam") Sample.tools (mkArgs (Some "in") "out" "vgm" (Some "rpf") true)
      (mkWorld Sample.disk_input []).
Proof.
  exact (X6_input_overrides_auto_detect None (Some "C:\Steam") Sample.tools
           Sample.input_args (mkArgs (Some "in") "out" "vgm" (Some "rpf") true)
           (mkWorld Sample.disk_input []) ltac:(discriminate) eq_refl eq_refl eq_refl).
Defined.

(** X7.  With a usable [--input] the run removes nothing and never runs
    the extractor: no event of the run is the removal of a tree, and
    every command line it starts is one of the transcoder given by
    [--vgmstream].  This holds however the run ends. *)
Theorem X7_input_run_removes_nothing reg tool args w :
  truthy_opt (input args) ≠ None →
  emits (input_run_event (vgmstream args)) w (main reg tool args w).2.
Proof.
  intros Hin. destruct (main reg tool args w) as [r w'] eqn:E. simpl.
  revert E. unfold main. set (output_dir := path_of_string (output args) // _).
  apply keeps_bind; [apply _| |intros _].
  - intros w0 r0 w1 H0. apply setup_output_trace in H0 as (first & Ht & Hcase).
    exists first. split; [done|].
    destruct Hcase as [->|[->|[[-> _]|[-> _]]]]; Forall_auto; done.
  - unfold resolve_input. destruct (truthy_opt (input args)) as [i|]; [|done].
    apply (keeps_bind_val _ (λ src, src = Some (path_of_string i, None))).
    + apply keeps_ret, _.
    + intros w0 src w1 H. cbv [ret] in H. by simplify_eq.
    + intros src ->.
      apply keeps_organize_and_finish
        with (ok_mkdir := λ _, True) (ok_rmtree := λ _, False)
             (ok_run := λ e _ _, e = vgmstream args);
        [apply _|intros; by apply emits_print|intros; by apply emits_mkdir|done
        |intros ? ? ? ->; by apply emits_run|done|by intros ? ? [=]].
Qed.

Lemma X7_witness :
  emits (input_run_event "vgm") (mkWorld Sample.disk_input [])
    (main None Sample.tools Sample.input_args (mkWorld Sample.disk_input [])).2.
Proof.
  exact (X7_input_run_removes_nothing None Sample.tools Sample.input_args
           (mkWorld Sample.disk_input []) ltac:(discriminate)).
Defined.

(** X8.  When the directory given by [--input] does not exist, neither
    under its exact spelling nor as the system resolves it, the run is
    the set-up step followed by the message that the input directory
    was not found: no station is looked for and nothing is converted.
    The path is one the system reads as written, from the same place
    as the output path, and is not, letter case set aside, one the
    set-up itself brings about: the group directory, a directory above
    it, or the metadata file. *)
Theorem X8_missing_input_directory reg tool args i w :
  truthy_opt (input args) = Some i →
  let input_dir := path_of_string i in
  let output_dir := path_of_string (output args) // "Grand Theft Auto V" in
  comparable input_dir output_dir = true →
  lookup_win input_dir (fs w) = None →
  path_exists input_dir (fs w) = false →
  above input_dir (output_dir // "stationGroupInfo.json") = false →
  main reg tool args w
  = (setup_output output_dir;;
     print "Input directory not found or extraction failed.") w.
Proof.
  intros Hin input_dir output_dir _ _ Hno Hab.
  apply not_above_not_prefix in Hab.
  assert (¬ input_dir `prefix_of` output_dir) as Hp1.
  { intros H. apply Hab. etrans; [exact H|apply prefix_joinpath]. }
  assert (input_dir ≠ output_dir // "stationGroupInfo.json") as Hp2.
  { intros H. apply Hab. by rewrite H. }
  unfold main, resolve_input. fold output_dir.
  rewrite Hin. cbv [bind ret].
  destruct (setup_output output_dir w) as [[[]|e] w0] eqn:E0; [|done].
  unfold organize_and_finish. cbv [bind exists_ get_fs ret print emit].
  fold input_dir.
  assert (path_exists input_dir (fs w0) = false) as ->.
  { unfold path_exists in *.
    by rewrite (setup_output_frame output_dir _ _ _ E0 input_dir). }
  reflexivity.
Qed.

Lemma X8_witness :
  main None Sample.tools (mkArgs (Some "nowhere") "out" "vgm" None false)
    (mkWorld Sample.disk_input [])
  = (setup_output ["out"; "Grand Theft Auto V"];;
     print "Input directory not found or extraction failed.")
      (mkWorld Sample.disk_input []).
Proof.
  exact (X8_missing_input_directory None Sample.tools
           (mkArgs (Some "nowhere") "out" "vgm" None false) "nowhere"
           (mkWorld Sample.disk_input []) eq_refl eq_refl eq_refl eq_refl eq_refl).
Defined.

(** X9.  When the input path exists but is a regular file, the check
    that the input directory exists passes and the organizer then
    raises on listing it, before any station is processed: nothing is
    printed, created or run. *)
Theorem X9_input_is_a_file tool vg output_dir input_dir temp c w :
  lookup_path input_dir (fs w) = Some (File c) →
  organize_and_finish tool vg output_dir (Some (input_dir, temp)) w
  = (Raise OSError, w).
Proof.
  intros Hf. unfold organize_and_finish.
  unfold bind at 1. cbv [exists_ bind get_fs ret]. unfold path_exists. rewrite Hf.
  cbn [negb]. unfold organize, STATION_MAP. cbn [for_each].
  unfold bind at 1. unfold organize_station, bind at 1.
  rewrite match_station_spec. unfold iterdir_fs. by rewrite Hf.
Qed.

Lemma X9_witness :
  organize_and_finish Sample.tools "vgm" ["out"] (Some (["in"; "RADIO_04_PUNK"], None))
    (mkWorld Sample.disk_input [])
  = (Raise OSError, mkWorld Sample.disk_input []).
Proof.
  exact (X9_input_is_a_file Sample.tools "vgm" ["out"] ["in"; "RADIO_04_PUNK"] None
           "not a folder" (mkWorld Sample.disk_input []) eq_refl).
Defined.

Lemma mkdir_slot_blocked p q o c :
  slot_at p o = Some (File c) → mkdir_slot (p ++ q) o = None.
Proof.
  revert o. induction p as [|a p IH]; intros o Hp.
  - destruct o as [n|]; [|done]. rewrite slot_at_Some in Hp. simpl in Hp.
    simplify_eq. by destruct q.
  - destruct o as [[s|es]|]; try done. rewrite slot_at_cons in Hp.
    simpl. by rewrite (IH _ Hp).
Qed.

Lemma update_path_blocked p a q f t c :
  lookup_path p t = Some (File c) → update_path (p ++ a :: q) f t = None.
Proof.
  intros Hp. unfold update_path.
  destruct (update_slot (p ++ a :: q) f (Some t)) as [[t'|]|] eqn:E; try done.
  apply update_slot_below in E as [[es He] _].
  rewrite slot_at_Some in He. congruence.
Qed.

Lemma lookup_below_file p a q t c :
  lookup_path p t = Some (File c) → lookup_path (p ++ a :: q) t = None.
Proof.
  intros Hp. by rewrite <- slot_at_Some, slot_at_app, slot_at_Some, Hp.
Qed.

(** X10.  When the group directory [<output>/Grand Theft Auto V] or any
    directory above it is a regular file, the run raises in its set-up
    step and leaves the world exactly as it was: nothing is printed,
    created, run or removed. *)
Theorem X10_output_blocked_by_a_file reg tool args p q c w :
  path_of_string (output args) // "Grand Theft Auto V" = p ++ q →
  lookup_path p (fs w) = Some (File c) →
  main reg tool args w = (Raise OSError, w).
Proof.
  intros Hod Hp. unfold main. rewrite Hod. unfold bind at 1.
  assert (setup_output (p ++ q) w = (Raise OSError, w)) as ->; [|done].
  unfold setup_output, create_station_info.
  cbv [bind exists_ get_fs ret raise mkdir write_text fs_op set_fs emit].
  destruct q as [|a q].
  - rewrite app_nil_r. unfold path_exists at 1. rewrite Hp. simpl.
    unfold joinpath. rewrite path_of_string_info.
    unfold path_exists. rewrite (lookup_below_file _ _ _ _ _ Hp). simpl.
    unfold write_file. by rewrite (update_path_blocked _ _ _ _ _ _ Hp).
  - unfold path_exists at 1. rewrite (lookup_below_file _ _ _ _ _ Hp). simpl.
    unfold mkdir_fs. rewrite (lookup_below_file _ _ _ _ _ Hp).
    by rewrite (mkdir_slot_blocked p (a :: q) (Some (fs w)) c).
Qed.

Lemma X10_witness :
  main None Sample.tools (mkArgs (Some "in") "in/RADIO_04_PUNK" "vgm" None false)
    (mkWorld Sample.disk_input [])
  = (Raise OSError, mkWorld Sample.disk_input []).
Proof.
  exact (X10_output_blocked_by_a_file None Sample.tools
           (mkArgs (Some "in") "in/RADIO_04_PUNK" "vgm" None false)
           ["in"; "RADIO_04_PUNK"] ["Grand Theft Auto V"] "not a folder"
           (mkWorld Sample.disk_input []) eq_refl eq_refl).
Defined.

(** ** What a run touches *)

Global Instance nothing_vanishes_preorder : PreOrder nothing_vanishes.
Proof.
  split.
  - by intros w p.
  - intros a b c Hab Hbc p Hp. by apply Hbc, Hab.
Qed.

Global Instance dir_stays_preorder p : PreOrder (dir_stays p).
Proof.
  split.
  - intros w H. exact H.
  - intros a b c Hab Hbc H. by apply Hbc, Hab.
Qed.

(** Rewriting a slot that held no directory, and holds something
    afterwards, makes no path vanish. *)
Lemma update_path_keeps_exists q f t t' p :
  update_path q f t = Some t' →
  (∀ es, lookup_path q t ≠ Some (Dir es)) →
  lookup_path q t' ≠ None →
  path_exists p t = true → path_exists p t' = true.
Proof.
  intros H Hb Ha. unfold path_exists.
  destruct (path_trichotomy p q) as [Hpre|[(c & r & ->)|Hd]].
  - apply prefix_cases in Hpre as [->|(c & r & ->)].
    + intros _. by destruct (lookup_path q t').
    + intros _. unfold update_path in H.
      destruct (update_slot (p ++ c :: r) f (Some t)) as [[v|]|] eqn:E; simplify_eq.
      apply update_slot_below in E as [_ [es' He]].
      rewrite slot_at_Some in He. by rewrite He.
  - rewrite <- (slot_at_Some _ t), slot_at_app, slot_at_Some.
    destruct (lookup_path q t) as [[s|es]|]; [done|by destruct (Hb es)|done].
  - by rewrite (lookup_update_path_diverge p q f t t').
Qed.

Lemma mkdir_slot_keeps_exists q p o n' n :
  mkdir_slot q o = Some n' → slot_at p o = Some n → ∃ m, lookup_path p n' = Some m.
Proof.
  revert p o n' n. induction q as [|c q IH]; intros p o n' n H Hp.
  - destruct o as [[s|es]|]; simplify_eq/=; eauto.
  - simpl in H. destruct o as [[s|es]|]; try discriminate.
    destruct (mkdir_slot q (assoc c es)) as [ch|] eqn:E; simplify_eq.
    destruct p as [|a p]; [simpl; eauto|].
    rewrite slot_at_cons in Hp. simpl.
    destruct (decide (c = a)) as [->|Hca].
    + rewrite assoc_set_entry_eq. eauto.
    + rewrite assoc_set_entry_ne by done.
      destruct (assoc a es); [eauto|done].
Qed.

Lemma mkdir_fs_keeps_exists pa ex q t t' p :
  mkdir_fs pa ex q t = Some t' → path_exists p t = true → path_exists p t' = true.
Proof.
  unfold mkdir_fs. intros H Hp.
  destruct (lookup_path q t) as [[s|es]|] eqn:E; try discriminate.
  - destruct ex; by simplify_eq.
  - destruct pa.
    + unfold path_exists in *.
      destruct (lookup_path p t) as [n|] eqn:En; [|done].
      by destruct (mkdir_slot_keeps_exists q p (Some t) t' n H En) as [m ->].
    + eapply update_path_keeps_exists; [done| | |done].
      * intros es. by rewrite E.
      * apply lookup_update_path_same in H. by rewrite <- (Some_inj _ _ H).
Qed.

Lemma nothing_vanishes_print text : keeps nothing_vanishes (print text).
Proof. by intros w r w' [= <- <-] p. Qed.

Lemma nothing_vanishes_mkdir pa ex q : keeps nothing_vanishes (mkdir pa ex q).
Proof.
  intros w r w'. unfold mkdir, bind, get_fs, set_fs, emit, ret, raise.
  destruct (mkdir_fs pa ex q (fs w)) as [t'|] eqn:E.
  - destruct (path_exists q (fs w)); intros [= <- <-] p Hp; simpl;
      eapply mkdir_fs_keeps_exists; eauto.
  - by intros [= <- <-] p.
Qed.

Lemma nothing_vanishes_write_text q c : keeps nothing_vanishes (write_text q c).
Proof.
  intros w r w'. unfold write_text, fs_op, bind, get_fs, set_fs, emit, raise.
  destruct (write_file q c (fs w)) as [t'|] eqn:E.
  - intros [= <- <-] p Hp; simpl.
    pose proof (lookup_update_path_same _ _ _ _ E) as Hs.
    eapply update_path_keeps_exists; [exact E| | |done].
    + intros es He. by rewrite He in Hs.
    + rewrite (lookup_write_file _ _ _ _ E). done.
  - by intros [= <- <-] p.
Qed.

Lemma tool_leaves_file_keeps_exists out c t p :
  path_exists p t = true → path_exists p (tool_leaves out (File c) t) = true.
Proof.
  intros Hp. unfold tool_leaves.
  destruct (update_path out _ t) as [t'|] eqn:E; simpl; [|done].
  pose proof (lookup_update_path_same _ _ _ _ E) as Hs.
  eapply update_path_keeps_exists; [exact E| | |done].
  - intros es He. by rewrite He in Hs.
  - destruct (lookup_path out t) as [[|]|]; simplify_eq/=; by rewrite <- Hs.
Qed.

Lemma nothing_vanishes_run run_tool exe out inp :
  (∀ code v, run_tool exe out inp = Exited code (Some v) → ∃ c, v = File c) →
  keeps nothing_vanishes (subprocess_run run_tool exe out inp).
Proof.
  intros Hv w r w'. unfold subprocess_run.
  cbv [bind emit get_fs set_fs ret raise].
  destruct (run_tool exe out inp) as [|code [v|]] eqn:Er; simpl.
  - by intros [= <- <-] p.
  - destruct (Hv code v eq_refl) as [c ->].
    destruct (code =? 0)%Z; intros [= <- <-] p Hp; simpl;
      by apply tool_leaves_file_keeps_exists.
  - by destruct (code =? 0)%Z; intros [= <- <-] p.
Qed.

(** X11.  A run with a usable [--input] deletes nothing, provided the
    transcoder leaves only regular files: every path that exists before
    the run (input files, earlier output, anything else) still exists
    after it, however the run ends.  Files may be overwritten, never
    removed. *)
Theorem X11_input_run_deletes_nothing reg tool args w p :
  truthy_opt (input args) ≠ None →
  (∀ out inp code v,
     tool (vgmstream args) out inp = Exited code (Some v) → ∃ c, v = File c) →
  path_exists p (fs w) = true →
  path_exists p (fs (main reg tool args w).2) = true.
Proof.
  intros Hin Htool. revert p.
  change (nothing_vanishes w (main reg tool args w).2).
  destruct (main reg tool args w) as [r w'] eqn:E. simpl.
  revert E. unfold main. set (output_dir := path_of_string (output args) // _).
  apply keeps_bind; [apply _| |intros _].
  - unfold setup_output, create_station_info. keeps_auto.
    + apply nothing_vanishes_mkdir.
    + apply nothing_vanishes_write_text.
  - unfold resolve_input. destruct (truthy_opt (input args)) as [i|]; [|done].
    apply (keeps_bind_val _ (λ src, src = Some (path_of_string i, None))).
    + apply keeps_ret, _.
    + intros w0 src w1 H. cbv [ret] in H. by simplify_eq.
    + intros src ->.
      apply keeps_organize_and_finish
        with (ok_mkdir := λ _, True) (ok_rmtree := λ _, False)
             (ok_run := λ e _ _, e = vgmstream args);
        [apply _|intros; apply nothing_vanishes_print
        |intros; apply nothing_vanishes_mkdir|done
        |intros ? ? ? ->; apply nothing_vanishes_run; eauto|done|by intros ? ? [=]].
Qed.

Lemma X11_witness :
  path_exists ["in"; "radio_01_class_rock"; "notes.txt"]
    (fs (main None Sample.tools Sample.input_args (mkWorld Sample.disk_input [])).2)
  = true.
Proof.
  refine (X11_input_run_deletes_nothing None Sample.tools Sample.input_args
            (mkWorld Sample.disk_input []) ["in"; "radio_01_class_rock"; "notes.txt"]
            _ _ eq_refl).
  - discriminate.
  - intros out inp code v. simpl. intros [= _ <-]. eauto.
Defined.

Lemma frame_run S run_tool exe out inp :
  (∀ p, S p → diverge p out) →
  keeps (frame S) (subprocess_run run_tool exe out inp).
Proof.
  intros HS w r w'. unfold subprocess_run.
  cbv [bind emit get_fs set_fs ret raise].
  destruct (run_tool exe out inp) as [|code [v|]]; simpl.
  - by intros [= <- <-] p _.
  - destruct (code =? 0)%Z; intros [= <- <-] p Hp; simpl;
      by rewrite lookup_tool_leaves_diverge by auto.
  - by destruct (code =? 0)%Z; intros [= <- <-] p _.
Qed.

(** X12.  A run with a usable [--input] whose input directory and
    group directory name different places, neither inside the other
    however the system reads the two paths, leaves the input tree
    exactly as it was: every path at or below the input directory
    holds after the run what it held before, however the run ends. *)
Theorem X12_input_tree_untouched reg tool args i w :
  truthy_opt (input args) = Some i →
  let output_dir := path_of_string (output args) // "Grand Theft Auto V" in
  apart (path_of_string i) output_dir = true →
  ∀ p, path_of_string i `prefix_of` p →
       lookup_path p (fs (main reg tool args w).2) = lookup_path p (fs w).
Proof.
  intros Hin output_dir Hd%apart_diverge.
  change (frame (λ p, path_of_string i `prefix_of` p) w (main reg tool args w).2).
  assert (∀ q p, output_dir `prefix_of` q → path_of_string i `prefix_of` p →
                 diverge p q) as Hdiv.
  { intros q p Hq Hp. by eapply diverge_extend. }
  destruct (main reg tool args w) as [r w'] eqn:E. simpl.
  revert E. unfold main. fold output_dir.
  apply keeps_bind; [apply _| |intros _].
  - unfold setup_output, create_station_info. keeps_auto.
    + apply frame_mkdir. intros p Hp. by apply diverge_not_prefix, Hdiv.
    + apply frame_write_text. intros p Hp.
      apply diverge_not_prefix, Hdiv; [apply prefix_joinpath|done].
  - unfold resolve_input. rewrite Hin.
    apply (keeps_bind_val _ (λ src, src = Some (path_of_string i, None))).
    + apply keeps_ret, _.
    + intros w0 src w1 H. cbv [ret] in H. by simplify_eq.
    + intros src ->.
      apply keeps_organize_and_finish
        with (ok_mkdir := λ q, output_dir `prefix_of` q) (ok_rmtree := λ _, False)
             (ok_run := λ _ q _, output_dir `prefix_of` q);
        [apply _|intros; apply frame_print| | done| | |by intros ? ? [=]].
      * intros pa ex q Hq. apply frame_mkdir. intros p Hp.
        by apply diverge_not_prefix, Hdiv.
      * intros exe q inp Hq. apply frame_run. intros p Hp. by apply Hdiv.
      * intros rpf station _.
        assert (output_dir `prefix_of` output_dir // station) as H1
          by apply prefix_joinpath.
        assert (output_dir `prefix_of` output_dir // station // "Songs") as H2.
        { etrans; [exact H1|apply prefix_joinpath]. }
        split; [done|]. split; [done|]. intros file inp.
        etrans; [exact H2|apply prefix_joinpath].
Qed.

Lemma X12_witness :
  lookup_path ["in"; "radio_01_class_rock"; "track1.AWC"]
    (fs (main None Sample.tools Sample.input_args (mkWorld Sample.disk_input [])).2)
  = Some (File "a1").
Proof.
  refine (X12_input_tree_untouched None Sample.tools Sample.input_args "in"
            (mkWorld Sample.disk_input []) eq_refl eq_refl
            ["in"; "radio_01_class_rock"; "track1.AWC"] _).
  by exists ["radio_01_class_rock"; "track1.AWC"].
Defined.

Lemma frame_rmtree S q :
  (∀ p, S p → diverge p q) → keeps (frame S) (shutil_rmtree q).
Proof.
  intros HS w r w'. unfold shutil_rmtree, fs_op, bind, get_fs, set_fs, emit, raise.
  destruct (rmtree q (fs w)) as [t'|] eqn:E.
  - intros [= <- <-] p Hp. simpl.
    eapply lookup_update_path_diverge; [by apply HS|exact E].
  - by intros [= <- <-] p _.
Qed.

Section RunFrame.
Context (reg : option string) (tool : string → Path → Path → proc_result).
Context (args : Args).
Let output_dir : Path := path_of_string (output args) // "Grand Theft Auto V".

Lemma frame_setup_output S :
  (∀ p, S p → diverge p output_dir) → keeps (frame S) (setup_output output_dir).
Proof.
  intros HS. unfold setup_output, create_station_info. keeps_auto.
  - apply frame_mkdir. intros p Hp. by apply diverge_not_prefix, HS.
  - apply frame_write_text. intros p Hp. apply diverge_not_prefix.
    apply (diverge_extend p output_dir); [by apply HS|done|apply prefix_joinpath].
Qed.

Lemma under_output_dir rpf station :
  (rpf, station) ∈ STATION_MAP →
  output_dir `prefix_of` output_dir // station ∧
  output_dir `prefix_of` output_dir // station // "Songs" ∧
  ∀ (file : string) (inp : Path),
    output_dir `prefix_of` output_dir // station // "Songs" // output_filename file.
Proof.
  intros _.
  assert (output_dir `prefix_of` output_dir // station) as H1
    by apply prefix_joinpath.
  assert (output_dir `prefix_of` output_dir // station // "Songs") as H2.
  { etrans; [exact H1|apply prefix_joinpath]. }
  split; [done|]. split; [done|]. intros file inp.
  etrans; [exact H2|apply prefix_joinpath].
Qed.

(** A run changes nothing at a path that parts ways with the group
    directory and with the temporary directory. *)
Lemma frame_main :
  keeps (frame (λ p, diverge p output_dir ∧ diverge p temp_gta5_extraction))
    (main reg tool args).
Proof.
  set (S := λ p, diverge p output_dir ∧ diverge p temp_gta5_extraction).
  assert (∀ q p, output_dir `prefix_of` q ∨ temp_gta5_extraction `prefix_of` q →
                 S p → diverge p q) as Hdiv.
  { intros q p [Hq|Hq] [H1 H2].
    - by apply (diverge_extend p output_dir).
    - by apply (diverge_extend p temp_gta5_extraction). }
  unfold main. fold output_dir.
  apply keeps_bind; [apply _|apply frame_setup_output; by intros p [? _]|intros _].
  eapply (keeps_bind_val _ (λ src, ∀ i p, src = Some (i, Some p) →
                              p = temp_gta5_extraction)).
  - apply keeps_resolve_input
      with (ok_mkdir := λ q, output_dir `prefix_of` q
                             ∨ temp_gta5_extraction `prefix_of` q)
           (ok_rmtree := λ q, q = temp_gta5_extraction)
           (ok_run := λ _ q _, output_dir `prefix_of` q
                               ∨ temp_gta5_extraction `prefix_of` q);
      [apply _|intros; apply frame_print| | | |done|by right|].
    + intros pa ex q Hq. apply frame_mkdir. intros p Hp.
      by apply diverge_not_prefix, Hdiv.
    + intros q ->. apply frame_rmtree. by intros p [_ ?].
    + intros exe q inp Hq. apply frame_run. intros p Hp. by apply Hdiv.
    + intros exe k inp _. right. apply prefix_joinpath.
  - intros w0 src w1 H i p Hs.
    by destruct (resolve_input_temp _ _ _ _ _ _ H i p Hs).
  - intros src Hsrc.
    apply keeps_organize_and_finish
      with (ok_mkdir := λ q, output_dir `prefix_of` q
                             ∨ temp_gta5_extraction `prefix_of` q)
           (ok_rmtree := λ q, q = temp_gta5_extraction)
           (ok_run := λ _ q _, output_dir `prefix_of` q
                               ∨ temp_gta5_extraction `prefix_of` q);
      [apply _|intros; apply frame_print| | | | |exact Hsrc].
    + intros pa ex q Hq. apply frame_mkdir. intros p Hp.
      by apply diverge_not_prefix, Hdiv.
    + intros q ->. apply frame_rmtree. by intros p [_ ?].
    + intros exe q inp Hq. apply frame_run. intros p Hp. by apply Hdiv.
    + intros rpf station Hin.
      destruct (under_output_dir rpf station Hin) as (H1 & H2 & H3). auto.
Qed.

(** A run with [--input] changes nothing at a path that parts ways
    with the group directory. *)
Lemma frame_main_input i :
  truthy_opt (input args) = Some i →
  keeps (frame (λ p, diverge p output_dir)) (main reg tool args).
Proof.
  intros Hin.
  assert (∀ q p, output_dir `prefix_of` q → diverge p output_dir → diverge p q)
    as Hdiv.
  { intros q p Hq Hp. by apply (diverge_extend p output_dir). }
  unfold main. fold output_dir.
  apply keeps_bind; [apply _|by apply frame_setup_output|intros _].
  unfold resolve_input. rewrite Hin.
  apply (keeps_bind_val _ (λ src, src = Some (path_of_string i, None))).
  - apply keeps_ret, _.
  - intros w0 src w1 H. cbv [ret] in H. by simplify_eq.
  - intros src ->.
    apply keeps_organize_and_finish
      with (ok_mkdir := λ q, output_dir `prefix_of` q) (ok_rmtree := λ _, False)
           (ok_run := λ _ q _, output_dir `prefix_of` q);
      [apply _|intros; apply frame_print| |done| |apply under_output_dir
      |by intros ? ? [=]].
    + intros pa ex q Hq. apply frame_mkdir. intros p Hp.
      by apply diverge_not_prefix, Hdiv.
    + intros exe q inp Hq. apply frame_run. intros p Hp. by apply Hdiv.
Qed.

End RunFrame.



(** ** The directories of a station *)

Lemma mkdir_slot_is_dir q o n' :
  mkdir_slot q o = Some n' → ∃ es, lookup_path q n' = Some (Dir es).
Proof.
  revert o n'. induction q as [|c q IH]; intros o n' H.
  - destruct o as [[s|es]|]; simplify_eq/=; eauto.
  - simpl in H. destruct o as [[s|es]|]; try discriminate.
    + destruct (mkdir_slot q (assoc c es)) as [ch|] eqn:E; simplify_eq.
      simpl. rewrite assoc_set_entry_eq. eauto.
    + destruct (mkdir_slot q None) as [ch|] eqn:E; simplify_eq.
      simpl. rewrite String.eqb_refl. eauto.
Qed.

Lemma mkdir_returns_dir pa p w w' :
  mkdir pa true p w = (Ret tt, w') → path_is_dir p (fs w') = true.
Proof.
  unfold mkdir. cbv [bind get_fs set_fs emit ret raise].
  destruct (mkdir_fs pa true p (fs w)) as [t'|] eqn:E; [|done].
  intros H. assert (fs w' = t') as ->.
  { destruct (path_exists p (fs w)); by simplify_eq. }
  clear H. unfold mkdir_fs in E. unfold path_is_dir.
  destruct (lookup_path p (fs w)) as [[s|es]|] eqn:El; try discriminate.
  - simplify_eq. by rewrite El.
  - destruct pa.
    + by destruct (mkdir_slot_is_dir _ _ _ E) as [es ->].
    + apply lookup_update_path_same in E. simplify_eq. by rewrite <- E.
Qed.

Lemma is_dir_above p q t :
  path_is_dir (p ++ q) t = true → path_is_dir p t = true.
Proof.
  unfold path_is_dir. rewrite <- !slot_at_Some, slot_at_app, !slot_at_Some.
  destruct (lookup_path p t) as [[s|es]|]; try done.
  by destruct q.
Qed.

Lemma tool_leaves_dir_stays p q v t :
  path_is_dir p t = true → path_is_dir p (tool_leaves (p ++ q) v t) = true.
Proof.
  intros Hd. destruct q as [|c q].
  - rewrite app_nil_r. unfold tool_leaves.
    destruct (update_path p _ t) as [t'|] eqn:E; simpl; [|done].
    apply lookup_update_path_same in E. unfold path_is_dir in *.
    destruct (lookup_path p t) as [[s|es]|]; try done.
    destruct v; simplify_eq. by rewrite <- E.
  - unfold tool_leaves, update_path.
    destruct (update_slot (p ++ c :: q) _ (Some t)) as [[t'|]|] eqn:E; simpl; try done.
    apply update_slot_below in E as [_ [es' He]].
    unfold path_is_dir. by rewrite <- slot_at_Some, He.
Qed.

Lemma dir_stays_print p text : keeps (dir_stays p) (print text).
Proof. intros w r w' [= <- <-] H. exact H. Qed.

Lemma dir_stays_run p run_tool exe out inp :
  p `prefix_of` out → keeps (dir_stays p) (subprocess_run run_tool exe out inp).
Proof.
  intros [q ->] w r w'. unfold subprocess_run.
  cbv [bind emit get_fs set_fs ret raise].
  destruct (run_tool exe (p ++ q) inp) as [|code [v|]]; simpl.
  - intros [= <- <-] Hd. exact Hd.
  - destruct (code =? 0)%Z; intros [= <- <-] Hd; simpl;
      by apply tool_leaves_dir_stays.
  - destruct (code =? 0)%Z; intros [= <- <-] Hd; exact Hd.
Qed.

(** X14.  When [process_station_folder] returns, the directory of the
    station and its [Songs] directory both exist as directories,
    whatever the station folder holds (nothing to convert, conversions
    that fail) and whatever the transcoder leaves behind. *)
Theorem X14_station_directories_made run_tool exe folder output_dir station w w' :
  process_station_folder run_tool exe folder output_dir station w = (Ret tt, w') →
  path_is_dir (output_dir // station) (fs w') = true ∧
  path_is_dir (output_dir // station // "Songs") (fs w') = true.
Proof.
  intros H.
  assert (path_is_dir (output_dir // station // "Songs") (fs w') = true) as Hs.
  2:{ split; [|done]. by apply is_dir_above in Hs. }
  revert H. unfold process_station_folder.
  intros H. apply bind_Ret_inv in H as ([] & w1 & _ & H).
  apply bind_Ret_inv in H as ([] & w2 & _ & H).
  apply bind_Ret_inv in H as ([] & w3 & Hm & H).
  apply mkdir_returns_dir in Hm.
  apply bind_Ret_inv in H as (t & w4 & Ht & H).
  cbv [get_fs] in Ht. simplify_eq.
  match type of H with
  | ?c _ = _ => cut (keeps (dir_stays (output_dir // station // "Songs")) c)
  end; [intros K; exact (K _ _ _ H Hm)|].
  apply keeps_for_each; [apply _|]. intros [[root dirs] files] _.
  apply keeps_for_each; [apply _|]. intros file _.
  apply keeps_process_file
    with (ok_run := λ _ out _, output_dir // station // "Songs" `prefix_of` out);
    [apply _|intros; apply dir_stays_print|intros; by apply dir_stays_run|].
  intros _. apply prefix_joinpath.
Qed.

Lemma X14_witness :
  path_is_dir (["out"] // "Los Santos Rock Radio")
    (fs (process_station_folder Sample.tools "vgm" ["in"; "radio_01_class_rock"]
           ["out"] "Los Santos Rock Radio" (mkWorld Sample.disk_input [])).2) = true ∧
  path_is_dir (["out"] // "Los Santos Rock Radio" // "Songs")
    (fs (process_station_folder Sample.tools "vgm" ["in"; "radio_01_class_rock"]
           ["out"] "Los Santos Rock Radio" (mkWorld Sample.disk_input [])).2) = true.
Proof.
  apply (X14_station_directories_made Sample.tools "vgm" ["in"; "radio_01_class_rock"]
           ["out"] "Los Santos Rock Radio" (mkWorld Sample.disk_input [])).
  by vm_compute.
Defined.

(** ** Names of archives and of converted files *)

Lemma append_nil_r s : s +:+ EmptyString = s.
Proof. induction s as [|c s IH]; simpl; [done|]. by rewrite IH. Qed.

Lemma rev_app_rev_app a acc c :
  String.rev_app (String.rev_app a acc) c = String.rev_app acc (a +:+ c).
Proof.
  revert acc. induction a as [|x a IH]; intros acc; [done|].
  simpl. by rewrite IH.
Qed.

Lemma rev_rev s : String.rev (String.rev s) = s.
Proof. unfold String.rev. rewrite rev_app_rev_app. simpl. apply append_nil_r. Qed.

Lemma prefix_inv a b : String.prefix a b = true → ∃ r, b = a +:+ r.
Proof.
  revert b. induction a as [|x a IH]; intros b H.
  - by exists b.
  - destruct b as [|y b]; [done|]. rewrite prefix_cons_cons in H.
    destruct (ascii_dec x y) as [->|]; [|done].
    destruct (IH _ H) as [r ->]. by exists r.
Qed.

Lemma endswith_inv s p : endswith s p = true → ∃ a, s = a +:+ p.
Proof.
  unfold endswith. intros [r Hr]%prefix_inv.
  exists (String.rev r). rewrite <- (rev_rev s), Hr.
  unfold String.rev at 1. rewrite rev_app_append.
  fold (String.rev (String.rev p)). rewrite rev_rev.
  by rewrite rev_app_acc.
Qed.

Lemma map_chars_append f a b :
  map_chars f (a +:+ b) = map_chars f a +:+ map_chars f b.
Proof. induction a as [|c a IH]; simpl; [done|]. by rewrite IH. Qed.

Lemma map_chars_append_inv f s a b :
  map_chars f s = a +:+ b →
  ∃ s1 s2, s = s1 +:+ s2 ∧ map_chars f s1 = a ∧ map_chars f s2 = b.
Proof.
  revert s. induction a as [|x a IH]; intros s H.
  - by exists EmptyString, s.
  - destruct s as [|c s]; [done|]. simpl in H. injection H as Hc Hs.
    destruct (IH _ Hs) as (s1 & s2 & -> & H1 & H2).
    exists (String c s1), s2. simpl. by rewrite Hc, H1.
Qed.

Lemma length_map_chars f s : String.length (map_chars f s) = String.length s.
Proof. induction s as [|c s IH]; simpl; [done|]. by rewrite IH. Qed.

Lemma length_append a b :
  String.length (a +:+ b) = String.length a + String.length b.
Proof. induction a as [|c a IH]; simpl; [done|]. by rewrite IH. Qed.

Lemma substring_0_append a b : String.substring 0 (String.length a) (a +:+ b) = a.
Proof.
  induction a as [|c a IH]; simpl.
  - by destruct b.
  - by rewrite IH.
Qed.

Lemma drop_last_append a b : drop_last (String.length b) (a +:+ b) = a.
Proof.
  unfold drop_last. rewrite length_append, Nat.add_sub. apply substring_0_append.
Qed.

Lemma substring_map_chars f n m s :
  String.substring n m (map_chars f s) = map_chars f (String.substring n m s).
Proof.
  revert n m. induction s as [|c s IH]; intros n m.
  - by destruct n, m.
  - destruct n as [|n]; simpl.
    + destruct m as [|m]; [done|]. simpl. by rewrite IH.
    + apply IH.
Qed.

Lemma drop_last_map_chars f n s :
  drop_last n (map_chars f s) = map_chars f (drop_last n s).
Proof. unfold drop_last. by rewrite length_map_chars, substring_map_chars. Qed.

Lemma lower_upper_char c : lower_char (upper_char c) = lower_char c.
Proof. by destruct c as [[] [] [] [] [] [] [] []]; vm_compute. Qed.

Lemma upper_lower_char c : upper_char (lower_char c) = upper_char c.
Proof. by destruct c as [[] [] [] [] [] [] [] []]; vm_compute. Qed.

Lemma lower_upper s : lower (upper s) = lower s.
Proof.
  unfold lower, upper. induction s as [|c s IH]; simpl; [done|].
  by rewrite lower_upper_char, IH.
Qed.

Lemma upper_lower s : upper (lower s) = upper s.
Proof.
  unfold lower, upper. induction s as [|c s IH]; simpl; [done|].
  by rewrite upper_lower_char, IH.
Qed.

Lemma station_keys_radio k : k ∈ station_keys → ∃ rest, k = "RADIO_" +:+ rest.
Proof.
  intros H.
  assert (Forall (λ k, ∃ rest, k = "RADIO_" +:+ rest) station_keys) as F.
  { unfold station_keys, STATION_MAP. simpl.
    repeat (constructor; [eexists; reflexivity|]). constructor. }
  rewrite Forall_forall in F. by apply F.
Qed.

(** X15.  Which files the expansion-pack scan extracts, and as what:
    a file is handed to the extractor for the identifier [k] exactly
    when [k] is a key of [STATION_MAP] and the file's name, in upper
    case, is [k] followed by [.RPF]; so the case of the letters of the
    name and of the extension plays no role, and a name with anything
    else before or after the identifier is passed over.  The loop body
    does nothing for any other file. *)
Theorem X15_dlc_archive_names run_tool exe temp root file :
  (∀ k, dlc_identifier file = Some k ↔
        k ∈ station_keys ∧ upper file = k +:+ ".RPF")
  ∧ extract_dlc_file run_tool exe temp root file
    = match dlc_identifier file with
      | Some k =>
          let* e := exists_ (temp // k) in
          if negb e then extract_rpf run_tool exe (root // file) (temp // k);; ret tt
          else ret tt
      | None => ret tt
      end.
Proof.
  split.
  - intros k. unfold dlc_identifier. split.
    + destruct (startswith _ _ && endswith _ _) eqn:Et; [|done].
      apply andb_true_iff in Et as [_ He].
      destruct (in_station_map _) eqn:Ei; [|done]. intros [= <-].
      apply bool_decide_eq_true in Ei. split; [done|].
      apply endswith_inv in He as [a Ha].
      apply map_chars_append_inv in Ha as (s1 & s2 & -> & H1 & H2).
      assert (String.length s2 = 4) as Hlen.
      { by rewrite <- (length_map_chars lower_char), H2. }
      pose proof (drop_last_append s1 s2) as Hd. rewrite Hlen in Hd. rewrite Hd.
      unfold upper at 1. rewrite map_chars_append. fold (upper s1) (upper s2).
      f_equal. rewrite <- upper_lower. unfold lower. by rewrite H2.
    + intros [Hk Hu].
      assert (startswith (upper file) "RADIO_" = true) as ->.
      { destruct (station_keys_radio k Hk) as [rest ->].
        rewrite Hu, append_assoc. apply prefix_append. }
      assert (endswith (lower file) ".rpf" = true) as ->.
      { rewrite <- lower_upper, Hu, lower_append. apply endswith_append. }
      assert (upper (drop_last 4 file) = k) as ->.
      { unfold upper. rewrite <- drop_last_map_chars. fold (upper file).
        rewrite Hu. apply (drop_last_append k ".RPF"). }
      simpl. unfold in_station_map. by rewrite bool_decide_eq_true_2.
  - unfold extract_dlc_file, dlc_identifier.
    destruct (startswith _ _ && endswith _ _); [|done].
    by destruct (in_station_map _).
Qed.

(** ** The values the regular expression captures *)

Lemma lazy_to_quote_clean s v n :
  Re.lazy_to_quote s = Some (v, n) →
  no_char newline v = true ∧ no_char dquote v = true.
Proof.
  revert v n. induction s as [|c s IH]; intros v n H; [done|].
  simpl in H. destruct (Ascii.eqb c dquote) eqn:Eq; [by simplify_eq|].
  destruct (Ascii.eqb c newline) eqn:En; [done|].
  destruct (Re.lazy_to_quote s) as [[v' n']|]; [|done]. simplify_eq.
  destruct (IH _ _ eq_refl) as [H1 H2]. simpl. by rewrite En, Eq, H1, H2.
Qed.

Lemma match_here_group key s v n :
  Re.match_here key s = Some (v, n) → group_ok v.
Proof.
  unfold Re.match_here. intros H.
  apply bind_Some in H as (r1 & _ & H).
  destruct (Re.skip_spaces r1) as [k r2]. destruct k as [|k]; [done|].
  apply bind_Some in H as (r3 & _ & H).
  destruct r3 as [|c0 r4]; [done|].
  destruct (Ascii.eqb c0 newline) eqn:En; [done|].
  apply bind_Some in H as ([v' n'] & El & H). simplify_eq. simpl.
  split; [|by eapply lazy_to_quote_clean].
  intros ->. by rewrite Ascii.eqb_refl in En.
Qed.

Lemma findall_go_groups key skip s : Forall group_ok (Re.findall_go key skip s).
Proof.
  revert skip. induction s as [|c s IH]; intros skip; [constructor|].
  simpl. destruct skip as [|k]; [|apply IH].
  destruct (Re.match_here key (String c s)) as [[v n]|] eqn:E; [|apply IH].
  constructor; [by eapply match_here_group|apply IH].
Qed.

(** X16.  What the two manifest scrapes can return.  Every value that
    [re.findall] hands to [parse_library_folders] and the value that
    [re.search] hands to [find_gta5_install] is non-empty, holds no
    newline and holds no double quote after its first character; and
    the value [re.search] returns is the first of those [re.findall]
    would list for the same key and text. *)
Theorem X16_captured_values key s :
  Forall group_ok (Re.findall key s)
  ∧ Re.search key s = head (Re.findall key s)
  ∧ ∀ v, Re.search key s = Some v → group_ok v.
Proof.
  assert (Re.search key s = head (Re.findall key s)) as Hs.
  { unfold Re.findall. induction s as [|c s IH]; [done|].
    simpl. by destruct (Re.match_here key (String c s)) as [[v n]|]. }
  split; [apply findall_go_groups|]. split; [done|].
  intros v Hv. rewrite Hs in Hv.
  pose proof (findall_go_groups key 0 s) as F. unfold Re.findall in Hv.
  destruct (Re.findall_go key 0 s) as [|v0 l]; simplify_eq/=.
  by inversion F.
Qed.

(** ** The station directories *)

Lemma station_map_names_distinct e1 e2 :
  e1 ∈ STATION_MAP → e2 ∈ STATION_MAP → e1.2 = e2.2 → e1.1 = e2.1.
Proof.
  intros H1 H2.
  assert (forallb (λ e1 : string * string,
            forallb (λ e2 : string * string,
              implb (String.eqb e1.2 e2.2) (String.eqb e1.1 e2.1)) STATION_MAP)
            STATION_MAP = true) as F by (by vm_compute).
  rewrite forallb_forall in F. apply list_elem_of_In in H1, H2.
  specialize (F e1 H1). rewrite forallb_forall in F. specialize (F e2 H2).
  intros He. apply String.eqb_eq in He. rewrite He in F. simpl in F.
  by apply String.eqb_eq.
Qed.

(** X17.  Two entries of [STATION_MAP] never share an output directory
    and neither's directory lies inside the other's: if the directory
    of one station is the directory of another, or a path above it,
    the two entries have the same identifier.  So the files converted
    for one station never land among those of another. *)
Theorem X17_station_directories_apart output_dir rpf1 station1 rpf2 station2 :
  (rpf1, station1) ∈ STATION_MAP → (rpf2, station2) ∈ STATION_MAP →
  output_dir // station1 `prefix_of` output_dir // station2 →
  rpf1 = rpf2.
Proof.
  intros H1 H2 [r Hr]. unfold joinpath in Hr.
  rewrite (path_of_string_station_name _ _ H1),
    (path_of_string_station_name _ _ H2), <- app_assoc in Hr.
  apply app_inv_head in Hr. simpl in Hr. injection Hr as Hn _.
  by apply (station_map_names_distinct (rpf1, station1) (rpf2, station2)).
Qed.

Lemma X17_witness : "RADIO_02_POP" = "RADIO_02_POP".
Proof.
  refine (X17_station_directories_apart ["out"] "RADIO_02_POP" "Non-Stop-Pop FM"
            "RADIO_02_POP" "Non-Stop-Pop FM" _ _ _).
  - unfold STATION_MAP. constructor 2. constructor 1.
  - unfold STATION_MAP. constructor 2. constructor 1.
  - by exists [].
Defined.

(** X18.  The conversion of a file with a plain name: for a name made
    of a stem without a dot and the extension spelled [.awc] or
    [.AWC], the loop body starts exactly one command, the transcoder
    on that file with the stem followed by [.wav] in the [Songs]
    directory as output, and prints at most messages after it; the
    only error that escapes is the failure to launch the
    transcoder. *)
Theorem X18_plain_extension_converted run_tool exe songs root stem ext w :
  dot_free stem = true → ext = ".awc" ∨ ext = ".AWC" →
  let inp := root // (stem +:+ ext) in
  let out := songs // (stem +:+ ".wav") in
  ∃ r msgs,
    process_file run_tool exe songs root (stem +:+ ext) w
    = (r, mkWorld (fs_after_run run_tool exe out inp (fs w))
            (trace w ++ EvRun exe out inp :: msgs))
    ∧ Forall (λ e, is_print e = true) msgs
    ∧ (r = Ret tt ∨ r = Raise OSError)
    ∧ (r = Raise OSError ↔ run_tool exe out inp = LaunchFailed).
Proof.
  intros Hd Hext inp out.
  destruct (output_filename_plain stem Hd) as (A1 & A2 & O1 & O2).
  assert (is_awc (stem +:+ ext) = true ∧
          output_filename (stem +:+ ext) = stem +:+ ".wav") as [A O].
  { by destruct Hext as [-> | ->]. }
  unfold process_file. rewrite A, O. fold inp out.
  unfold convert_awc, fs_after_run, subprocess_run.
  cbv [try_except bind print emit ret raise get_fs set_fs]. simpl.
  destruct (run_tool exe out inp) as [|code [v|]]; simpl.
  - exists (Raise OSError), []. split; [done|]. split; [constructor|].
    split; [by right|]. done.
  - destruct (Z.eqb_spec code 0) as [->|Hc]; simpl.
    + exists (Ret tt), []. split; [done|]. split; [constructor|].
      split; [by left|]. by split.
    + eexists (Ret tt), [_]. rewrite <- !app_assoc. split; [done|].
      split; [by repeat constructor|]. split; [by left|]. by split.
  - destruct (Z.eqb_spec code 0) as [->|Hc]; simpl.
    + exists (Ret tt), []. split; [done|]. split; [constructor|].
      split; [by left|]. by split.
    + eexists (Ret tt), [_]. rewrite <- !app_assoc. split; [done|].
      split; [by repeat constructor|]. split; [by left|]. by split.
Qed.

Lemma X18_witness :
  ∃ r msgs,
    process_file Sample.tools "vgm" ["out"; "Songs"] ["in"] ("track1" +:+ ".AWC")
      (mkWorld Sample.disk_input [])
    = (r, mkWorld (fs_after_run Sample.tools "vgm"
                     (["out"; "Songs"] // ("track1" +:+ ".wav"))
                     (["in"] // ("track1" +:+ ".AWC")) Sample.disk_input)
            ([] ++ EvRun "vgm" (["out"; "Songs"] // ("track1" +:+ ".wav"))
                     (["in"] // ("track1" +:+ ".AWC")) :: msgs))
    ∧ Forall (λ e, is_print e = true) msgs
    ∧ (r = Ret tt ∨ r = Raise OSError)
    ∧ (r = Raise OSError ↔
       Sample.tools "vgm" (["out"; "Songs"] // ("track1" +:+ ".wav"))
         (["in"] // ("track1" +:+ ".AWC")) = LaunchFailed).
Proof.
  exact (X18_plain_extension_converted Sample.tools "vgm" ["out"; "Songs"] ["in"]
           "track1" ".AWC" (mkWorld Sample.disk_input []) eq_refl (or_intror eq_refl)).
Defined.

(** ** The temporary directory holds this run's folders only *)

Global Instance stays_clean_preorder temp : PreOrder (stays_clean temp).
Proof.
  split.
  - intros w H. exact H.
  - intros a b c Hab Hbc H. by apply Hbc, Hab.
Qed.

Lemma names_set_entry c v es name :
  name ∈ (set_entry c v es).*1 → name = c ∨ name ∈ es.*1.
Proof.
  induction es as [|[k w] es IH]; simpl.
  - intros ->%list_elem_of_singleton. by left.
  - destruct (String.eqb_spec k c) as [->|Hk]; simpl.
    + intros H. by right.
    + intros [->|H]%elem_of_cons.
      * right. apply elem_of_cons. by left.
      * destruct (IH H) as [->|H']; [by left|].
        right. apply elem_of_cons. by right.
Qed.

Lemma names_del_entry c es name :
  name ∈ (del_entry c es).*1 → name ∈ es.*1.
Proof.
  induction es as [|[k w] es IH]; simpl; [done|].
  destruct (String.eqb_spec k c) as [->|Hk]; simpl.
  - intros H. apply elem_of_cons. right. by apply IH.
  - intros [->|H]%elem_of_cons; apply elem_of_cons; [by left|right; by apply IH].
Qed.

(** Rewriting the slot of a child of a directory changes the names
    listed there by at most that child's. *)
Lemma update_slot_child_names p c f o o' es :
  update_slot (p ++ [c]) f o = Some o' → slot_at p o = Some (Dir es) →
  ∃ es', slot_at p o' = Some (Dir es') ∧
         ∀ name, name ∈ es'.*1 → name = c ∨ name ∈ es.*1.
Proof.
  revert o o'. induction p as [|a p IH]; intros o o' H Hp.
  - simpl in *. destruct o as [[s|es0]|]; simplify_eq/=.
    destruct (f (assoc c es)) as [[v|]|]; simplify_eq/=.
    + eexists. split; [done|]. apply names_set_entry.
    + eexists. split; [done|]. intros name Hn. right. by eapply names_del_entry.
  - simpl in H. destruct o as [[s|es0]|]; try discriminate.
    rewrite slot_at_cons in Hp.
    destruct (update_slot (p ++ [c]) f (assoc a es0)) as [r|] eqn:E; [|done].
    destruct (IH _ _ E Hp) as (es' & He' & Hn).
    destruct r as [v|]; [|done]. simplify_eq.
    exists es'. split; [|done]. by rewrite slot_at_cons, assoc_set_entry_eq.
Qed.

Lemma stays_clean_print temp text : keeps (stays_clean temp) (print text).
Proof. intros w r w' [= <- <-] H. exact H. Qed.

Lemma stays_clean_run temp run_tool exe k inp :
  k ∈ station_keys →
  keeps (stays_clean temp) (subprocess_run run_tool exe (temp ++ [k]) inp).
Proof.
  intros Hk w r w'. unfold subprocess_run.
  cbv [bind emit get_fs set_fs ret raise].
  assert (∀ v, only_station_folders temp w →
               only_station_folders temp
                 (mkWorld (tool_leaves (temp ++ [k]) v (fs w))
                    (trace w ++ [EvRun exe (temp ++ [k]) inp]))) as Hv.
  { intros v (es & He & Hn). unfold only_station_folders, tool_leaves, update_path.
    simpl.
    destruct (update_slot (temp ++ [k]) _ (Some (fs w))) as [[t'|]|] eqn:E; simpl;
      [|by exists es..].
    destruct (update_slot_child_names _ _ _ _ _ es E He) as (es' & He' & Hn').
    exists es'. split; [done|]. intros name Hin.
    destruct (Hn' name Hin) as [->|]; auto. }
  destruct (run_tool exe (temp ++ [k]) inp) as [|code [v|]]; simpl.
  - intros [= <- <-] H. exact H.
  - destruct (code =? 0)%Z; intros [= <- <-] H; by apply Hv.
  - destruct (code =? 0)%Z; intros [= <- <-] H; exact H.
Qed.

Lemma mkdir_new_is_empty p w w' :
  mkdir false false p w = (Ret tt, w') → lookup_path p (fs w') = Some (Dir []).
Proof.
  unfold mkdir. cbv [bind get_fs set_fs emit ret raise].
  destruct (mkdir_fs false false p (fs w)) as [t'|] eqn:E; [|done].
  intros H. assert (fs w' = t') as ->.
  { destruct (path_exists p (fs w)); by simplify_eq. }
  unfold mkdir_fs in E.
  destruct (lookup_path p (fs w)) as [[s|es]|]; try discriminate.
  apply lookup_update_path_same in E. by simplify_eq.
Qed.

(** X19.  When the auto-detect path hands a temporary directory to the
    organizing step, that directory holds nothing but folders named
    after identifiers of [STATION_MAP]: whatever an earlier run or
    anything else had left in [temp_gta5_extraction] was removed with
    it before the extraction began, and the extractions write nowhere
    else in it. *)
Theorem X19_temp_holds_station_folders_only reg tool args w i t w1 :
  resolve_input reg tool args w = (Ret (Some (i, Some t)), w1) →
  ∃ es, lookup_path temp_gta5_extraction (fs w1) = Some (Dir es) ∧
        ∀ name, name ∈ es.*1 → name ∈ station_keys.
Proof.
  unfold resolve_input. intros H.
  destruct (truthy_opt (input args)); [cbv [ret] in H; simplify_eq|].
  destruct (auto_detect args); cycle 1.
  { apply bind_Ret_inv in H as (? & ? & _ & H). cbv [ret] in H. simplify_eq. }
  apply bind_Ret_inv in H as (? & ? & _ & H).
  apply bind_Ret_inv in H as ([steam_path|] & ? & _ & H); cycle 1.
  { apply bind_Ret_inv in H as (? & ? & _ & H). cbv [ret] in H. simplify_eq. }
  apply bind_Ret_inv in H as (? & ? & _ & H).
  apply bind_Ret_inv in H as (libs & ? & _ & H).
  apply bind_Ret_inv in H as ([gta5_path|] & ? & _ & H); cycle 1.
  { apply bind_Ret_inv in H as (? & ? & _ & H). cbv [ret] in H. simplify_eq. }
  apply bind_Ret_inv in H as (? & ? & _ & H).
  destruct (truthy_opt (rpf_cli args)) as [exe|]; cycle 1.
  { apply bind_Ret_inv in H as (? & ? & _ & H). cbv [ret] in H. simplify_eq. }
  do 2 (apply bind_Ret_inv in H as (? & ? & _ & H)).
  apply bind_Ret_inv in H as ([] & w3 & Hm & H).
  apply bind_Ret_inv in H as ([] & w4 & Hp & H).
  apply bind_Ret_inv in H as ([] & w5 & Hb & H).
  apply bind_Ret_inv in H as ([] & w6 & Hd & H).
  cbv [ret] in H. simplify_eq.
  apply mkdir_new_is_empty in Hm. apply print_inv in Hp as [_ Hp].
  assert (∀ e k inp, k ∈ station_keys →
            keeps (stays_clean temp_gta5_extraction)
              (subprocess_run tool e (temp_gta5_extraction // k) inp)) as Hrun.
  { intros e k inp Hk. unfold joinpath. rewrite path_of_string_station_key by done.
    by apply stays_clean_run. }
  assert (only_station_folders temp_gta5_extraction w4) as H4.
  { exists []. rewrite Hp. split; [done|]. intros name Hn. by apply elem_of_nil in Hn. }
  assert (keeps (stays_clean temp_gta5_extraction)
            (extract_base tool exe gta5_path temp_gta5_extraction)) as Kb.
  { apply keeps_extract_base
      with (ok_run := λ _ out _, ∃ k, k ∈ station_keys ∧
                                      out = temp_gta5_extraction // k);
      [apply _|intros; apply stays_clean_print
      |intros e out inp (k & Hk & ->); by apply Hrun|by eauto]. }
  assert (keeps (stays_clean temp_gta5_extraction)
            (extract_dlc tool exe gta5_path temp_gta5_extraction)) as Kd.
  { apply keeps_extract_dlc
      with (ok_run := λ _ out _, ∃ k, k ∈ station_keys ∧
                                      out = temp_gta5_extraction // k);
      [apply _|intros; apply stays_clean_print
      |intros e out inp (k & Hk & ->); by apply Hrun|by eauto]. }
  exact (Kd _ _ _ Hd (Kb _ _ _ Hb H4)).
Qed.

Lemma X19_witness :
  ∃ es,
    lookup_path temp_gta5_extraction
      (fs (resolve_input (Some "C:\Steam") Sample.tools Sample.auto_args
             (mkWorld (Dir [("C:", Sample.c_drive);
                            ("temp_gta5_extraction",
                             Dir [("left over", File "from an earlier run")])])
                [])).2)
    = Some (Dir es) ∧
    ∀ name, name ∈ es.*1 → name ∈ station_keys.
Proof.
  apply (X19_temp_holds_station_folders_only (Some "C:\Steam") Sample.tools
           Sample.auto_args
           (mkWorld (Dir [("C:", Sample.c_drive);
                          ("temp_gta5_extraction",
                           Dir [("left over", File "from an earlier run")])])
              [])
           temp_gta5_extraction temp_gta5_extraction).
  by vm_compute.
Defined.

(** ** The organizing loop against its specification (C6) *)

Lemma elem_of_all_ascii c : In c all_ascii.
Proof.
  unfold all_ascii. apply in_map_iff. exists (nat_of_ascii c).
  split; [apply ascii_nat_embedding|].
  apply in_seq. pose proof (nat_ascii_bounded c). lia.
Qed.

Lemma same_letter_upper c d :
  Ascii.eqb (upper_char c) (upper_char d) = same_letter c d.
Proof.
  assert (forallb (λ c, forallb (λ d,
            Bool.eqb (Ascii.eqb (upper_char c) (upper_char d)) (same_letter c d))
            all_ascii) all_ascii = true) as H by (by vm_compute).
  rewrite forallb_forall in H. specialize (H c (elem_of_all_ascii c)).
  rewrite forallb_forall in H. specialize (H d (elem_of_all_ascii d)).
  by apply Bool.eqb_prop in H.
Qed.

Lemma same_ignoring_case_upper a b :
  String.eqb (upper a) (upper b) = same_ignoring_case a b.
Proof.
  revert b. induction a as [|c a IH]; intros [|d b]; try done.
  change (upper (String c a)) with (String (upper_char c) (upper a)).
  change (upper (String d b)) with (String (upper_char d) (upper b)).
  cbn [String.eqb same_ignoring_case]. rewrite same_letter_upper, IH.
  by destruct (same_letter c d).
Qed.

Lemma upper_append a b : upper (a +:+ b) = upper a +:+ upper b.
Proof. apply map_chars_append. Qed.

Lemma find_ext {A} (f g : A → bool) l :
  (∀ x, x ∈ l → f x = g x) → List.find f l = List.find g l.
Proof.
  induction l as [|x l IH]; intros H; [done|]. simpl.
  rewrite (H x) by constructor. destruct (g x); [done|].
  apply IH. intros y Hy. apply H. by constructor.
Qed.

Lemma dir_named_same_ignoring_case t items name :
  dir_named t items (upper name)
  = List.find (λ item, path_is_dir item t
                       && same_ignoring_case (path_name item) name) items.
Proof.
  unfold dir_named. apply find_ext. intros item _.
  by rewrite same_ignoring_case_upper.
Qed.

Lemma spec_select_dir_named t items rpf_name :
  spec_select t items rpf_name
  = match dir_named t items (upper rpf_name) with
    | Some folder => Some folder
    | None => dir_named t items (upper (rpf_name +:+ ".RPF"))
    end.
Proof.
  unfold spec_select. rewrite <- !dir_named_same_ignoring_case.
  by rewrite !upper_append.
Qed.

Lemma dir_named_frame t t' items pattern :
  (∀ item, item ∈ items → lookup_path item t' = lookup_path item t) →
  dir_named t' items pattern = dir_named t items pattern.
Proof.
  intros H. unfold dir_named. apply find_ext. intros item Hin.
  unfold path_is_dir. by rewrite (H item Hin).
Qed.

Lemma iterdir_fs_below p t items item :
  iterdir_fs p t = Some items → item ∈ items → p `prefix_of` item.
Proof.
  unfold iterdir_fs. destruct (lookup_path p t) as [[s|es]|]; try done.
  intros [= <-] Hin. apply list_elem_of_fmap in Hin as (e & -> & _).
  by eexists.
Qed.

Section Organize.
Context (run_tool : string → Path → Path → proc_result).

Lemma organize_station_select vg input_dir output_dir items rpf_name station_name w :
  iterdir_fs input_dir (fs w) = Some items →
  organize_station run_tool vg input_dir output_dir (rpf_name, station_name) w
  = match spec_select (fs w) items rpf_name with
    | Some folder =>
        process_station_folder run_tool vg folder output_dir station_name w
    | None => (Ret tt, w)
    end.
Proof.
  intros Hl. rewrite organize_station_spec, Hl, spec_select_dir_named.
  by destruct (dir_named (fs w) items (upper rpf_name)).
Qed.

Lemma frame_process_station_folder vg input_dir folder output_dir station :
  diverge input_dir output_dir →
  keeps (frame (λ p, input_dir `prefix_of` p))
    (process_station_folder run_tool vg folder output_dir station).
Proof.
  intros Hd.
  assert (∀ q p, output_dir `prefix_of` q → input_dir `prefix_of` p →
                 diverge p q) as Hdiv.
  { intros q p Hq Hp. by eapply diverge_extend. }
  assert (output_dir `prefix_of` output_dir // station) as H1
    by apply prefix_joinpath.
  assert (output_dir `prefix_of` output_dir // station // "Songs") as H2.
  { etrans; [exact H1|apply prefix_joinpath]. }
  apply keeps_process_station_folder
    with (ok_mkdir := λ q, output_dir `prefix_of` q)
         (ok_run := λ _ q _, output_dir `prefix_of` q);
    [apply _|intros; apply frame_print| | |done|done|].
  - intros pa ex q Hq. apply frame_mkdir. intros p Hp.
    by apply diverge_not_prefix, Hdiv.
  - intros exe q inp Hq. apply frame_run. intros p Hp. by apply Hdiv.
  - intros. etrans; [exact H2|apply prefix_joinpath].
Qed.

Lemma organize_from_listing vg input_dir output_dir items w0 entries w :
  diverge input_dir output_dir →
  iterdir_fs input_dir (fs w0) = Some items →
  frame (λ p, input_dir `prefix_of` p) w0 w →
  for_each entries (organize_station run_tool vg input_dir output_dir) w
  = spec_organize run_tool vg output_dir (fs w0) items entries w.
Proof.
  intros Hd Hl. revert w.
  induction entries as [|[rpf_name station_name] entries IH]; intros w Hw; [done|].
  cbn [for_each spec_organize]. unfold bind.
  assert (iterdir_fs input_dir (fs w) = Some items) as Hlw.
  { unfold iterdir_fs in *. by rewrite (Hw input_dir). }
  rewrite (organize_station_select _ _ _ items) by done.
  assert (spec_select (fs w) items rpf_name = spec_select (fs w0) items rpf_name)
    as ->.
  { rewrite !spec_select_dir_named.
    rewrite !(dir_named_frame (fs w0) (fs w)); [done|..];
      intros item Hin; apply Hw; by eapply iterdir_fs_below. }
  destruct (spec_select (fs w0) items rpf_name) as [folder|].
  - destruct (process_station_folder _ _ _ _ _ w) as [[[]|e] w1] eqn:E; [|done].
    apply IH. etrans; [exact Hw|].
    exact (frame_process_station_folder _ _ _ _ _ Hd _ _ _ E).
  - by apply IH.
Qed.

End Organize.

(** C6.  The organizing loop of [main] is the loop of [organize_station]
    over the entries of the station mapping, in the order of the
    mapping.  Where the input directory lists as [items], all of them
    with ASCII names:
    - for every entry, in whatever state of the disk the loop reaches
      it, the body processes the subdirectory the specification
      selects (case-insensitive equality with the identifier first, with
      the identifier followed by [.rpf] only when no directory matches
      the identifier) and nothing else; when neither pattern matches a
      directory it returns at once, the world as it was: nothing is
      printed, made or converted for the station;
    - when the input directory and the group directory name different
      places, the listing is the same for every entry, and the whole
      loop is the specification's organizer over the listing taken when
      the loop starts;
    - the comparison the code makes, [upper] of both sides, is the
      case-insensitive equality of the specification, and the second
      pattern, written with [.RPF] in the code, is the identifier
      followed by [.rpf]. *)
Theorem C6_organize tool vg input_dir output_dir items w :
  iterdir_fs input_dir (fs w) = Some items →
  Forall (λ item, ascii_text (path_name item) = true) items →
  organize tool vg input_dir output_dir
  = for_each STATION_MAP (organize_station tool vg input_dir output_dir)
  ∧ (∀ rpf_name station_name, (rpf_name, station_name) ∈ STATION_MAP →
       organize_station tool vg input_dir output_dir (rpf_name, station_name) w
       = match spec_select (fs w) items rpf_name with
         | Some folder =>
             process_station_folder tool vg folder output_dir station_name w
         | None => (Ret tt, w)
         end)
  ∧ (apart input_dir output_dir = true →
     organize tool vg input_dir output_dir w
     = spec_organize tool vg output_dir (fs w) items STATION_MAP w)
  ∧ (∀ item name, item ∈ items →
       String.eqb (upper (path_name item)) (upper name)
       = same_ignoring_case (path_name item) name)
  ∧ (∀ rpf_name, upper (rpf_name +:+ ".RPF") = upper (rpf_name +:+ ".rpf")).
Proof.
  intros Hl Hascii. split; [done|]. split; [|split; [|split]].
  - intros rpf_name station_name _. by apply organize_station_select.
  - intros Hd. unfold organize. apply organize_from_listing; [|done|done].
    by apply apart_diverge.
  - intros item name _. apply same_ignoring_case_upper.
  - intros rpf_name. by rewrite !upper_append.
Qed.

Lemma C6_witness :
  let items := [ ["in"; "radio_01_class_rock"]; ["in"; "RADIO_02_POP.rpf"];
                 ["in"; "RADIO_04_PUNK"] ] in
  let w := mkWorld Sample.disk_input [] in
  spec_select (fs w) items "RADIO_01_CLASS_ROCK" = Some ["in"; "radio_01_class_rock"]
  ∧ spec_select (fs w) items "RADIO_02_POP" = Some ["in"; "RADIO_02_POP.rpf"]
  ∧ spec_select (fs w) items "RADIO_04_PUNK" = None
  ∧ organize_station Sample.tools "vgm" ["in"] ["out"; "Grand Theft Auto V"]
      ("RADIO_04_PUNK", "Channel X") w = (Ret tt, w)
  ∧ organize Sample.tools "vgm" ["in"] ["out"; "Grand Theft Auto V"] w
    = spec_organize Sample.tools "vgm" ["out"; "Grand Theft Auto V"] (fs w) items
        STATION_MAP w.
Proof.
  intros items w.
  destruct (C6_organize Sample.tools "vgm" ["in"] ["out"; "Grand Theft Auto V"]
              items w eq_refl ltac:(by repeat constructor))
    as (_ & Hentry & Hloop & _).
  split; [reflexivity|]. split; [reflexivity|]. split; [reflexivity|].
  split.
  - rewrite (Hentry "RADIO_04_PUNK" "Channel X"); [reflexivity|].
    unfold STATION_MAP. set_solver.
  - by apply Hloop.
Defined.

(** ** Flattening a station folder (C10) *)

Lemma to_backslashes_component s : component_name s = true → to_backslashes s = s.
Proof.
  induction s as [|c s IH]; [done|]. simpl.
  intros [[Hs _]%andb_prop Hr]%andb_prop.
  unfold is_sep in Hs. apply negb_true_iff, orb_false_elim in Hs as [Hs _].
  change (to_backslashes (String c s))
    with (String (if Ascii.eqb c "/" then "\"%char else c) (to_backslashes s)).
  by rewrite Hs, IH.
Qed.

Lemma split_path_component s : component_name s = true → split_path s = [s].
Proof.
  induction s as [|c s IH]; [done|]. simpl.
  intros [[Hs _]%andb_prop Hr]%andb_prop.
  apply negb_true_iff in Hs. by rewrite Hs, IH.
Qed.

Lemma splitroot_component s :
  component_name s = true → splitroot s = (EmptyString, false, s).
Proof.
  intros H. unfold splitroot.
  destruct s as [|c1 s]; [done|].
  simpl in H. apply andb_prop in H as [[H1 _]%andb_prop H].
  unfold is_sep in H1. apply negb_true_iff, orb_false_elim in H1 as [_ H1].
  assert (unc_drive (String c1 s) = None) as ->.
  { unfold unc_drive. destruct s; [done|]. by rewrite H1. }
  destruct s as [|c2 s]; [by rewrite H1|].
  simpl in H. apply andb_prop in H as [[_ H2]%andb_prop _].
  apply negb_true_iff in H2. rewrite H2, andb_false_r. by rewrite H1.
Qed.

Lemma path_of_string_component s :
  component_name s = true → s ≠ EmptyString → s ≠ "." → path_of_string s = [s].
Proof.
  intros H H1 H2. unfold path_of_string.
  rewrite to_backslashes_component, splitroot_component by done.
  rewrite split_path_component by done. simpl.
  rewrite filter_cons_True by done. done.
Qed.

Lemma component_name_append a b :
  component_name a = true → component_name b = true →
  component_name (a +:+ b) = true.
Proof.
  intros Ha Hb. induction a as [|c a IH]; [done|].
  change (String c a +:+ b) with (String c (a +:+ b)).
  simpl in *. apply andb_prop in Ha as [-> Ha]. by rewrite IH.
Qed.

Lemma component_name_replace_go old new k s :
  component_name new = true → component_name s = true →
  component_name (replace_go old new k s) = true.
Proof.
  intros Hn. revert k. induction s as [|c s IH]; intros k Hs; [done|].
  simpl in Hs. apply andb_prop in Hs as [Hc Hs]. cbn [replace_go].
  destruct k as [|k]; [|by apply IH].
  destruct (String.prefix old (String c s)).
  - apply component_name_append; [done|by apply IH].
  - cbn [component_name]. rewrite Hc. by apply IH.
Qed.

Lemma prefix_length a b :
  String.prefix a b = true → String.length a ≤ String.length b.
Proof. intros (r & ->)%prefix_inv. rewrite length_append. lia. Qed.

Lemma length_replace_go old new k s :
  String.length new = String.length old → 0 < String.length old →
  k ≤ String.length s →
  String.length (replace_go old new k s) = String.length s - k.
Proof.
  intros Hn Ho. revert k.
  induction s as [|c s IH]; intros k Hk; cbn [replace_go String.length] in *; [lia|].
  destruct k as [|k]; [|apply IH; lia].
  destruct (String.prefix old (String c s)) eqn:Hp.
  - apply prefix_length in Hp. cbn [String.length] in Hp.
    rewrite length_append, IH by lia. lia.
  - cbn [String.length]. rewrite IH by lia. lia.
Qed.

Lemma length_output_filename file :
  String.length (output_filename file) = String.length file.
Proof.
  unfold output_filename, replace.
  rewrite !length_replace_go by (simpl; lia). lia.
Qed.

Lemma is_awc_length file : is_awc file = true → 4 ≤ String.length file.
Proof.
  unfold is_awc. intros (a & H)%endswith_inv.
  rewrite <- (length_map_chars lower_char file).
  change (map_chars lower_char file) with (lower file).
  rewrite H, length_append. simpl. lia.
Qed.

(** The converted name of a container file is one component. *)
Lemma path_of_string_output_filename file :
  component_name file = true → is_awc file = true →
  path_of_string (output_filename file) = [output_filename file].
Proof.
  intros Hc Ha. pose proof (is_awc_length _ Ha) as Hl.
  rewrite <- length_output_filename in Hl.
  apply path_of_string_component.
  - unfold output_filename, replace.
    by repeat apply component_name_replace_go.
  - intros E. rewrite E in Hl. simpl in Hl. lia.
  - intros E. rewrite E in Hl. simpl in Hl. lia.
Qed.

Lemma elem_of_conversions walk root file :
  (root, file) ∈ conversions walk → is_awc file = true.
Proof.
  unfold conversions. rewrite list_elem_of_In, in_flat_map.
  intros ([[r d] files] & _ & H). apply in_map_iff in H as (f & [= <- <-] & H).
  by apply filter_In in H as [_ H].
Qed.

Lemma for_each_app {A} (l1 l2 : list A) (body : A → M unit) w :
  for_each (l1 ++ l2) body w = (for_each l1 body;; for_each l2 body) w.
Proof.
  revert w. induction l1 as [|x l1 IH]; intros w; [done|].
  cbn [app for_each]. unfold bind.
  destruct (body x w) as [[[]|e] w1]; [|done]. rewrite IH. done.
Qed.

Lemma mkdir_fs_returns_dir pa p t t' :
  mkdir_fs pa true p t = Some t' → path_is_dir p t' = true.
Proof.
  intros H.
  destruct (mkdir pa true p (mkWorld t [])) as [r w'] eqn:E.
  assert (r = Ret tt ∧ fs w' = t') as [-> <-].
  { revert E. unfold mkdir. cbv [bind get_fs set_fs emit ret raise]. simpl.
    rewrite H. destruct (path_exists p t); by intros [= <- <-]. }
  by eapply mkdir_returns_dir.
Qed.

Section Flatten.
Context (run_tool : string → Path → Path → proc_result).
Context (vg : string) (songs : Path).

Local Notation "'step'" := (conversion_step run_tool vg songs).

(** A conversion whose process can be launched returns; it runs the
    command and adds at most a message. *)
Lemma convert_awc_spec inp out w :
  run_tool vg out inp ≠ LaunchFailed →
  ∃ b msgs,
    convert_awc run_tool vg inp out w
    = (Ret b, mkWorld (fs_after_run run_tool vg out inp (fs w))
                (trace w ++ EvRun vg out inp :: msgs))
    ∧ List.filter is_run msgs = [].
Proof.
  intros Hl. unfold convert_awc, fs_after_run, subprocess_run.
  cbv [try_except bind print emit ret raise get_fs set_fs]. simpl.
  destruct (run_tool vg out inp) as [|code [v|]]; [done|..]; simpl;
    destruct (code =? 0)%Z; simpl.
  - by exists true, [].
  - eexists false, [_]. by rewrite <- !app_assoc.
  - by exists true, [].
  - eexists false, [_]. by rewrite <- !app_assoc.
Qed.

(** The two nested loops are one loop over the conversions. *)
Lemma walk_loop_flat walk w :
  for_each walk
    (λ '(root, dirs, files), for_each files (process_file run_tool vg songs root)) w
  = for_each (conversions walk)
      (λ conv, convert_awc run_tool vg (conv.1 // conv.2)
                 (songs // output_filename conv.2);; ret tt) w.
Proof.
  revert w. induction walk as [|[[root dirs] files] walk IH]; intros w; [done|].
  cbn [for_each conversions flat_map]. rewrite for_each_app.
  unfold bind at 1 2.
  assert (∀ w, for_each files (process_file run_tool vg songs root) w
               = for_each (map (λ file, (root, file)) (List.filter is_awc files))
                   (λ conv, convert_awc run_tool vg (conv.1 // conv.2)
                              (songs // output_filename conv.2);; ret tt) w) as ->.
  { clear. induction files as [|file files IH]; intros w; [done|].
    cbn [for_each List.filter]. unfold process_file at 1.
    destruct (is_awc file).
    - cbn [map for_each]. cbv [bind ret]. cbn [fst snd].
      destruct (convert_awc _ _ _ _ w) as [[b|e] w1]; [apply IH|done].
    - cbv [bind ret]. apply IH. }
  destruct (for_each _ _ w) as [[[]|e] w1]; [|done]. apply IH.
Qed.

Lemma flat_loop convs w :
  Forall (λ conv, run_tool vg (songs // output_filename conv.2) (conv.1 // conv.2)
                  ≠ LaunchFailed) convs →
  ∃ new,
    for_each convs
      (λ conv, convert_awc run_tool vg (conv.1 // conv.2)
                 (songs // output_filename conv.2);; ret tt) w
    = (Ret tt, mkWorld (fold_left step convs (fs w)) (trace w ++ new))
    ∧ List.filter is_run new = map (conversion_event vg songs) convs.
Proof.
  revert w. induction convs as [|conv convs IH]; intros w Hl.
  - exists []. rewrite app_nil_r. by destruct w.
  - apply Forall_cons in Hl as [Hc Hl].
    destruct (convert_awc_spec (conv.1 // conv.2)
                (songs // output_filename conv.2) w Hc) as (b & msgs & E & Hm).
    cbn [for_each fold_left]. unfold bind at 1 2. rewrite E. cbn [ret].
    destruct (IH (mkWorld (step (fs w) conv)
                    (trace w ++ EvRun vg (songs // output_filename conv.2)
                                  (conv.1 // conv.2) :: msgs)) Hl)
      as (new & Hnew & Hn).
    exists (EvRun vg (songs // output_filename conv.2) (conv.1 // conv.2)
            :: msgs ++ new).
    split.
    + etrans; [exact Hnew|]. cbn [fs trace]. by rewrite <- app_assoc.
    + cbn [List.filter is_run map]. by rewrite List.filter_app, Hm, Hn.
Qed.

Lemma step_output (conv : Path * string) :
  component_name conv.2 = true → is_awc conv.2 = true →
  songs // output_filename conv.2 = songs ++ [output_filename conv.2].
Proof.
  intros H1 H2. unfold joinpath. by rewrite path_of_string_output_filename.
Qed.

Lemma fold_songs_dir l t :
  Forall ok_name l → path_is_dir songs t = true →
  path_is_dir songs (fold_left step l t) = true.
Proof.
  revert t. induction l as [|conv l IH]; intros t Hn Hd; [done|].
  apply Forall_cons in Hn as [[H1 H2] Hn]. simpl. apply IH; [done|].
  unfold conversion_step. rewrite step_output by done. by apply fs_after_run_keeps_dir.
Qed.

Lemma tool_leaves_file_not_dir out c t :
  path_is_dir out t = false → path_is_dir out (tool_leaves out (File c) t) = false.
Proof.
  intros Hd. unfold tool_leaves.
  destruct (update_path out _ t) as [t'|] eqn:E; simpl; [|done].
  apply lookup_update_path_same in E. unfold path_is_dir in *.
  destruct (lookup_path out t) as [[s|es]|]; simplify_eq/=; by rewrite <- E.
Qed.

Lemma fold_not_dir n l t :
  Forall ok_name l → Forall (leaves_a_file run_tool vg songs) l →
  path_is_dir (songs ++ [n]) t = false →
  path_is_dir (songs ++ [n]) (fold_left step l t) = false.
Proof.
  revert t. induction l as [|conv l IH]; intros t Hn Hf Hd; [done|].
  apply Forall_cons in Hn as [[H1 H2] Hn]. apply Forall_cons in Hf as [Hf1 Hf].
  simpl. apply IH; [done..|].
  unfold conversion_step. unfold leaves_a_file in Hf1. rewrite step_output in * by done.
  destruct (decide (output_filename conv.2 = n)) as [<-|Hne].
  - unfold fs_after_run.
    destruct (run_tool vg _ _) as [|code [v|]] eqn:Er; [done| |done].
    destruct (Hf1 code v eq_refl) as [c ->].
    by apply tool_leaves_file_not_dir.
  - unfold path_is_dir in *. by rewrite fs_after_run_sibling by done.
Qed.

Lemma fold_sibling n l t :
  Forall ok_name l → Forall (λ conv, output_filename conv.2 ≠ n) l →
  lookup_path (songs ++ [n]) (fold_left step l t) = lookup_path (songs ++ [n]) t.
Proof.
  revert t. induction l as [|conv l IH]; intros t Hn Hf; [done|].
  apply Forall_cons in Hn as [[H1 H2] Hn]. apply Forall_cons in Hf as [Hf1 Hf].
  simpl. rewrite IH by done.
  unfold conversion_step. rewrite step_output by done.
  by rewrite fs_after_run_sibling by done.
Qed.

(** Of the conversions that write to one path, the last one decides
    what the path holds. *)
Lemma last_wins l1 conv l3 t code c :
  Forall ok_name (l1 ++ conv :: l3) → Forall (leaves_a_file run_tool vg songs) l1 →
  Forall (λ conv', output_filename conv'.2 ≠ output_filename conv.2) l3 →
  path_is_dir songs t = true →
  path_is_dir (songs // output_filename conv.2) t = false →
  run_tool vg (songs // output_filename conv.2) (conv.1 // conv.2)
  = Exited code (Some (File c)) →
  lookup_path (songs // output_filename conv.2)
    (fold_left step (l1 ++ conv :: l3) t) = Some (File c).
Proof.
  intros Hn Hf Hl Hs Ho Hr.
  apply Forall_app in Hn as [Hn1 [[H1 H2] Hn3]%Forall_cons].
  rewrite step_output in * by done.
  rewrite fold_left_app. simpl. rewrite fold_sibling by done.
  pose proof (fold_songs_dir l1 t Hn1 Hs) as Hs1.
  pose proof (fold_not_dir _ l1 t Hn1 Hf Ho) as Ho1.
  set (t1 := fold_left step l1 t) in *.
  unfold conversion_step, fs_after_run. rewrite step_output by done. rewrite Hr.
  unfold path_is_dir in Ho1.
  destruct (lookup_path (songs ++ [output_filename conv.2]) t1) as [[s|es]|] eqn:E;
    [|done|].
  - by apply tool_leaves_over_file with (c := s).
  - apply tool_leaves_fresh; [done|]. unfold path_exists. by rewrite E.
Qed.

End Flatten.

Lemma mkdir_made pa p t t' w :
  fs w = t → mkdir_fs pa true p t = Some t' →
  ∃ new, mkdir pa true p w = (Ret tt, mkWorld t' (trace w ++ new))
         ∧ List.filter is_run new = [].
Proof.
  intros <- H. unfold mkdir. cbv [bind get_fs set_fs emit ret raise]. rewrite H.
  simpl. destruct (path_exists p (fs w)).
  - exists []. by rewrite app_nil_r.
  - by exists [EvMkdir p].
Qed.



